(** * Dev-Events: event normalisation, booking validation, connection cache

    A shallow embedding of the TypeScript sources of the event-listing
    application, and the properties of its specification stated and proved
    over that embedding.

    - [Js]           : the JavaScript strings, patterns, [Date], thrown
                       values and plain objects the sources work with;
    - [EventModel]   : database/event.model.ts, the [pre('validate')] hook
                       (slug assignment, date and time normalisation) and
                       [Event.create]; the [pre('save')] hook of the
                       earlier revision;
    - [BookingModel] : database/booking.model.ts, the [pre('save')] hook;
    - [Mongodb]      : lib/mongodb.ts, the cached [dbConnect] in its
                       current and in its earlier revision;
    - [Route]        : app/api/events/route.ts, the [POST] handler;
    - [Spec]         : the vocabulary of the statements;
    - [Scenario]     : the concrete inputs of the examples.

    Strings are [string]s whose characters are the code units 0..255, so
    the model is exact on Latin-1 text.  The events collection is the list
    of its documents; a promise is what awaiting it gives; requests are
    served one after the other. *)

From Stdlib Require Import Bool Arith ZArith List Lia Ascii String.
From Stdlib Require Import DecimalString DecimalNat Finite.
Import ListNotations.

Local Open Scope string_scope.
Local Open Scope bool_scope.
Local Open Scope nat_scope.

(* ================================================================== *)
(** * JavaScript primitives *)
(* ================================================================== *)

Module Js.

(** ** Character classes *)

Definition code (c : ascii) : nat := nat_of_ascii c.

Definition inRange (lo hi : ascii) (c : ascii) : bool :=
  (code lo <=? code c) && (code c <=? code hi).

(** [\s], which is also what [String.prototype.trim] strips: TAB, LF, VT,
    FF, CR, SPACE and NBSP are its members below U+0100. *)
Definition isSpace (c : ascii) : bool :=
  ((9 <=? code c) && (code c <=? 13)) || (code c =? 32) || (code c =? 160).

(** [\d] *)
Definition isDigit (c : ascii) : bool := inRange "0" "9" c.

(** [\w] *)
Definition isWord (c : ascii) : bool :=
  inRange "A" "Z" c || inRange "a" "z" c || isDigit c || (c =? "_")%char.

Definition isHyphen (c : ascii) : bool := (c =? "-")%char.

(** ** Case mapping *)

(** [toLowerCase] on one code unit: A-Z, and the Latin-1 capitals
    U+00C0..U+00DE except the multiplication sign U+00D7. *)
Definition lowerChar (c : ascii) : ascii :=
  let n := code c in
  if ((65 <=? n) && (n <=? 90))
     || ((192 <=? n) && (n <=? 222) && negb (n =? 215))
  then ascii_of_nat (n + 32) else c.

Fixpoint toLowerCase (s : string) : string :=
  match s with
  | EmptyString => EmptyString
  | String c r => String (lowerChar c) (toLowerCase r)
  end.

(** Canonicalisation used by the [i] flag against an ASCII pattern: only
    a-z and A-Z are identified. *)
Definition foldChar (c : ascii) : ascii :=
  let n := code c in
  if (97 <=? n) && (n <=? 122) then ascii_of_nat (n - 32) else c.

(** ** Trimming *)

Fixpoint trimStart (s : string) : string :=
  match s with
  | EmptyString => EmptyString
  | String c r => if isSpace c then trimStart r else s
  end.

Fixpoint trimEnd (s : string) : string :=
  match s with
  | EmptyString => EmptyString
  | String c r =>
      match trimEnd r with
      | EmptyString => if isSpace c then EmptyString else String c EmptyString
      | r' => String c r'
      end
  end.

Definition trim (s : string) : string := trimEnd (trimStart s).

(** ** Truthiness of a string: [Boolean(s)], [!s], [s || d] *)

Definition truthy (s : string) : bool :=
  match s with EmptyString => false | _ => true end.

Definition orElse (s d : string) : string := if truthy s then s else d.

(** ** [split] on a one-character separator *)

Fixpoint split (sep : ascii) (s : string) : list string :=
  match s with
  | EmptyString => [EmptyString]
  | String c r =>
      if (c =? sep)%char then EmptyString :: split sep r
      else match split sep r with
           | h :: t => String c h :: t
           | [] => [String c EmptyString]
           end
  end.

(** ** [padStart(2, '0')] *)

Definition padStart2 (s : string) : string :=
  match String.length s with
  | 0 => "00"
  | 1 => "0" ++ s
  | _ => s
  end.

(** ** [startsWith] *)

Definition startsWith (s p : string) : bool := String.prefix p s.

(** ** Global replaces used by [slugify] *)

(** [s.replace(/[^...]/g, '')] : keep the characters of the class. *)
Fixpoint keepOnly (keep : ascii -> bool) (s : string) : string :=
  match s with
  | EmptyString => EmptyString
  | String c r =>
      if keep c then String c (keepOnly keep r) else keepOnly keep r
  end.

(** [s.replace(/C+/g, rep)] : every maximal run of class [C] becomes one
    [rep]; [inRun] records that the previous character was in the run. *)
Fixpoint collapseRuns (cls : ascii -> bool) (rep : ascii) (inRun : bool)
    (s : string) : string :=
  match s with
  | EmptyString => EmptyString
  | String c r =>
      if cls c then
        if inRun then collapseRuns cls rep true r
        else String rep (collapseRuns cls rep true r)
      else String c (collapseRuns cls rep false r)
  end.

(** [s.replace(/^-|-$/g, '')] : one leading hyphen, then one trailing
    hyphen of what is left, are dropped. *)
Definition dropLeadingHyphen (s : string) : string :=
  match s with
  | String c r => if isHyphen c then r else s
  | EmptyString => EmptyString
  end.

Fixpoint dropTrailingHyphen (s : string) : string :=
  match s with
  | EmptyString => EmptyString
  | String c EmptyString => if isHyphen c then EmptyString else s
  | String c r => String c (dropTrailingHyphen r)
  end.

(** ** Numbers in strings *)

(** The template literal [`${n}`] of a non-negative integer counter
    (below 2^53, where a JavaScript number still counts by one). *)
Definition decimal (n : nat) : string :=
  NilEmpty.string_of_uint (Nat.to_uint n).

Definition digitValue (c : ascii) : Z := Z.of_nat (code c - 48).

(** [parseInt(s, 10)] on a string of decimal digits. *)
Fixpoint parseDigits (acc : Z) (s : string) : Z :=
  match s with
  | EmptyString => acc
  | String c r => parseDigits (10 * acc + digitValue c)%Z r
  end.

Definition parseInt10 (s : string) : Z := parseDigits 0%Z s.

(** ** Regular expressions

    The fragment the anchored patterns of the sources are written in.  An
    anchored [^r$] without flags matches exactly the strings of the
    language of [r]; membership is decided with derivatives. *)

Inductive regex : Type :=
| Void : regex                          (* matches nothing *)
| Eps : regex                           (* the empty string *)
| Chr : ascii -> regex                  (* a literal character *)
| Range : ascii -> ascii -> regex       (* [a-b] *)
| Cat : regex -> regex -> regex         (* r1 r2 *)
| Alt : regex -> regex -> regex.        (* r1|r2 *)

(** [r?] *)
Definition Opt (r : regex) : regex := Alt r Eps.
(** [\d] *)
Definition Digit : regex := Range "0" "9".

Fixpoint nullable (r : regex) : bool :=
  match r with
  | Void => false
  | Eps => true
  | Chr _ => false
  | Range _ _ => false
  | Cat a b => nullable a && nullable b
  | Alt a b => nullable a || nullable b
  end.

Fixpoint deriv (c : ascii) (r : regex) : regex :=
  match r with
  | Void => Void
  | Eps => Void
  | Chr d => if (c =? d)%char then Eps else Void
  | Range lo hi => if inRange lo hi c then Eps else Void
  | Cat a b =>
      if nullable a then Alt (Cat (deriv c a) b) (deriv c b)
      else Cat (deriv c a) b
  | Alt a b => Alt (deriv c a) (deriv c b)
  end.

(** The language of a pattern. *)
Fixpoint Lang (r : regex) (s : string) : Prop :=
  match r with
  | Void => False
  | Eps => s = EmptyString
  | Chr c => s = String c EmptyString
  | Range lo hi => exists c, s = String c EmptyString /\ inRange lo hi c = true
  | Cat a b => exists s1 s2, s = (s1 ++ s2)%string /\ Lang a s1 /\ Lang b s2
  | Alt a b => Lang a s \/ Lang b s
  end.

(** [/^r$/.test(s)] *)
Fixpoint test (r : regex) (s : string) : bool :=
  match s with
  | EmptyString => nullable r
  | String c t => test (deriv c r) t
  end.

(** [/p/i.test(s)] for a literal ASCII pattern [p], not anchored: some
    suffix of [s] starts with [p] up to the case of a-z. *)
Fixpoint prefixNoCase (p s : string) : bool :=
  match p, s with
  | EmptyString, _ => true
  | String _ _, EmptyString => false
  | String a p', String b s' =>
      (foldChar a =? foldChar b)%char && prefixNoCase p' s'
  end.

Fixpoint containsNoCase (p s : string) : bool :=
  prefixNoCase p s ||
  match s with
  | EmptyString => false
  | String _ s' => containsNoCase p s'
  end.

(** ** [Date]: the day arithmetic of ECMAScript (sec. 21.4.1)

    A time value is a number of milliseconds since 1970-01-01T00:00Z;
    [None] stands for NaN, the time value of an invalid [Date]. *)

Definition msPerDay : Z := 86400000.

Definition Day (t : Z) : Z := (t / msPerDay)%Z.

Definition InLeapYear (y : Z) : bool :=
  ((y mod 4 =? 0) && (negb (y mod 100 =? 0) || (y mod 400 =? 0)))%Z.

Definition DaysInYear (y : Z) : Z := if InLeapYear y then 366%Z else 365%Z.

Definition DayFromYear (y : Z) : Z :=
  (365 * (y - 1970) + (y - 1969) / 4 - (y - 1901) / 100 + (y - 1601) / 400)%Z.

(** [YearFromTime]: the largest [y] with [DayFromYear y <= d].  The mean
    Gregorian year has 146097/400 days, which places [y] within one year
    of the quotient below ([YearFromDay_spec]). *)
Definition YearFromDay (d : Z) : Z :=
  (let y := 1970 + (d * 400) / 146097 in
   if d <? DayFromYear y then y - 1
   else if DayFromYear (y + 1) <=? d then y + 1
   else y)%Z.

Definition YearFromTime (t : Z) : Z := YearFromDay (Day t).

Definition DayWithinYear (t : Z) : Z :=
  (Day t - DayFromYear (YearFromTime t))%Z.

Definition leapDay (t : Z) : Z :=
  if InLeapYear (YearFromTime t) then 1%Z else 0%Z.

(** [MonthFromTime], 0 for January. *)
Definition MonthFromTime (t : Z) : Z :=
  (let d := DayWithinYear t in
   let L := leapDay t in
   if d <? 31 then 0
   else if d <? 59 + L then 1
   else if d <? 90 + L then 2
   else if d <? 120 + L then 3
   else if d <? 151 + L then 4
   else if d <? 181 + L then 5
   else if d <? 212 + L then 6
   else if d <? 243 + L then 7
   else if d <? 273 + L then 8
   else if d <? 304 + L then 9
   else if d <? 334 + L then 10
   else 11)%Z.

Definition DateFromTime (t : Z) : Z :=
  (let d := DayWithinYear t in
   let L := leapDay t in
   match MonthFromTime t with
   | 0 => d + 1
   | 1 => d - 30
   | 2 => d - 58 - L
   | 3 => d - 89 - L
   | 4 => d - 119 - L
   | 5 => d - 150 - L
   | 6 => d - 180 - L
   | 7 => d - 211 - L
   | 8 => d - 242 - L
   | 9 => d - 272 - L
   | 10 => d - 303 - L
   | _ => d - 333 - L
   end)%Z.

(** Day number of the first day of month [mn] (0..11) of year [ym]. *)
Definition firstDayOfMonth (ym mn : Z) : Z :=
  (let L := if InLeapYear ym then 1 else 0 in
   DayFromYear ym +
   match mn with
   | 0 => 0
   | 1 => 31
   | 2 => 59 + L
   | 3 => 90 + L
   | 4 => 120 + L
   | 5 => 151 + L
   | 6 => 181 + L
   | 7 => 212 + L
   | 8 => 243 + L
   | 9 => 273 + L
   | 10 => 304 + L
   | _ => 334 + L
   end)%Z.

(** [MakeDay(year, month, date)] on integers. *)
Definition MakeDay (year month date : Z) : Z :=
  (let ym := year + month / 12 in
   let mn := month mod 12 in
   firstDayOfMonth ym mn + date - 1)%Z.

(** [MakeFullYear]: a year 0..99 means 1900 + year. *)
Definition MakeFullYear (year : Z) : Z :=
  (if (0 <=? year) && (year <=? 99) then 1900 + year else year)%Z.

Definition TimeClip (t : Z) : option Z :=
  (if Z.abs t <=? 8640000000000000 then Some t else None)%Z.

(** [Date.UTC(year, month, date)], the remaining arguments defaulting to
    midnight. *)
Definition Date_UTC (year month date : Z) : option Z :=
  TimeClip (MakeDay (MakeFullYear year) month date * msPerDay)%Z.

(** [new Date(tv)] keeps the time value; the getters are NaN on NaN. *)
Definition getTime (d : option Z) : option Z := d.
Definition isNaN (n : option Z) : bool :=
  match n with None => true | Some _ => false end.
Definition getUTCFullYear (d : option Z) : option Z := option_map YearFromTime d.
Definition getUTCMonth (d : option Z) : option Z := option_map MonthFromTime d.
Definition getUTCDate (d : option Z) : option Z := option_map DateFromTime d.

(** [x !== n] between a getter's result and a number; NaN differs from
    every number. *)
Definition differs (x : option Z) (n : Z) : bool :=
  match x with
  | None => true
  | Some v => negb (v =? n)%Z
  end.

(** ** Thrown values and fallible computations

    What a [throw] or a rejected promise carries: an [Error] object with
    its [name] and [message], the driver's duplicate-key error (an [Error]
    with [code] 11000 and a [keyValue]), Mongoose's [ValidationError] with
    the paths that failed, or a value that is not an [Error] at all. *)

Inductive Thrown : Type :=
| JsError (name message : string)
| DuplicateKey (field value : string)
| ValidationError (paths : list string)
| NonError (repr : string).

(** [new Error(message)] *)
Definition newError (message : string) : Thrown := JsError "Error" message.

(** [e instanceof Error] *)
Definition instanceofError (e : Thrown) : bool :=
  match e with NonError _ => false | _ => true end.

(** [e.message] *)
Definition messageOf (e : Thrown) : string :=
  match e with
  | JsError _ m => m
  | DuplicateKey f _ => "E11000 duplicate key error: " ++ f
  | ValidationError _ => "Event validation failed"
  | NonError _ => ""
  end.

(** [e.name] *)
Definition nameOf (e : Thrown) : string :=
  match e with
  | JsError n _ => n
  | DuplicateKey _ _ => "MongoServerError"
  | ValidationError _ => "ValidationError"
  | NonError _ => ""
  end.

(** ** Plain objects

    The own properties of an object whose values are strings, arrays of
    strings or [File]s, in insertion order and with distinct keys. *)

Inductive Value : Type :=
| VString (s : string)
| VList (l : list string)
| VFile (name : string).

Definition Obj : Type := list (string * Value).

(** [o[k]], [None] for [undefined]. *)
Fixpoint get (o : Obj) (k : string) : option Value :=
  match o with
  | [] => None
  | (k', v) :: rest => if (k' =? k)%string then Some v else get rest k
  end.

(** [o[k] = v] *)
Fixpoint set (o : Obj) (k : string) (v : Value) : Obj :=
  match o with
  | [] => [(k, v)]
  | (k', v') :: rest =>
      if (k' =? k)%string then (k, v) :: rest else (k', v') :: set rest k v
  end.

(** [Object.fromEntries(entries)] *)
Definition fromEntries (entries : list (string * Value)) : Obj :=
  fold_left (fun o kv => set o (fst kv) (snd kv)) entries [].

Definition Result (A : Type) : Type := (Thrown + A)%type.

Definition ret {A : Type} (a : A) : Result A := inr a.
Definition throw {A : Type} (e : Thrown) : Result A := inl e.
Definition bind {A B : Type} (m : Result A) (k : A -> Result B) : Result B :=
  match m with
  | inl e => inl e
  | inr a => k a
  end.

End Js.

Notation "x <- m ;; k" := (Js.bind m (fun x => k))
  (at level 61, m at next level, right associativity).


(* ================================================================== *)
(** * database/event.model.ts *)
(* ================================================================== *)

Module EventModel.
Import Js.

(** The paths of [IEvent]; a missing string is [undefined].  The
    timestamps, which Mongoose maintains, are left out. *)
Record EventDoc : Type := mkEventDoc {
  title : option string;
  slug : option string;
  description : option string;
  overview : option string;
  image : option string;
  venue : option string;
  location : option string;
  date : option string;
  time : option string;
  mode : option string;
  audience : option string;
  agenda : list string;
  organizer : option string;
  tags : list string
}.

Definition setSlug (v : string) (d : EventDoc) : EventDoc :=
  mkEventDoc (title d) (Some v) (description d) (overview d) (image d)
    (venue d) (location d) (date d) (time d) (mode d) (audience d)
    (agenda d) (organizer d) (tags d).

Definition setDate (v : string) (d : EventDoc) : EventDoc :=
  mkEventDoc (title d) (slug d) (description d) (overview d) (image d)
    (venue d) (location d) (Some v) (time d) (mode d) (audience d)
    (agenda d) (organizer d) (tags d).

Definition setTime (v : string) (d : EventDoc) : EventDoc :=
  mkEventDoc (title d) (slug d) (description d) (overview d) (image d)
    (venue d) (location d) (date d) (Some v) (mode d) (audience d)
    (agenda d) (organizer d) (tags d).

(** The collection: the persisted documents, in insertion order. *)
Definition Store : Type := list EventDoc.

(** The schema's setters on the [slug] path: [lowercase: true],
    [trim: true]. *)
Definition slugSetter (v : string) : string := trim (toLowerCase v).

(** ** Slug assignment *)

(** [[^\w\s-]] is removed: what stays is [\w], [\s] or a hyphen. *)
Definition slugKeeps (c : ascii) : bool := isWord c || isSpace c || isHyphen c.

Definition slugify (str : string) : string :=
  dropTrailingHyphen
    (dropLeadingHyphen
       (collapseRuns isHyphen "-" false
          (collapseRuns isSpace "-" false
             (keepOnly slugKeeps
                (trim (toLowerCase str)))))).

(** [EventModel.exists({ slug: candidate })] *)
Definition slugExists (store : Store) (candidate : string) : bool :=
  existsb (fun e => match slug e with
                    | Some s => (s =? candidate)%string
                    | None => false
                    end) store.

(** The [while (true)] loop: [fuel] bounds the number of existence
    checks, [None] is a loop that has not left within them. *)
Fixpoint uniqueLoop (fuel : nat) (exists_ : string -> bool)
    (base candidate : string) (counter : nat) : option string :=
  match fuel with
  | O => None
  | S fuel' =>
      if exists_ candidate then
        let counter := counter + 1 in
        uniqueLoop fuel' exists_ base (base ++ "-" ++ decimal counter) counter
      else Some candidate
  end.

(** One check more than there are documents always leaves the loop
    ([uniqueLoop_total] below), so the slug step is a total function of
    the store and the title. *)
Definition resolveSlug (store : Store) (docTitle : string) : string :=
  let base := slugify docTitle in
  let candidate := orElse base "event" in
  match uniqueLoop (S (List.length store)) (slugExists store) base candidate 0 with
  | Some c => c
  | None => candidate
  end.

(** ** Date normalisation *)

(** [/^(\d{4})-(0[1-9]|1[0-2])-(0[1-9]|[12]\d|3[01])$/] *)
Definition dateRegex : regex :=
  Cat (Cat Digit (Cat Digit (Cat Digit Digit)))
 (Cat (Chr "-")
 (Cat (Alt (Cat (Chr "0") (Range "1" "9")) (Cat (Chr "1") (Range "0" "2")))
 (Cat (Chr "-")
      (Alt (Cat (Chr "0") (Range "1" "9"))
      (Alt (Cat (Range "1" "2") Digit)
           (Cat (Chr "3") (Range "0" "1"))))))).

(** [s.match(dateRegex)]: the whole match and the three groups, which
    have the fixed widths 4, 2 and 2. *)
Definition dateMatch (s : string) : option (string * string * string * string) :=
  if test dateRegex s
  then Some (s, substring 0 4 s, substring 5 2 s, substring 8 2 s)
  else None.

Definition invalidDate : Thrown :=
  newError "Invalid date format - expected YYYY-MM-DD".

Definition normalizeDate (docDate : option string) : Result string :=
  match docDate with
  | None => throw invalidDate
  | Some s =>
      match dateMatch s with
      | None => throw invalidDate
      | Some (m0, m1, m2, m3) =>
          let year := parseInt10 m1 in
          let month := parseInt10 m2 in
          let day := parseInt10 m3 in
          let parsedDate := Date_UTC year (month - 1) day in
          if isNaN (getTime parsedDate)
             || differs (getUTCFullYear parsedDate) year
             || differs (getUTCMonth parsedDate) (month - 1)
             || differs (getUTCDate parsedDate) day
          then throw invalidDate
          else ret m0
      end
  end.

(** ** Time normalisation

    The time step of the [pre('save')] hook of the earlier revision
    (lines 189-197 of its file) is the same code, with [return next(err)]
    where this one throws. *)

(** [/^([0-1]?[0-9]|2[0-3]):[0-5][0-9]$/] *)
Definition timeRegex : regex :=
  Cat (Alt (Cat (Opt (Range "0" "1")) (Range "0" "9"))
           (Cat (Chr "2") (Range "0" "3")))
 (Cat (Chr ":")
 (Cat (Range "0" "5") (Range "0" "9"))).

Definition invalidTime : Thrown := newError "Time must be in HH:MM format".

(** [timeRegex.test(undefined)] tests the string ["undefined"]. *)
Definition timeString (docTime : option string) : string :=
  match docTime with Some s => s | None => "undefined" end.

Definition normalizeTime (docTime : option string) : Result string :=
  let s := timeString docTime in
  if negb (test timeRegex s) then throw invalidTime
  else
    match split ":" s with
    | hours :: minutes :: _ => ret (padStart2 hours ++ ":" ++ minutes)
    | [hours] => ret (padStart2 hours ++ ":" ++ "undefined")
    | [] => throw (JsError "TypeError" "hours is undefined")
    end.

(** ** The [pre('validate')] hook

    [isModified] answers [doc.isModified(path)]. *)
Definition absent (v : option string) : bool :=
  match v with Some s => negb (truthy s) | None => true end.

Definition titleOrEmpty (d : EventDoc) : string :=
  match title d with Some t => orElse t "" | None => "" end.

Definition preValidate (store : Store) (isModified : string -> bool)
    (doc : EventDoc) : Result EventDoc :=
  let doc :=
    if isModified "title" || absent (slug doc)
    then setSlug (slugSetter (resolveSlug store (titleOrEmpty doc))) doc
    else doc in
  doc <- (if isModified "date"
          then d <- normalizeDate (date doc) ;; ret (setDate d doc)
          else ret doc) ;;
  if isModified "time"
  then t <- normalizeTime (time doc) ;; ret (setTime t doc)
  else ret doc.

(** The [pre('save')] hook of the earlier revision of the model (lines
    143-200 of its file): the slug is the slugified title, without
    fallback and without the uniqueness loop; the date and time steps are
    the same, [return next(err)] standing where the current hook throws. *)
Definition undefinedTitle : Thrown :=
  JsError "TypeError" "Cannot read properties of undefined (reading 'toLowerCase')".

Definition undefinedDate : Thrown :=
  JsError "TypeError" "Cannot read properties of undefined (reading 'match')".

Definition preSave_prev (isModified : string -> bool) (doc : EventDoc)
  : Result EventDoc :=
  doc <- (if isModified "title"
          then match title doc with
               | Some t => ret (setSlug (slugSetter (slugify t)) doc)
               | None => throw undefinedTitle
               end
          else ret doc) ;;
  doc <- (if isModified "date"
          then match date doc with
               | Some _ => d <- normalizeDate (date doc) ;; ret (setDate d doc)
               | None => throw undefinedDate
               end
          else ret doc) ;;
  if isModified "time"
  then t <- normalizeTime (time doc) ;; ret (setTime t doc)
  else ret doc.

(** ** [Event.create]

    [new Event(obj)] casts the properties of [obj] to the schema's paths
    and runs their setters; [save] runs the [pre('validate')] hook, the
    schema's validators, and inserts under the unique index on [slug]. *)

(** A [String] path; the second component names the path when the value
    cannot be cast. *)
Definition castString (setter : string -> string) (o : Obj) (k : string)
  : option string * list string :=
  match get o k with
  | None => (None, [])
  | Some (VString s) => (Some (setter s), [])
  | Some _ => (None, [k])
  end.

(** A [[String]] path, whose default is the empty array. *)
Definition castArray (o : Obj) (k : string) : list string * list string :=
  match get o k with
  | None => ([], [])
  | Some (VList l) => (l, [])
  | Some (VString s) => ([s], [])
  | Some (VFile _) => ([], [k])
  end.

Definition asIs (s : string) : string := s.

(** [new Event(obj)]: the document and the paths that did not cast.  The
    object is read at the fourteen paths the schema declares.  The
    identity [_id], which Mongoose generates for an object that names
    none, and the timestamps are no fields of [EventDoc]; so the model
    speaks for the objects whose keys are among the declared paths. *)
Definition construct (o : Obj) : EventDoc * list string :=
  let '(title', e1) := castString trim o "title" in
  let '(slug', e2) := castString slugSetter o "slug" in
  let '(description', e3) := castString trim o "description" in
  let '(overview', e4) := castString trim o "overview" in
  let '(image', e5) := castString trim o "image" in
  let '(venue', e6) := castString trim o "venue" in
  let '(location', e7) := castString trim o "location" in
  let '(date', e8) := castString asIs o "date" in
  let '(time', e9) := castString asIs o "time" in
  let '(mode', e10) := castString trim o "mode" in
  let '(audience', e11) := castString trim o "audience" in
  let '(agenda', e12) := castArray o "agenda" in
  let '(organizer', e13) := castString trim o "organizer" in
  let '(tags', e14) := castArray o "tags" in
  (mkEventDoc title' slug' description' overview' image' venue' location'
     date' time' mode' audience' agenda' organizer' tags',
   (e1 ++ e2 ++ e3 ++ e4 ++ e5 ++ e6 ++ e7 ++ e8 ++ e9 ++ e10 ++ e11 ++ e12
       ++ e13 ++ e14)%list).

(** On a new document the modified paths are those the constructor has
    set. *)
Definition isModifiedNew (o : Obj) (path : string) : bool :=
  match get o path with
  | Some (VString _) => true
  | Some (VList _) => (path =? "agenda")%string || (path =? "tags")%string
  | _ => false
  end.

(** [required: [true, ...]] on a string. *)
Definition requiredString (k : string) (v : option string) : list string :=
  if absent v then [k] else [].

(** [validator: (arr) => arr.length > 0] *)
Definition nonEmptyArray (k : string) (arr : list string) : list string :=
  match arr with [] => [k] | _ => [] end.

Definition failingPaths (d : EventDoc) : list string :=
  (requiredString "title" (title d)
  ++ requiredString "description" (description d)
  ++ requiredString "overview" (overview d)
  ++ requiredString "image" (image d)
  ++ requiredString "venue" (venue d)
  ++ requiredString "location" (location d)
  ++ requiredString "date" (date d)
  ++ requiredString "time" (time d)
  ++ requiredString "mode" (mode d)
  ++ requiredString "audience" (audience d)
  ++ nonEmptyArray "agenda" (agenda d)
  ++ requiredString "organizer" (organizer d)
  ++ nonEmptyArray "tags" (tags d))%list.

Definition validate (castErrors : list string) (d : EventDoc) : Result EventDoc :=
  match (castErrors ++ failingPaths d)%list with
  | [] => ret d
  | paths => throw (ValidationError paths)
  end.

(** The insert under [unique: true] on [slug].  The index on [_id] is
    left out with the path: the identities Mongoose generates do not
    collide. *)
Definition insertOne (store : Store) (d : EventDoc) : Result Store :=
  match slug d with
  | Some s =>
      if slugExists store s then throw (DuplicateKey "slug" s)
      else ret (store ++ [d])%list
  | None =>
      if existsb (fun e => match slug e with None => true | _ => false end) store
      then throw (DuplicateKey "slug" "null")
      else ret (store ++ [d])%list
  end.

(** [Event.create(obj)]: the created document and the collection after
    it. *)
Definition create (store : Store) (o : Obj) : Result (EventDoc * Store) :=
  let '(doc, castErrors) := construct o in
  doc <- preValidate store (isModifiedNew o) doc ;;
  doc <- validate castErrors doc ;;
  store' <- insertOne store doc ;;
  ret (doc, store').

(** [Event.deleteOne({ slug })]: the first match leaves the collection. *)
Fixpoint deleteOne (s : string) (store : Store) : Store :=
  match store with
  | [] => []
  | e :: rest =>
      if match slug e with Some s' => (s' =? s)%string | None => false end
      then rest
      else e :: deleteOne s rest
  end.

End EventModel.

(* ================================================================== *)
(** * database/booking.model.ts *)
(* ================================================================== *)

Module BookingModel.
Import Js.

Definition ObjectId : Type := nat.

Record BookingDoc : Type := mkBookingDoc {
  eventId : ObjectId;
  email : string
}.

Definition eventMissing : Thrown := newError "Referenced event does not exist".
Definition lookupFailed : Thrown := newError "Failed to validate event reference".

(** The [pre('save')] hook.  [eventExists id] is the outcome of resolving
    the Event model and awaiting [Event.exists({ _id: id })]: it throws
    when the model cannot be loaded or the query fails.  The hook answers
    with [next(err)] ([inl err]) or [next()] ([inr] the document as the
    hook leaves it); the second component lists the existence checks it
    has issued. *)
Definition preSave (isModified : string -> bool)
    (eventExists : ObjectId -> Result bool) (doc : BookingDoc)
  : Result BookingDoc * list ObjectId :=
  if isModified "eventId" then
    match eventExists (eventId doc) with
    | inr found =>
        if negb found then (throw eventMissing, [eventId doc])
        else (ret doc, [eventId doc])
    | inl error =>
        if instanceofError error then (throw error, [eventId doc])
        else (throw lookupFailed, [eventId doc])
    end
  else (ret doc, []).

End BookingModel.

(* ================================================================== *)
(** * lib/mongodb.ts *)
(* ================================================================== *)

Module Mongodb.
Import Js.

Record ConnectOptions : Type := mkOptions {
  bufferCommands : bool;
  serverSelectionTimeoutMS : option nat
}.

(** The value the connection promise resolves to. *)
Inductive Handle : Type :=
| Connected (uri : string) (opts : ConnectOptions).

(** A promise is represented by what awaiting it gives. *)
Definition Promise : Type := Result Handle.

(** [cached], together with the log of the [mongoose.connect] calls made
    so far. *)
Record State : Type := mkState {
  conn : option Handle;
  promise : option Promise;
  dials : list (string * ConnectOptions)
}.

(** The network: what a call of [mongoose.connect(uri, opts)] settles
    to. *)
Definition Network : Type := string -> ConnectOptions -> Promise.

Definition uriMissing : Thrown :=
  newError "Please define the MONGODB_URI environment variable inside .env.local".

(** [!MONGODB_URI] *)
Definition unset (uri : option string) : bool :=
  match uri with Some u => negb (truthy u) | None => true end.

Definition uriString (uri : option string) : string :=
  match uri with Some u => u | None => "" end.

(** [/querySrv|ECONNREFUSED|ENOTFOUND/i.test(message)] *)
Definition networkPattern (message : string) : bool :=
  containsNoCase "querySrv" message
  || containsNoCase "ECONNREFUSED" message
  || containsNoCase "ENOTFOUND" message.

(** The dash of the first message is outside Latin-1 and is held as the
    bytes of its UTF-8 encoding. *)
Definition srvGuidance : string :=
  "The URI uses mongodb+srv:// — DNS SRV lookup failed. Try a non-SRV connection string or fix DNS/network.".

Definition networkGuidance : string :=
  "Network error while connecting to MongoDB. Check that the host is reachable and credentials are correct.".

Definition wrap (uri : option string) (error : Thrown) : Thrown :=
  let isSrv := startsWith (uriString uri) "mongodb+srv://" in
  let extra := if isSrv then srvGuidance else networkGuidance in
  newError ("MongoDB connection error: " ++ messageOf error ++ ". " ++ extra
            ++ " See MONGODB_URI and network settings.").

(** The promise awaited by a call: the cached one, or a new
    [mongoose.connect] that is logged and cached. *)
Definition ensurePromise (opts : ConnectOptions) (net : Network)
    (uri : string) (st : State) : Promise * State :=
  match promise st with
  | Some p => (p, st)
  | None =>
      let p := net uri opts in
      (p, mkState (conn st) (Some p) (dials st ++ [(uri, opts)])%list)
  end.

(** The options of the current revision. *)
Definition currentOptions : ConnectOptions := mkOptions false (Some 5000).

(** [dbConnect], lines 97-167: the current revision. *)
Definition dbConnect (MONGODB_URI : option string) (net : Network)
    (st : State) : Result Handle * State :=
  if unset MONGODB_URI then (throw uriMissing, st)
  else
    match conn st with
    | Some h => (ret h, st)
    | None =>
        let opts := currentOptions in
        let '(p, st) := ensurePromise opts net (uriString MONGODB_URI) st in
        match p with
        | inr h => (ret h, mkState (Some h) (promise st) (dials st))
        | inl error =>
            let st := mkState (conn st) None (dials st) in
            if instanceofError error && networkPattern (messageOf error)
            then (throw (wrap MONGODB_URI error), st)
            else (throw error, st)
        end
    end.

(** [dbConnect], lines 31-64: the previous revision, without the timeout
    and without the rewrapping. *)
Definition dbConnect_prev (MONGODB_URI : option string) (net : Network)
    (st : State) : Result Handle * State :=
  if unset MONGODB_URI then (throw uriMissing, st)
  else
    match conn st with
    | Some h => (ret h, st)
    | None =>
        let opts := mkOptions false None in
        let '(p, st) := ensurePromise opts net (uriString MONGODB_URI) st in
        match p with
        | inr h => (ret h, mkState (Some h) (promise st) (dials st))
        | inl error => (throw error, mkState (conn st) None (dials st))
        end
    end.

End Mongodb.

(* ================================================================== *)
(** * app/api/events/route.ts *)
(* ================================================================== *)

Module Route.
Import Js EventModel.

(** [process.env] *)
Record Env : Type := mkEnv {
  NODE_ENV : option string;
  CLEANUP_TEST_EVENTS : option string;
  MONGODB_URI : option string
}.

(** [req.formData()] gives the entries of the form, whose values are
    strings or files, or throws. *)
Record Request : Type := mkRequest {
  formData : Result (list (string * Value))
}.

Record Response : Type := mkResponse {
  status : nat;
  message : string;
  error : option string;
  event : option EventDoc
}.

(** The connection cache and the events collection. *)
Record World : Type := mkWorld {
  db : Mongodb.State;
  events : Store
}.

(** [val ? val.split(',').map((s) => s.trim()).filter(Boolean) : []]
    with [val = value.trim()] *)
Definition coerceList (value : string) : list string :=
  let val := trim value in
  if truthy val
  then filter truthy (map trim (split "," val))
  else [].

(** The body of the [forEach] over [['agenda', 'tags']]; the earlier
    revision of the handler has the same body. *)
Definition coerceKey (event : Obj) (key : string) : Obj :=
  match get event key with
  | Some (VString value) => set event key (VList (coerceList value))
  | _ => event
  end.

Definition coerceArrays (event : Obj) : Obj :=
  fold_left coerceKey ["agenda"; "tags"] event.

(** [process.env.NODE_ENV === 'test' ||
     process.env.CLEANUP_TEST_EVENTS === 'true'] *)
Definition envIs (v : option string) (s : string) : bool :=
  match v with Some x => (x =? s)%string | None => false end.

Definition cleanupEnabled (env : Env) : bool :=
  envIs (NODE_ENV env) "test" || envIs (CLEANUP_TEST_EVENTS env) "true".

(** The collection as [Event.create] finds it. *)
Definition beforeCreate (env : Env) (store : Store) : Store :=
  if cleanupEnabled env then deleteOne "cloud-next-2026" store else store.

(** The outer [catch]. *)
Definition creationFailed (e : Thrown) : Response :=
  mkResponse 500 "Event Creation Failed"
    (Some (if instanceofError e then messageOf e else "Unknown")) None.

(** The inner [catch]. *)
Definition createError (err : Thrown) : Response :=
  match err with
  | DuplicateKey field _ =>
      mkResponse 409 "Duplicate value error"
        (Some ("A document with the same " ++ field ++ " already exists."))
        None
  | _ =>
      if instanceofError err && (nameOf err =? "ValidationError")%string
      then mkResponse 400 "Validation failed" (Some (messageOf err)) None
      else creationFailed err
  end.

Definition POST (env : Env) (net : Mongodb.Network) (req : Request)
    (w : World) : Response * World :=
  let '(connected, db') := Mongodb.dbConnect (MONGODB_URI env) net (db w) in
  match connected with
  | inl e => (creationFailed e, mkWorld db' (events w))
  | inr _ =>
      match formData req with
      | inl e => (creationFailed e, mkWorld db' (events w))
      | inr entries =>
          let event := coerceArrays (fromEntries entries) in
          let store := beforeCreate env (events w) in
          match create store event with
          | inr (createdEvent, store') =>
              (mkResponse 201 "Event Created Successfully" None
                 (Some createdEvent),
               mkWorld db' store')
          | inl err => (createError err, mkWorld db' store)
          end
      end
  end.

End Route.

(* ================================================================== *)
(** * The vocabulary of the statements *)
(* ================================================================== *)

(** What the properties below are stated with, and is no part of the
    sources: the slugs, dates and times as the specification names them,
    sequences of creations, and the checks a few proofs run case by
    case. *)
Module Spec.
Import Js EventModel.

(** ** Strings *)

(** Every character of [s] is in the class [P]. *)
Fixpoint allChars (P : ascii -> bool) (s : string) : bool :=
  match s with
  | EmptyString => true
  | String c r => P c && allChars P r
  end.

(** [trimEnd] one character at a time: what [c] in front of an already
    trimmed [x] trims to. *)
Definition endStep (c : ascii) (x : string) : string :=
  match x with
  | EmptyString => if isSpace c then EmptyString else String c EmptyString
  | _ => String c x
  end.

(** A character [toLowerCase] leaves alone. *)
Definition lowered (c : ascii) : bool := (lowerChar c =? c)%char.

(** A character the setters of [slug] leave alone. *)
Definition stable (c : ascii) : bool :=
  (lowerChar c =? c)%char && negb (isSpace c).

(** ** Slugs *)

(** The candidate the loop holds when its counter is [k]. *)
Definition candidateAt (base : string) (k : nat) : string :=
  match k with
  | O => orElse base "event"
  | S _ => base ++ "-" ++ decimal k
  end.

(** The slug the specification gives the [n]-th document, counted from
    0, among those of one base: the bare base, then [base-1], [base-2]. *)
Definition numbered (base : string) (n : nat) : string :=
  match n with
  | O => base
  | S _ => base ++ "-" ++ decimal n
  end.

(** The base slug of the title an object carries. *)
Definition baseOf (o : Obj) : string :=
  slugify (titleOrEmpty (fst (construct o))).

Definition isRet {A : Type} (r : Result A) : bool :=
  match r with inr _ => true | inl _ => false end.

Definition isNil {A : Type} (l : list A) : bool :=
  match l with [] => true | _ => false end.

(** An object the schema accepts: every path casts, the required paths
    are there, and the date and the time pass their normalisation. *)
Definition wellFormed (o : Obj) : bool :=
  let '(doc, castErrors) := construct o in
  isNil castErrors
  && isNil (failingPaths doc)
  && isRet (normalizeDate (date doc))
  && isRet (normalizeTime (time doc)).

(** A sequence of creations, one after the other: the outcome of each,
    and the collection at the end. *)
Fixpoint createAll (store : Store) (objs : list Obj)
  : list (Result EventDoc) * Store :=
  match objs with
  | [] => ([], store)
  | o :: rest =>
      match create store o with
      | inr (d, store') =>
          let '(rs, final) := createAll store' rest in (inr d :: rs, final)
      | inl e =>
          let '(rs, final) := createAll store rest in (inl e :: rs, final)
      end
  end.

(** The slug of the document a creation has persisted. *)
Definition assignedSlug (r : Result EventDoc) : option string :=
  match r with inr d => slug d | inl _ => None end.

(** The invariant of the unique index: no two documents share a slug. *)
Definition uniqueSlugs (store : Store) : Prop := NoDup (map slug store).


(** ** Dates *)

(** The day of the year on which month [m], counted from 1, starts. *)
Definition monthOffset (leap : bool) (m : Z) : Z :=
  (let L := if leap then 1 else 0 in
   match m with
   | 1 => 0 | 2 => 31 | 3 => 59 + L | 4 => 90 + L | 5 => 120 + L
   | 6 => 151 + L | 7 => 181 + L | 8 => 212 + L | 9 => 243 + L
   | 10 => 273 + L | 11 => 304 + L | _ => 334 + L
   end)%Z.

(** The calendar of the specification: the days of month [m] (1..12) of
    year [y] in the Gregorian calendar. *)
Definition daysInMonth (y m : Z) : Z :=
  match m with
  | 2 => if InLeapYear y then 29 else 28
  | 4 | 6 | 9 | 11 => 30
  | _ => 31
  end%Z.

(** [y], [m] and [d] name a day of the calendar. *)
Definition realDate (y m d : nat) : bool :=
  (1 <=? m) && (m <=? 12) && (1 <=? d)
  && (Z.of_nat d <=? daysInMonth (Z.of_nat y) (Z.of_nat m))%Z.

Definition digitChar (n : nat) : ascii := ascii_of_nat (48 + n).

(** A year below 10000 written with four digits. *)
Definition fourDigits (y : nat) : string :=
  String (digitChar (y / 1000))
    (String (digitChar (y / 100 mod 10))
       (String (digitChar (y / 10 mod 10))
          (String (digitChar (y mod 10)) EmptyString))).

(** A number below 100 written with two digits, as the specification's
    [MM], [DD] and [HH]. *)
Definition twoDigits (n : nat) : string :=
  if n <? 10 then "0" ++ decimal n else decimal n.

(** What follows the year in [YYYY-MM-DD]. *)
Definition monthAndDay (m d : nat) : string :=
  "-" ++ twoDigits m ++ "-" ++ twoDigits d.

(** [YYYY-MM-DD] *)
Definition isoDate (y m d : nat) : string := fourDigits y ++ monthAndDay m d.

(** The pattern after the year, and what the date step reads there, as a
    check on one month and day. *)
Definition monthAndDayRegex : regex :=
  match dateRegex with Cat _ rest => rest | _ => Void end.

Definition monthAndDayReads (m d : nat) : bool :=
  test monthAndDayRegex (monthAndDay m d)
  && (substring 1 2 (monthAndDay m d) =? twoDigits m)%string
  && (substring 4 2 (monthAndDay m d) =? twoDigits d)%string
  && (parseInt10 (twoDigits m) =? Z.of_nat m)%Z
  && (parseInt10 (twoDigits d) =? Z.of_nat d)%Z.

(** The number a two-digit string of digits [a] and [b] writes, written
    back. *)
Definition twoDigitsRoundTrip (a b : nat) : bool :=
  (twoDigits (10 * a + b)
   =? String (digitChar a) (String (digitChar b) EmptyString))%string.

(** ** Times *)

(** The two spellings of [h] hours and [m] minutes, [H:MM] and [HH:MM]. *)
Definition shortTime (h m : nat) : string := decimal h ++ ":" ++ twoDigits m.
Definition paddedTime (h m : nat) : string := twoDigits h ++ ":" ++ twoDigits m.

(** The result of normalising [s] is [expected]. *)
Definition normalizesTo (s expected : string) : bool :=
  match normalizeTime (Some s) with
  | inr t => (t =? expected)%string
  | inl _ => false
  end.

(** Both spellings of a time of the day normalise to the padded one. *)
Definition timeNormalizes (h m : nat) : bool :=
  normalizesTo (shortTime h m) (paddedTime h m)
  && normalizesTo (paddedTime h m) (paddedTime h m).

(** ** The connection cache *)

(** The attempt a call awaits when no connection is cached: the cached
    promise, or else the one [mongoose.connect] returns. *)
Definition awaits (MONGODB_URI : option string) (net : Mongodb.Network)
    (opts : Mongodb.ConnectOptions) (st : Mongodb.State)
    (p : Mongodb.Promise) : Prop :=
  Mongodb.promise st = Some p
  \/ (Mongodb.promise st = None
      /\ net (Mongodb.uriString MONGODB_URI) opts = p).

(** ** The endpoint *)

(** The coercion as the specification words it: split on commas, trim
    each segment, drop the empty segments. *)
Definition splitTrimDrop (value : string) : list string :=
  filter truthy (map trim (split "," value)).

End Spec.

(* ================================================================== *)
(** * Concrete scenarios *)
(* ================================================================== *)

(** The inputs the examples below are run on. *)
Module Scenario.
Import Js.

Definition liveHandle : Mongodb.Handle :=
  Mongodb.Connected "mongodb://localhost/dev" Mongodb.currentOptions.

(** A cache that holds a connection. *)
Definition liveState : Mongodb.State :=
  Mongodb.mkState (Some liveHandle) (Some (inr liveHandle))
    [("mongodb://localhost/dev", Mongodb.currentOptions)].

(** A cache that holds nothing. *)
Definition idleState : Mongodb.State := Mongodb.mkState None None [].

Definition reachable : Mongodb.Network := fun _ _ => inr liveHandle.

Definition refusedError : Thrown :=
  JsError "MongooseServerSelectionError"
    "querySrv ECONNREFUSED _mongodb._tcp.cluster0.mongodb.net".

Definition refusing : Mongodb.Network := fun _ _ => inl refusedError.

Definition srvUri : option string :=
  Some "mongodb+srv://user@cluster0.mongodb.net/dev".

(** The object the endpoint hands to [Event.create] for a form with the
    given title, date and time, its lists already coerced. *)
Definition form (title date time : string) : Obj :=
  [ ("title", VString title);
    ("description", VString "Talks and workshops for developers");
    ("overview", VString "Two days, three tracks");
    ("image", VString "/images/event.png");
    ("venue", VString "Main Hall");
    ("location", VString "Lagos");
    ("date", VString date);
    ("time", VString time);
    ("mode", VString "offline");
    ("audience", VString "developers");
    ("agenda", VList ["Keynote"; "Workshops"]);
    ("organizer", VString "Dev Events");
    ("tags", VList ["cloud"; "web"]) ].

(** Three titles with the base slug [devconf]. *)
Definition devconfs : list Obj :=
  [ form "DevConf" "2026-05-01" "10:00";
    form "devconf!" "2026-06-01" "9:30";
    form " Devconf " "2026-07-01" "18:45" ].

(** Two titles with the base slug [devconf], and between them one whose
    own base slug is [devconf-1]. *)
Definition squatted : list Obj :=
  [ form "DevConf" "2026-05-01" "10:00";
    form "DevConf 1" "2026-06-01" "9:30";
    form "DevConf" "2026-07-01" "18:45" ].

(** A collection whose only document was created from a title of
    punctuation. *)
Definition punctuated : EventModel.Store :=
  match EventModel.create [] (form "!!!" "2026-05-01" "10:00") with
  | inr (_, store) => store
  | inl _ => []
  end.

(** The scenario of the specification, and the same with a two-digit
    minute. *)
Definition cloudNext_9_5 : Obj := form "Cloud Next 2026!" "2026-03-10" "9:5".
Definition cloudNext_9_05 : Obj := form "Cloud Next 2026!" "2026-03-10" "9:05".

(** The same at an hour that does not exist. *)
Definition cloudNext_24_00 : Obj := form "Cloud Next 2026!" "2026-03-10" "24:00".

(** A form as [Object.fromEntries] leaves it, its lists still strings. *)
Definition rawForm : Obj :=
  [ ("title", VString "Cloud Next 2026!");
    ("agenda", VString "a, b ,,c");
    ("tags", VString " cloud ,web, ") ].

(** The entries of the form of the scenario, as the request carries
    them. *)
Definition cloudNextEntries : list (string * Value) :=
  [ ("title", VString "Cloud Next 2026!");
    ("description", VString "Talks and workshops for developers");
    ("overview", VString "Two days, three tracks");
    ("image", VString "/images/event.png");
    ("venue", VString "Main Hall");
    ("location", VString "Lagos");
    ("date", VString "2026-03-10");
    ("time", VString "9:05");
    ("mode", VString "offline");
    ("audience", VString "developers");
    ("agenda", VString "Keynote, Workshops");
    ("organizer", VString "Dev Events");
    ("tags", VString "cloud,web") ].

Definition cloudNextRequest : Route.Request :=
  Route.mkRequest (inr cloudNextEntries).

(** A world in which the scenario's event was created before. *)
Definition cloudNextWorld : Route.World :=
  Route.mkWorld idleState
    match EventModel.create [] cloudNext_9_05 with
    | inr (_, store) => store
    | inl _ => []
    end.

Definition testEnv : Route.Env :=
  Route.mkEnv (Some "test") None (Some "mongodb://localhost/dev").

Definition productionEnv : Route.Env :=
  Route.mkEnv (Some "production") None (Some "mongodb://localhost/dev").

(** A booking whose event reference was just set. *)
Definition booking : BookingModel.BookingDoc :=
  BookingModel.mkBookingDoc 7 "dev@example.com".

Definition eventIdModified : string -> bool :=
  fun path => (path =? "eventId")%string.

Definition nothingModified : string -> bool := fun _ => false.

Definition noSuchEvent : BookingModel.ObjectId -> Result bool :=
  fun _ => ret false.

Definition storageDown : BookingModel.ObjectId -> Result bool :=
  fun _ => throw (JsError "MongooseError" "Connection was force closed").

End Scenario.

(* ================================================================== *)
(** * Patterns with repetition *)
(* ================================================================== *)

(** The patterns of [Js.regex] with classes given by their members and
    with [r*]; [Js.test] is [test] on them. *)
Module Rx.
Import Js.

Inductive rx : Type :=
| Never : rx                            (* matches nothing *)
| Empty : rx                            (* the empty string *)
| Class : (ascii -> bool) -> rx         (* one character of a class *)
| Seq : rx -> rx -> rx                  (* r1 r2 *)
| Or : rx -> rx -> rx                   (* r1|r2 *)
| Star : rx -> rx.                      (* r* *)

(** [r+] *)
Definition Plus (r : rx) : rx := Seq r (Star r).

Fixpoint nullable (r : rx) : bool :=
  match r with
  | Never => false
  | Empty => true
  | Class _ => false
  | Seq a b => nullable a && nullable b
  | Or a b => nullable a || nullable b
  | Star _ => true
  end.

Fixpoint deriv (c : ascii) (r : rx) : rx :=
  match r with
  | Never => Never
  | Empty => Never
  | Class p => if p c then Empty else Never
  | Seq a b =>
      if nullable a then Or (Seq (deriv c a) b) (deriv c b)
      else Seq (deriv c a) b
  | Or a b => Or (deriv c a) (deriv c b)
  | Star a => Seq (deriv c a) (Star a)
  end.

(** [/^r$/.test(s)] *)
Fixpoint test (r : rx) (s : string) : bool :=
  match s with
  | EmptyString => nullable r
  | String c t => test (deriv c r) t
  end.

(** The language of a pattern. *)
Inductive Lang : rx -> string -> Prop :=
| LEmpty : Lang Empty EmptyString
| LClass p c : p c = true -> Lang (Class p) (String c EmptyString)
| LSeq a b s1 s2 : Lang a s1 -> Lang b s2 -> Lang (Seq a b) (s1 ++ s2)
| LOrL a b s : Lang a s -> Lang (Or a b) s
| LOrR a b s : Lang b s -> Lang (Or a b) s
| LStarNil a : Lang (Star a) EmptyString
| LStarCons a s1 s2 :
    Lang a s1 -> Lang (Star a) s2 -> Lang (Star a) (s1 ++ s2).

(** A pattern whose classes cannot tell [f c] from [c]. *)
Fixpoint blindTo (f : ascii -> ascii) (r : rx) : Prop :=
  match r with
  | Class p => forall c, p (f c) = p c
  | Seq a b | Or a b => blindTo f a /\ blindTo f b
  | Star a => blindTo f a
  | Never | Empty => True
  end.

End Rx.

(* ================================================================== *)
(** * database/event.model.ts, the earlier revision *)
(* ================================================================== *)

Module EventModelPrev.
Import Js EventModel.

(** [Event.create(obj)] with the schema of the earlier revision, whose
    paths are those of the current one: its hook is a [pre('save')]
    hook, which runs once the validators have passed. *)
Definition create (store : Store) (o : Obj) : Result (EventDoc * Store) :=
  let '(doc, castErrors) := construct o in
  doc <- validate castErrors doc ;;
  doc <- preSave_prev (isModifiedNew o) doc ;;
  store' <- insertOne store doc ;;
  ret (doc, store').

End EventModelPrev.

(* ================================================================== *)
(** * database/booking.model.ts, the [email] path *)
(* ================================================================== *)

Module BookingSchema.
Import Js.

(** [[^\s@]] *)
Definition notSpaceOrAt (c : ascii) : bool :=
  negb (isSpace c || (c =? "@")%char).

Definition isAt (c : ascii) : bool := (c =? "@")%char.
Definition isDot (c : ascii) : bool := (c =? ".")%char.

(** [/^[^\s@]+@[^\s@]+\.[^\s@]+$/] *)
Definition emailRegex : Rx.rx :=
  Rx.Seq (Rx.Plus (Rx.Class notSpaceOrAt))
 (Rx.Seq (Rx.Class isAt)
 (Rx.Seq (Rx.Plus (Rx.Class notSpaceOrAt))
 (Rx.Seq (Rx.Class isDot)
         (Rx.Plus (Rx.Class notSpaceOrAt))))).

(** [validator: (email) => emailRegex.test(email)] *)
Definition emailValidator (email : string) : bool := Rx.test emailRegex email.

(** The setters of the path, [trim: true] and [lowercase: true]. *)
Definition emailSetter (v : string) : string := toLowerCase (trim v).

End BookingSchema.

(* ================================================================== *)
(** * Further vocabulary *)
(* ================================================================== *)

Module SpecMore.
Import Js EventModel Spec.

(** ** Runs of [dbConnect] *)

(** A run of calls, each on the network as it is at that time: the
    outcome of each call, and the cache at the end. *)
Fixpoint calls (MONGODB_URI : option string) (nets : list Mongodb.Network)
    (st : Mongodb.State) : list (Result Mongodb.Handle) * Mongodb.State :=
  match nets with
  | [] => ([], st)
  | net :: rest =>
      let '(r, st1) := Mongodb.dbConnect MONGODB_URI net st in
      let '(rs, st2) := calls MONGODB_URI rest st1 in
      (r :: rs, st2)
  end.

(** The cache between calls: empty, or a connection with the resolved
    promise it came from. *)
Definition settled (st : Mongodb.State) : Prop :=
  (Mongodb.conn st = None /\ Mongodb.promise st = None)
  \/ exists h, Mongodb.conn st = Some h /\ Mongodb.promise st = Some (inr h).

Definition connected (st : Mongodb.State) : nat :=
  match Mongodb.conn st with Some _ => 1 | None => 0 end.

Definition failures {A : Type} (rs : list (Result A)) : nat :=
  List.length (filter (fun r => negb (isRet r)) rs).

(** ** The shape of a slug *)

(** [[a-z0-9_-]] *)
Definition slugChar (c : ascii) : bool :=
  inRange "a" "z" c || isDigit c || (c =? "_")%char || isHyphen c.

Definition startsWithHyphen (s : string) : bool :=
  match s with String c _ => isHyphen c | EmptyString => false end.

Fixpoint endsWithHyphen (s : string) : bool :=
  match s with
  | EmptyString => false
  | String c EmptyString => isHyphen c
  | String _ r => endsWithHyphen r
  end.

Fixpoint noDoubleHyphen (s : string) : bool :=
  match s with
  | EmptyString => true
  | String c r =>
      negb (isHyphen c && startsWithHyphen r) && noDoubleHyphen r
  end.

(** Runs of [[a-z0-9_]] joined by single hyphens, or nothing. *)
Definition slugShaped (s : string) : bool :=
  allChars slugChar s && noDoubleHyphen s
  && negb (startsWithHyphen s) && negb (endsWithHyphen s).

(** ** Runs of requests *)

(** Requests served one after the other, each with the network as it is
    at that time. *)
Fixpoint serve (env : Route.Env)
    (reqs : list (Mongodb.Network * Route.Request)) (w : Route.World)
  : list Route.Response * Route.World :=
  match reqs with
  | [] => ([], w)
  | (net, req) :: rest =>
      let '(resp, w1) := Route.POST env net req w in
      let '(resps, w2) := serve env rest w1 in
      (resp :: resps, w2)
  end.

(** No document of the collection is without slug, or with an empty
    one. *)
Definition slugsPresent (store : Store) : Prop :=
  Forall (fun e => absent (slug e) = false) store.


(** ** What a hook leaves alone *)

(** [doc'] has the fields of [doc], but for the slug and the time. *)
Definition keepsOtherFields (doc doc' : EventDoc) : Prop :=
  title doc' = title doc /\ description doc' = description doc
  /\ overview doc' = overview doc /\ image doc' = image doc
  /\ venue doc' = venue doc /\ location doc' = location doc
  /\ date doc' = date doc /\ mode doc' = mode doc
  /\ audience doc' = audience doc /\ agenda doc' = agenda doc
  /\ organizer doc' = organizer doc /\ tags doc' = tags doc.


(** ** Coerced lists *)

(** [[^sep]] *)
Definition notChar (sep c : ascii) : bool := negb (c =? sep)%char.

Definition notComma (c : ascii) : bool := negb (c =? ",")%char.

Definition blankOrComma (c : ascii) : bool := isSpace c || (c =? ",")%char.

(** An item as the coercion leaves it: not empty, trimmed, without
    comma. *)
Definition cleanItem (x : string) : bool :=
  truthy x && (trim x =? x)%string && allChars notComma x.


(** ** Outcomes of a creation *)



(** ** E-mail addresses *)

(** A part of an address: not empty, without white space and without
    [@]. *)
Definition emailPart (s : string) : bool :=
  truthy s && allChars BookingSchema.notSpaceOrAt s.


(** ** The two revisions of [dbConnect] *)

(** A network that answers a dial by the URI alone. *)
Definition ignoresOptions (net : Mongodb.Network) : Prop :=
  forall uri o1 o2, net uri o1 = net uri o2.

(** What the current revision throws where the earlier one throws
    [e]. *)
Definition rewrapped (MONGODB_URI : option string) (e : Thrown) : Thrown :=
  if instanceofError e && Mongodb.networkPattern (messageOf e)
  then Mongodb.wrap MONGODB_URI e else e.


(** ** The objects the model speaks for *)



End SpecMore.

(* ================================================================== *)
(** * Properties *)
(* ================================================================== *)

(** Case analysis over the 256 characters. *)
Ltac each_char c := destruct c as [[] [] [] [] [] [] [] []].

(** ** The model on the examples of the specification *)

Example slugify_cloud_next : EventModel.slugify "Cloud Next 2026!" = "cloud-next-2026".
Proof. reflexivity. Qed.

Example slugify_punctuation : EventModel.slugify "?!...!?" = "".
Proof. reflexivity. Qed.

Example slugify_runs :
  EventModel.slugify "  --Hello,   World -- _x_ --" = "hello-world-_x_".
Proof. reflexivity. Qed.

Example time_single_digit_hour : EventModel.normalizeTime (Some "9:05") = inr "09:05".
Proof. reflexivity. Qed.

Example time_single_digit_minute :
  EventModel.normalizeTime (Some "9:5") = inl EventModel.invalidTime.
Proof. reflexivity. Qed.

Example date_february_30 :
  EventModel.normalizeDate (Some "2023-02-30") = inl EventModel.invalidDate.
Proof. reflexivity. Qed.

Example date_leap_day :
  EventModel.normalizeDate (Some "2024-02-29") = inr "2024-02-29".
Proof. reflexivity. Qed.

Example coerce_list : Route.coerceList "a, b ,,c" = ["a"; "b"; "c"].
Proof. reflexivity. Qed.

(** ** The connection cache *)

Section ConnectionCache.
Import Js Mongodb Spec.

Variable uri : option string.
Variable net : Network.

(** An unset URI leaves the cache and the dial log as they were. *)
Lemma dbConnect_unset (st : State) :
  unset uri = true -> dbConnect uri net st = (throw uriMissing, st).
Proof. intros H. unfold dbConnect. now rewrite H. Qed.

Lemma dbConnect_prev_unset (st : State) :
  unset uri = true -> dbConnect_prev uri net st = (throw uriMissing, st).
Proof. intros H. unfold dbConnect_prev. now rewrite H. Qed.

Lemma ensurePromise_awaits opts st p :
  awaits uri net opts st p ->
  exists st', ensurePromise opts net (uriString uri) st = (p, st')
              /\ conn st' = conn st
              /\ (dials st' = dials st \/
                  dials st' = (dials st ++ [(uriString uri, opts)])%list).
Proof.
  unfold awaits, ensurePromise.
  intros [H | [H E]]; rewrite H.
  - exists st. auto.
  - rewrite E. eexists. split; [reflexivity | cbn; auto].
Qed.

(** A call on a cache without connection and without promise dials. *)
Lemma dbConnect_dials_when_idle st :
  unset uri = false -> conn st = None -> promise st = None ->
  dials (snd (dbConnect uri net st))
  = (dials st ++ [(uriString uri, currentOptions)])%list.
Proof.
  intros U C P. unfold dbConnect, ensurePromise. rewrite U, C, P.
  destruct (net _ _) as [e | h]; cbn; [|reflexivity].
  now destruct (instanceofError e && networkPattern (messageOf e)).
Qed.

(** The previous revision hands the original error on, and resets the
    promise as well. *)
Lemma dbConnect_prev_failed st error :
  unset uri = false -> conn st = None ->
  awaits uri net (mkOptions false None) st (inl error) ->
  fst (dbConnect_prev uri net st) = throw error
  /\ promise (snd (dbConnect_prev uri net st)) = None.
Proof.
  intros U C A. destruct (ensurePromise_awaits _ _ _ A) as (st1 & E & _).
  unfold dbConnect_prev. rewrite U, C, E. cbn. auto.
Qed.

End ConnectionCache.

(** C7. When no connection URI is configured ([MONGODB_URI] undefined or
    empty), a call of [dbConnect], in the current and in the previous
    revision, throws the configuration error and leaves the cache and the
    log of [mongoose.connect] calls untouched, whatever the cache holds. *)
Theorem C7_unset_uri_fails_before_any_dial :
  forall (uri : option string) (net : Mongodb.Network) (st : Mongodb.State),
    Mongodb.unset uri = true ->
    Mongodb.dbConnect uri net st = (Js.throw Mongodb.uriMissing, st)
    /\ Mongodb.dbConnect_prev uri net st = (Js.throw Mongodb.uriMissing, st)
    /\ Mongodb.dials (snd (Mongodb.dbConnect uri net st)) = Mongodb.dials st.
Proof.
  intros uri net st H.
  rewrite (dbConnect_unset uri net st H), (dbConnect_prev_unset uri net st H).
  auto.
Qed.

(** On a cache that holds a connection, without URI. *)
Lemma C7_witness :
  Mongodb.dbConnect None Scenario.reachable Scenario.liveState
    = (Js.throw Mongodb.uriMissing, Scenario.liveState)
  /\ Mongodb.dbConnect_prev None Scenario.reachable Scenario.liveState
    = (Js.throw Mongodb.uriMissing, Scenario.liveState)
  /\ Mongodb.dials (snd (Mongodb.dbConnect None Scenario.reachable Scenario.liveState))
    = Mongodb.dials Scenario.liveState.
Proof.
  apply (C7_unset_uri_fails_before_any_dial None Scenario.reachable Scenario.liveState).
  reflexivity.
Defined.

(** C8. When the attempt a call awaits fails (the cached in-flight
    promise, or the one the call starts, rejects with [error]), the call
    leaves the cache without promise and without connection and throws:
    the error rewrapped with the SRV guidance or with the network
    guidance, according to the URI starting with [mongodb+srv://], when
    [error] is an [Error] whose message matches
    [/querySrv|ECONNREFUSED|ENOTFOUND/i], and [error] itself otherwise.
    The next call then dials again. *)
Theorem C8_failed_attempt_resets_and_reports :
  forall (uri : option string) (net : Mongodb.Network) (st : Mongodb.State)
         (error : Js.Thrown),
    Mongodb.unset uri = false ->
    Mongodb.conn st = None ->
    Spec.awaits uri net Mongodb.currentOptions st (inl error) ->
    let matches :=
      Js.instanceofError error && Mongodb.networkPattern (Js.messageOf error) in
    let isSrv := Js.startsWith (Mongodb.uriString uri) "mongodb+srv://" in
    let guidance :=
      if isSrv then Mongodb.srvGuidance else Mongodb.networkGuidance in
    let st' := snd (Mongodb.dbConnect uri net st) in
    Mongodb.promise st' = None
    /\ Mongodb.conn st' = None
    /\ fst (Mongodb.dbConnect uri net st)
       = Js.throw
           (if matches
            then Js.newError
                   ("MongoDB connection error: " ++ Js.messageOf error ++ ". "
                    ++ guidance ++ " See MONGODB_URI and network settings.")
            else error)
    /\ Mongodb.srvGuidance <> Mongodb.networkGuidance
    /\ Mongodb.dials (snd (Mongodb.dbConnect uri net st'))
       = (Mongodb.dials st'
          ++ [(Mongodb.uriString uri, Mongodb.currentOptions)])%list.
Proof.
  intros uri net st error U C A matches isSrv guidance st'.
  destruct (ensurePromise_awaits _ _ _ _ _ A) as (st1 & E & C1 & _).
  assert (R : Mongodb.dbConnect uri net st
              = (Js.throw (if matches
                           then Mongodb.wrap uri error else error),
                 Mongodb.mkState (Mongodb.conn st1) None (Mongodb.dials st1))).
  { unfold Mongodb.dbConnect. rewrite U, C, E. fold matches.
    now destruct matches. }
  subst st'. rewrite R. cbn [fst snd Mongodb.promise Mongodb.conn].
  repeat split.
  - congruence.
  - discriminate.
  - apply dbConnect_dials_when_idle; cbn; congruence.
Qed.

(** On an idle cache, an SRV URI and a refused SRV lookup. *)
Lemma C8_witness :
  Mongodb.promise
    (snd (Mongodb.dbConnect Scenario.srvUri Scenario.refusing Scenario.idleState))
  = None
  /\ fst (Mongodb.dbConnect Scenario.srvUri Scenario.refusing Scenario.idleState)
     = Js.throw
         (Js.newError
            ("MongoDB connection error: querySrv ECONNREFUSED _mongodb._tcp.cluster0.mongodb.net. "
             ++ Mongodb.srvGuidance ++ " See MONGODB_URI and network settings.")).
Proof.
  destruct (C8_failed_attempt_resets_and_reports
              Scenario.srvUri Scenario.refusing Scenario.idleState
              Scenario.refusedError eq_refl eq_refl
              (or_intror (conj eq_refl eq_refl)))
    as (P & _ & R & _).
  split; [exact P | exact R].
Defined.

(** ** The booking validator *)

(** C9. The [pre('save')] hook of a booking issues no existence check and
    accepts the candidate as it is when [eventId] is not modified; when it
    is, the hook checks the referenced identity once, rejects with
    "Referenced event does not exist" when no such event exists, rejects
    with the lookup's own error (or, for a thrown value that is no
    [Error], with "Failed to validate event reference", which is another
    error than the first) when the check fails, and otherwise accepts the
    candidate unchanged. *)
Theorem C9_booking_reference_check :
  forall (isModified : string -> bool)
         (eventExists : BookingModel.ObjectId -> Js.Result bool)
         (doc : BookingModel.BookingDoc),
    (isModified "eventId" = false ->
       BookingModel.preSave isModified eventExists doc = (Js.ret doc, []))
    /\ (isModified "eventId" = true ->
          snd (BookingModel.preSave isModified eventExists doc)
          = [BookingModel.eventId doc]
          /\ (eventExists (BookingModel.eventId doc) = inr false ->
                fst (BookingModel.preSave isModified eventExists doc)
                = Js.throw (Js.newError "Referenced event does not exist"))
          /\ (eventExists (BookingModel.eventId doc) = inr true ->
                fst (BookingModel.preSave isModified eventExists doc)
                = Js.ret doc)
          /\ (forall error : Js.Thrown,
                eventExists (BookingModel.eventId doc) = inl error ->
                fst (BookingModel.preSave isModified eventExists doc)
                = Js.throw
                    (if Js.instanceofError error then error
                     else Js.newError "Failed to validate event reference")))
    /\ BookingModel.lookupFailed <> BookingModel.eventMissing.
Proof.
  intros isModified eventExists doc. unfold BookingModel.preSave.
  split; [|split].
  - intros ->. reflexivity.
  - intros ->. repeat split.
    + destruct (eventExists _) as [e | []]; cbn;
        try destruct (Js.instanceofError e); reflexivity.
    + intros ->. reflexivity.
    + intros ->. reflexivity.
    + intros error ->. now destruct (Js.instanceofError error).
  - discriminate.
Qed.

(** On a booking: nothing modified; no such event; storage down. *)
Lemma C9_witness :
  BookingModel.preSave Scenario.nothingModified Scenario.storageDown
    Scenario.booking = (Js.ret Scenario.booking, [])
  /\ fst (BookingModel.preSave Scenario.eventIdModified Scenario.noSuchEvent
            Scenario.booking)
     = Js.throw (Js.newError "Referenced event does not exist")
  /\ fst (BookingModel.preSave Scenario.eventIdModified Scenario.storageDown
            Scenario.booking)
     = Js.throw (Js.JsError "MongooseError" "Connection was force closed").
Proof.
  split; [|split].
  - exact (proj1 (C9_booking_reference_check Scenario.nothingModified
                    Scenario.storageDown Scenario.booking) eq_refl).
  - exact (proj1 (proj2 (proj1 (proj2
             (C9_booking_reference_check Scenario.eventIdModified
                Scenario.noSuchEvent Scenario.booking)) eq_refl)) eq_refl).
  - exact (proj2 (proj2 (proj2 (proj1 (proj2
             (C9_booking_reference_check Scenario.eventIdModified
                Scenario.storageDown Scenario.booking)) eq_refl)))
             _ eq_refl).
Defined.

(** ** The events collection under [create] and [deleteOne] *)

Section Collection.
Import Js EventModel Spec.

Lemma insertOne_appends store d store' :
  insertOne store d = inr store' -> store' = (store ++ [d])%list.
Proof.
  unfold insertOne. destruct (slug d).
  - destruct (slugExists store s); [discriminate|]. now intros [= <-].
  - destruct (existsb _ store); [discriminate|]. now intros [= <-].
Qed.

(** A successful [create] appends the created document and changes
    nothing else. *)
Lemma create_appends store o d store' :
  create store o = inr (d, store') -> store' = (store ++ [d])%list.
Proof.
  unfold create. destruct (construct o) as [doc errs].
  destruct (preValidate store (isModifiedNew o) doc) as [e | d1]; [discriminate|].
  cbn. destruct (validate errs d1) as [e | d2]; [discriminate|].
  cbn. destruct (insertOne store d2) as [e | s2] eqn:I; [discriminate|].
  cbn. intros [= <- <-]. now apply insertOne_appends.
Qed.

Lemma slugExists_In store s :
  slugExists store s = true <-> In (Some s) (map slug store).
Proof.
  unfold slugExists. rewrite existsb_exists. split.
  - intros (e & I & E). destruct (slug e) as [s'|] eqn:S; [|discriminate].
    apply String.eqb_eq in E. subst s'. rewrite <- S. now apply in_map.
  - intros I. apply in_map_iff in I. destruct I as (e & S & I).
    exists e. split; [assumption|]. rewrite S. apply String.eqb_refl.
Qed.



End Collection.

(** ** The creation endpoint *)

Section Endpoint.
Import Js EventModel Route Spec.


(** The collection a request leaves behind: untouched when the request
    does not reach [Event.create], and otherwise the collection as
    [beforeCreate] hands it over, with the created document appended on
    success. *)
Lemma POST_events env net req w :
  let w' := snd (POST env net req w) in
  events w' = events w
  \/ (exists h db' entries,
        Mongodb.dbConnect (MONGODB_URI env) net (db w) = (inr h, db')
        /\ formData req = inr entries
        /\ (events w' = beforeCreate env (events w)
            \/ exists d,
                 create (beforeCreate env (events w))
                        (coerceArrays (fromEntries entries))
                 = inr (d, events w')
                 /\ events w' = (beforeCreate env (events w) ++ [d])%list)).
Proof.
  cbn zeta. unfold POST.
  destruct (Mongodb.dbConnect _ _ _) as [[e | h] db'] eqn:C; [now left|].
  destruct (formData req) as [e | entries] eqn:F; [now left|].
  right. exists h, db', entries. repeat split.
  destruct (create _ _) as [err | [d store']] eqn:K; cbn; [now left|].
  right. exists d. split; [reflexivity|]. now apply create_appends in K.
Qed.

End Endpoint.



(** ** Strings *)

Section Strings.
Import Js Spec.

Lemma allChars_app P s t :
  allChars P (s ++ t) = allChars P s && allChars P t.
Proof.
  induction s as [|c s IH]; cbn; [reflexivity|].
  now rewrite IH, andb_assoc.
Qed.

Lemma allChars_weaken (P Q : ascii -> bool) s :
  (forall c, P c = true -> Q c = true) ->
  allChars P s = true -> allChars Q s = true.
Proof.
  intros PQ. induction s as [|c s IH]; cbn; [reflexivity|].
  rewrite !andb_true_iff. intros [H1 H2]. auto.
Qed.

Lemma append_inj_l (p s t : string) : (p ++ s = p ++ t -> s = t)%string.
Proof. induction p as [|c p IH]; cbn; [auto|]. intros [= H]. auto. Qed.

Lemma append_length (s t : string) :
  String.length (s ++ t) = String.length s + String.length t.
Proof. induction s as [|c s IH]; cbn; [reflexivity|]. now rewrite IH. Qed.

Lemma append_nil_r (s : string) : (s ++ "")%string = s.
Proof. induction s as [|c s IH]; cbn; [reflexivity|]. now rewrite IH. Qed.

Lemma append_assoc (s t u : string) :
  ((s ++ t) ++ u = s ++ (t ++ u))%string.
Proof. induction s as [|c s IH]; cbn; [reflexivity|]. now rewrite IH. Qed.

(** [`${n}`] determines [n]. *)
Lemma decimal_inj n m : decimal n = decimal m -> n = m.
Proof.
  unfold decimal. intros H.
  apply DecimalNat.Unsigned.to_uint_inj.
  assert (E : Some (Nat.to_uint n) = Some (Nat.to_uint m)).
  { rewrite <- !NilEmpty.usu. now rewrite H. }
  now injection E.
Qed.

End Strings.

(** ** The uniqueness loop *)

Section UniqueLoop.
Import Js EventModel Spec.

Variable exists_ : string -> bool.
Variable base : string.

Lemma candidateAt_succ k :
  candidateAt base (k + 1) = (base ++ "-" ++ decimal (k + 1))%string.
Proof. rewrite Nat.add_1_r. reflexivity. Qed.

(** The loop leaves at the first candidate, from its counter on, that
    does not exist, provided the fuel reaches it. *)
Lemma uniqueLoop_finds n : forall fuel k,
  (forall i, k <= i < k + n -> exists_ (candidateAt base i) = true) ->
  exists_ (candidateAt base (k + n)) = false ->
  n < fuel ->
  uniqueLoop fuel exists_ base (candidateAt base k) k
  = Some (candidateAt base (k + n)).
Proof.
  induction n as [|n IH]; intros fuel k Before Free Fuel.
  - destruct fuel as [|fuel]; [lia|]. cbn [uniqueLoop].
    rewrite Nat.add_0_r in *. now rewrite Free.
  - destruct fuel as [|fuel]; [lia|]. cbn [uniqueLoop].
    rewrite (Before k) by lia.
    rewrite <- candidateAt_succ.
    rewrite (IH fuel (k + 1)).
    + f_equal. f_equal. lia.
    + intros i Hi. apply Before. lia.
    + replace (k + 1 + n) with (k + S n) by lia. exact Free.
    + lia.
Qed.

(** Conversely, what the loop returns is such a first free candidate. *)
Lemma uniqueLoop_returns fuel : forall k c,
  uniqueLoop fuel exists_ base (candidateAt base k) k = Some c ->
  exists n, c = candidateAt base (k + n)
            /\ exists_ c = false
            /\ forall i, k <= i < k + n -> exists_ (candidateAt base i) = true.
Proof.
  induction fuel as [|fuel IH]; intros k c; cbn [uniqueLoop]; [discriminate|].
  destruct (exists_ (candidateAt base k)) eqn:E.
  - rewrite <- candidateAt_succ. intros H.
    destruct (IH _ _ H) as (n & -> & F & B).
    exists (S n). split; [f_equal; lia|]. split; [exact F|].
    intros i Hi. destruct (Nat.eq_dec i k) as [->|D]; [exact E|].
    apply B. lia.
  - intros [= <-]. exists 0. rewrite Nat.add_0_r.
    split; [reflexivity|]. split; [exact E|]. intros i Hi. lia.
Qed.

End UniqueLoop.

Section CandidatesDistinct.
Import Js EventModel Spec.

Lemma candidateAt_inj base i j :
  candidateAt base i = candidateAt base j -> i = j.
Proof.
  destruct i as [|i], j as [|j]; cbn [candidateAt]; intros H.
  - reflexivity.
  - exfalso. destruct base as [|c b]; cbn in H; [discriminate|].
    apply (f_equal String.length) in H. cbn in H.
    rewrite append_length in H. cbn in H. lia.
  - exfalso. destruct base as [|c b]; cbn in H; [discriminate|].
    apply (f_equal String.length) in H. cbn in H.
    rewrite append_length in H. cbn in H. lia.
  - apply append_inj_l in H. apply (append_inj_l "-") in H.
    now apply decimal_inj in H.
Qed.

Lemma candidates_NoDup base n :
  NoDup (map (fun k => Some (candidateAt base k)) (seq 0 n)).
Proof.
  apply Finite.Injective_map_NoDup; [|apply seq_NoDup].
  intros i j [= H]. now apply candidateAt_inj in H.
Qed.

(** Among the first [length store + 1] candidates one does not exist. *)
Lemma some_candidate_free store base :
  exists n, n <= List.length store
            /\ slugExists store (candidateAt base n) = false.
Proof.
  destruct (forallb (fun k => slugExists store (candidateAt base k))
                    (seq 0 (S (List.length store)))) eqn:A.
  - exfalso. rewrite forallb_forall in A.
    assert (I : incl (map (fun k => Some (candidateAt base k))
                          (seq 0 (S (List.length store))))
                     (map slug store)).
    { intros x Hx. apply in_map_iff in Hx. destruct Hx as (k & <- & Hk).
      apply slugExists_In. now apply A. }
    apply NoDup_incl_length in I; [|apply candidates_NoDup].
    rewrite !length_map, length_seq in I. lia.
  - assert (E : existsb (fun k => negb (slugExists store (candidateAt base k)))
                        (seq 0 (S (List.length store))) = true).
    { clear -A. induction (seq 0 (S (List.length store))) as [|k l IH];
        cbn in *; [discriminate|].
      destruct (slugExists store (candidateAt base k)); cbn in *; auto. }
    apply existsb_exists in E. destruct E as (n & Hn & F).
    apply in_seq in Hn. exists n. split; [lia|].
    now apply negb_true_iff in F.
Qed.

(** The least free candidate. *)
Lemma first_candidate_free store base :
  exists n, n <= List.length store
            /\ slugExists store (candidateAt base n) = false
            /\ forall i, i < n -> slugExists store (candidateAt base i) = true.
Proof.
  destruct (some_candidate_free store base) as (m & Hm & Fm).
  clear Hm. revert Fm.
  induction m as [m IH] using lt_wf_ind. intros Fm.
  destruct (forallb (fun i => slugExists store (candidateAt base i)) (seq 0 m)) eqn:A.
  - rewrite forallb_forall in A.
    destruct (some_candidate_free store base) as (m' & Hm' & Fm').
    destruct (le_lt_dec m (List.length store)) as [L|L].
    + exists m. split; [exact L|]. split; [exact Fm|].
      intros i Hi. apply A, in_seq. lia.
    + exfalso. assert (T : slugExists store (candidateAt base m') = true).
      { apply A, in_seq. lia. }
      congruence.
  - assert (E : exists i, i < m /\ slugExists store (candidateAt base i) = false).
    { clear -A. induction m as [|m IHm]; [discriminate|].
      rewrite seq_S, forallb_app in A. cbn in A.
      destruct (forallb _ (seq 0 m)) eqn:B.
      - exists m. split; [lia|].
        destruct (slugExists store (candidateAt base m)); [discriminate|reflexivity].
      - destruct (IHm eq_refl) as (i & Hi & F). exists i. split; [lia|exact F]. }
    destruct E as (i & Hi & F). exact (IH i Hi F).
Qed.

(** The loop always leaves within [length store + 1] checks, and more
    fuel changes nothing. *)
Lemma uniqueLoop_total store base fuel :
  List.length store < fuel ->
  exists n,
    uniqueLoop fuel (slugExists store) base (candidateAt base 0) 0
    = Some (candidateAt base n)
    /\ slugExists store (candidateAt base n) = false
    /\ forall i, i < n -> slugExists store (candidateAt base i) = true.
Proof.
  intros Fuel.
  destruct (first_candidate_free store base) as (n & Hn & F & B).
  exists n. split; [|split; assumption].
  apply (uniqueLoop_finds (slugExists store) base n fuel 0).
  - intros i Hi. apply B. lia.
  - exact F.
  - lia.
Qed.

(** The slug step as the specification words it: the first candidate, in
    the order base (or [event]), [base-1], [base-2], ..., that no
    document has. *)
Lemma resolveSlug_first_free store docTitle :
  exists n,
    resolveSlug store docTitle = candidateAt (slugify docTitle) n
    /\ slugExists store (candidateAt (slugify docTitle) n) = false
    /\ forall i, i < n ->
         slugExists store (candidateAt (slugify docTitle) i) = true.
Proof.
  destruct (uniqueLoop_total store (slugify docTitle) (S (List.length store)))
    as (n & E & F & B); [lia|].
  exists n. split; [|split; assumption].
  unfold resolveSlug. cbn [candidateAt] in E. now rewrite E.
Qed.

(** Any fuel beyond the size of the collection gives the loop's result,
    which is the slug resolved. *)
Lemma resolveSlug_fuel store docTitle fuel :
  List.length store < fuel ->
  uniqueLoop fuel (slugExists store) (slugify docTitle)
    (orElse (slugify docTitle) "event") 0
  = Some (resolveSlug store docTitle).
Proof.
  intros Fuel.
  destruct (first_candidate_free store (slugify docTitle)) as (n & Hn & F & B).
  assert (L : forall fuel', n < fuel' ->
            uniqueLoop fuel' (slugExists store) (slugify docTitle)
              (candidateAt (slugify docTitle) 0) 0
            = Some (candidateAt (slugify docTitle) n)).
  { intros fuel' Hf.
    apply (uniqueLoop_finds (slugExists store) (slugify docTitle) n fuel' 0);
      [intros i Hi; apply B; lia|exact F|exact Hf]. }
  unfold resolveSlug. cbn [candidateAt] in L.
  rewrite (L fuel), (L (S (List.length store))) by lia. reflexivity.
Qed.

End CandidatesDistinct.

(** ** Slugs are fixed by the setters of the [slug] path *)

Section SlugStable.
Import Js EventModel Spec.

Lemma lowerChar_idem c : lowerChar (lowerChar c) = lowerChar c.
Proof. each_char c; reflexivity. Qed.

Lemma kept_lower_stable c :
  slugKeeps (lowerChar c) = true -> isSpace (lowerChar c) = false ->
  stable (lowerChar c) = true.
Proof. each_char c; vm_compute; intros; congruence. Qed.

Lemma digit_stable c : isDigit c = true -> stable c = true.
Proof. each_char c; vm_compute; intros; congruence. Qed.

Lemma toLowerCase_lowered s : allChars lowered (toLowerCase s) = true.
Proof.
  induction s as [|c s IH]; cbn; [reflexivity|].
  rewrite IH, andb_true_r. unfold lowered.
  rewrite lowerChar_idem. apply Ascii.eqb_refl.
Qed.

Lemma trimStart_allChars P s :
  allChars P s = true -> allChars P (trimStart s) = true.
Proof.
  induction s as [|c s IH]; cbn; [reflexivity|].
  intros H. destruct (isSpace c); [|exact H].
  apply andb_true_iff in H. now apply IH.
Qed.

Lemma trimEnd_allChars P s :
  allChars P s = true -> allChars P (trimEnd s) = true.
Proof.
  induction s as [|c s IH]; cbn; [reflexivity|].
  intros H. apply andb_true_iff in H. destruct H as [Hc Hs].
  specialize (IH Hs). destruct (trimEnd s) as [|c' r].
  - destruct (isSpace c); cbn; [reflexivity|]. now rewrite Hc.
  - cbn in *. now rewrite Hc, IH.
Qed.

Lemma trim_allChars P s : allChars P s = true -> allChars P (trim s) = true.
Proof. intros H. now apply trimEnd_allChars, trimStart_allChars. Qed.

Lemma keepOnly_allChars P K s :
  allChars P s = true ->
  allChars (fun c => P c && K c) (keepOnly K s) = true.
Proof.
  induction s as [|c s IH]; cbn; [reflexivity|].
  intros H. apply andb_true_iff in H. destruct H as [Hc Hs].
  destruct (K c) eqn:Kc; cbn; [|now apply IH].
  now rewrite Hc, Kc, IH.
Qed.

Lemma collapseRuns_allChars (P Q cls : ascii -> bool) rep s : forall inRun,
  Q rep = true ->
  (forall c, P c = true -> cls c = false -> Q c = true) ->
  allChars P s = true ->
  allChars Q (collapseRuns cls rep inRun s) = true.
Proof.
  intros inRun Hrep PQ. revert inRun.
  induction s as [|c s IH]; intros inRun; cbn; [reflexivity|].
  intros H. apply andb_true_iff in H. destruct H as [Hc Hs].
  destruct (cls c) eqn:C.
  - destruct inRun; cbn; [now apply IH|]. rewrite Hrep. now apply IH.
  - cbn. rewrite (PQ c Hc C). now apply IH.
Qed.

Lemma dropLeadingHyphen_allChars P s :
  allChars P s = true -> allChars P (dropLeadingHyphen s) = true.
Proof.
  destruct s as [|c s]; cbn; [reflexivity|].
  intros H. destruct (isHyphen c); [|exact H].
  now apply andb_true_iff in H.
Qed.

Lemma dropTrailingHyphen_allChars P s :
  allChars P s = true -> allChars P (dropTrailingHyphen s) = true.
Proof.
  induction s as [|c s IH]; [reflexivity|].
  intros H. cbn in H. apply andb_true_iff in H. destruct H as [Hc Hs].
  destruct s as [|c' s'].
  - cbn. destruct (isHyphen c); cbn; [reflexivity|]. now rewrite Hc.
  - change (dropTrailingHyphen (String c (String c' s')))
      with (String c (dropTrailingHyphen (String c' s'))).
    cbn [allChars]. rewrite Hc. now apply IH.
Qed.

(** Every character of a slugified title is lower case and no white
    space. *)
Lemma slugify_stable str : allChars stable (slugify str) = true.
Proof.
  unfold slugify.
  apply dropTrailingHyphen_allChars, dropLeadingHyphen_allChars.
  apply (collapseRuns_allChars stable stable); [reflexivity|auto|].
  apply (collapseRuns_allChars (fun c => lowered c && slugKeeps c) stable);
    [reflexivity| |].
  - intros c H S. apply andb_true_iff in H. destruct H as [L K].
    unfold lowered in L. apply Ascii.eqb_eq in L. rewrite <- L in *.
    now apply kept_lower_stable.
  - apply keepOnly_allChars, trim_allChars, toLowerCase_lowered.
Qed.

Lemma string_of_uint_digits d :
  allChars isDigit (NilEmpty.string_of_uint d) = true.
Proof. induction d; cbn; auto. Qed.

Lemma decimal_stable n : allChars stable (decimal n) = true.
Proof.
  apply (allChars_weaken isDigit); [apply digit_stable|].
  apply string_of_uint_digits.
Qed.

Lemma candidateAt_stable str k :
  allChars stable (candidateAt (slugify str) k) = true.
Proof.
  destruct k as [|k]; cbn [candidateAt].
  - unfold orElse. destruct (truthy (slugify str)); [|reflexivity].
    apply slugify_stable.
  - rewrite !allChars_app, slugify_stable, decimal_stable. reflexivity.
Qed.

Lemma toLowerCase_fixed s :
  allChars stable s = true -> toLowerCase s = s.
Proof.
  induction s as [|c s IH]; cbn; [reflexivity|].
  intros H. apply andb_true_iff in H. destruct H as [Hc Hs].
  unfold stable in Hc. apply andb_true_iff in Hc. destruct Hc as [L _].
  apply Ascii.eqb_eq in L. now rewrite L, IH.
Qed.

Lemma trimStart_fixed s : allChars stable s = true -> trimStart s = s.
Proof.
  destruct s as [|c s]; cbn; [reflexivity|].
  intros H. apply andb_true_iff in H. destruct H as [Hc _].
  unfold stable in Hc. apply andb_true_iff in Hc. destruct Hc as [_ N].
  apply negb_true_iff in N. now rewrite N.
Qed.

Lemma trimEnd_fixed s : allChars stable s = true -> trimEnd s = s.
Proof.
  induction s as [|c s IH]; cbn; [reflexivity|].
  intros H. apply andb_true_iff in H. destruct H as [Hc Hs].
  rewrite (IH Hs).
  unfold stable in Hc. apply andb_true_iff in Hc. destruct Hc as [_ N].
  apply negb_true_iff in N. rewrite N. now destruct s.
Qed.

Lemma slugSetter_fixed s : allChars stable s = true -> slugSetter s = s.
Proof.
  intros H. unfold slugSetter, trim.
  now rewrite (toLowerCase_fixed s H), (trimStart_fixed s H), (trimEnd_fixed s H).
Qed.

(** The setters leave the resolved slug as the loop found it. *)
Lemma slugSetter_resolveSlug store docTitle :
  slugSetter (resolveSlug store docTitle) = resolveSlug store docTitle.
Proof.
  destruct (resolveSlug_first_free store docTitle) as (n & -> & _).
  apply slugSetter_fixed, candidateAt_stable.
Qed.

End SlugStable.

(** ** [Event.create] on objects the schema accepts *)

Section CreateWellFormed.
Import Js EventModel Spec.

Ltac split_construct :=
  unfold construct;
  repeat match goal with
         | |- context [let '(_, _) := ?x in _] => destruct x
         end.

Lemma construct_title o :
  title (fst (construct o)) = fst (castString trim o "title").
Proof. split_construct. reflexivity. Qed.

Lemma construct_date o :
  date (fst (construct o)) = fst (castString asIs o "date").
Proof. split_construct. reflexivity. Qed.

Lemma construct_time o :
  time (fst (construct o)) = fst (castString asIs o "time").
Proof. split_construct. reflexivity. Qed.

(** A string path that holds a value was set by the constructor. *)
Lemma castString_modified f o k :
  absent (fst (castString f o k)) = false -> isModifiedNew o k = true.
Proof.
  unfold castString, isModifiedNew.
  destruct (get o k) as [[s | l | n]|]; cbn; congruence.
Qed.

Lemma normalizeDate_ret v d : normalizeDate v = inr d -> v = Some d.
Proof.
  unfold normalizeDate. destruct v as [s|]; [|discriminate].
  unfold dateMatch. destruct (test dateRegex s); [|discriminate].
  destruct (_ || _); [discriminate|]. now intros [= <-].
Qed.

Lemma truthy_app_colon h m : truthy (h ++ ":" ++ m) = true.
Proof. destruct h; reflexivity. Qed.

Lemma normalizeTime_truthy v t : normalizeTime v = inr t -> truthy t = true.
Proof.
  unfold normalizeTime. destruct (negb _); [discriminate|].
  destruct (split ":" (timeString v)) as [|h [|m r]];
    [discriminate| |]; intros [= <-]; apply truthy_app_colon.
Qed.

Lemma failingPaths_nil d :
  failingPaths d = [] ->
  absent (title d) = false /\ absent (date d) = false
  /\ absent (time d) = false.
Proof.
  unfold failingPaths, requiredString. intros H.
  repeat (apply app_eq_nil in H; destruct H as [? H]).
  repeat match goal with
         | X : (if absent ?v then _ else _) = [] |- _ =>
             destruct (absent v); [discriminate X|clear X]
         end.
  auto.
Qed.

(** The hook only touches [slug], [date] and [time]; its outcome stays
    valid when they hold values. *)
Lemma failingPaths_hook d s dt tm :
  failingPaths d = [] -> truthy dt = true -> truthy tm = true ->
  failingPaths (setTime tm (setDate dt (setSlug s d))) = [].
Proof.
  unfold failingPaths, requiredString. intros H Hd Ht. cbn.
  rewrite Hd, Ht. cbn.
  repeat (apply app_eq_nil in H; destruct H as [? H]).
  repeat match goal with
         | X : ?l = [] |- context [?l] => rewrite X
         end.
  reflexivity.
Qed.

(** Such an object is created in every collection, under the slug the
    loop resolves for its title. *)
Lemma create_wellFormed store o :
  wellFormed o = true ->
  exists d,
    create store o = inr (d, (store ++ [d])%list)
    /\ slug d = Some (resolveSlug store (titleOrEmpty (fst (construct o))))
    /\ date d = date (fst (construct o))
    /\ normalizeTime (time (fst (construct o)))
       = inr (match time d with Some t => t | None => "" end).
Proof.
  unfold wellFormed, create.
  pose proof (construct_title o) as Ct.
  pose proof (construct_date o) as Cd.
  pose proof (construct_time o) as Cm.
  destruct (construct o) as [doc errs]. cbn [fst] in *.
  rewrite !andb_true_iff. intros [[[E F] D] T].
  destruct errs; [|discriminate].
  destruct (failingPaths doc) eqn:FP; [|discriminate].
  destruct (failingPaths_nil doc FP) as (At & Ad & Am).
  destruct (normalizeDate (date doc)) as [|d0] eqn:ND; [discriminate|].
  destruct (normalizeTime (time doc)) as [|t0] eqn:NT; [discriminate|].
  assert (Mt : isModifiedNew o "title" = true)
    by (apply (castString_modified trim); now rewrite <- Ct).
  assert (Md : isModifiedNew o "date" = true)
    by (apply (castString_modified asIs); now rewrite <- Cd).
  assert (Mm : isModifiedNew o "time" = true)
    by (apply (castString_modified asIs); now rewrite <- Cm).
  unfold preValidate. rewrite Mt, Md, Mm. cbn [orb].
  change (date (setSlug _ doc)) with (date doc). rewrite ND. cbn [bind ret].
  change (time (setDate d0 (setSlug _ doc))) with (time doc).
  rewrite NT. cbn [bind ret].
  rewrite slugSetter_resolveSlug.
  set (s := resolveSlug store (titleOrEmpty doc)).
  assert (Hd0 : truthy d0 = true).
  { apply normalizeDate_ret in ND. rewrite ND in Ad. cbn in Ad.
    now apply negb_false_iff in Ad. }
  unfold validate. cbn [app].
  rewrite (failingPaths_hook doc s d0 t0 FP Hd0 (normalizeTime_truthy _ _ NT)).
  set (d := setTime t0 (setDate d0 (setSlug s doc))).
  cbn [bind ret]. unfold insertOne.
  change (slug d) with (Some s).
  destruct (resolveSlug_first_free store (titleOrEmpty doc)) as (n & E1 & Free & _).
  fold s in E1. rewrite <- E1 in Free. rewrite Free. cbn [bind ret].
  exists d. repeat split.
  cbn. apply normalizeDate_ret in ND. now rewrite ND.
Qed.

End CreateWellFormed.

(** ** Slug assignment over a sequence of creations *)

Section Numbering.
Import Js EventModel Spec.

Variable base : string.
Hypothesis base_nonempty : base <> "".

Lemma candidateAt_numbered k : candidateAt base k = numbered base k.
Proof.
  destruct k; [|reflexivity]. cbn. unfold orElse.
  destruct base; [contradiction|reflexivity].
Qed.

Lemma numbered_inj i j : numbered base i = numbered base j -> i = j.
Proof. rewrite <- !candidateAt_numbered. apply candidateAt_inj. Qed.

(** In a collection that holds exactly the first [k] numbered slugs of
    the base, the loop resolves the [k]-th. *)
Lemma resolveSlug_numbered store docTitle k :
  slugify docTitle = base ->
  (forall i, slugExists store (numbered base i) = (i <? k)) ->
  resolveSlug store docTitle = numbered base k.
Proof.
  intros B Held.
  destruct (resolveSlug_first_free store docTitle) as (n & -> & Free & Taken).
  rewrite B in *. rewrite candidateAt_numbered in *.
  rewrite Held in Free. apply Nat.ltb_ge in Free.
  destruct (Nat.eq_dec n k) as [->|D]; [reflexivity|].
  assert (L : k < n) by lia. specialize (Taken k L).
  rewrite candidateAt_numbered, Held, Nat.ltb_irrefl in Taken. discriminate.
Qed.

Lemma slugExists_app store d s :
  slugExists (store ++ [d])%list s
  = slugExists store s
    || match slug d with Some s' => (s' =? s)%string | None => false end.
Proof. unfold slugExists. rewrite existsb_app. cbn. now rewrite orb_false_r. Qed.

Lemma createAll_numbered objs : forall store k,
  (forall i, slugExists store (numbered base i) = (i <? k)) ->
  Forall (fun o => wellFormed o = true /\ baseOf o = base) objs ->
  map assignedSlug (fst (createAll store objs))
  = map (fun n => Some (numbered base n)) (seq k (List.length objs)).
Proof.
  induction objs as [|o rest IH]; intros store k Held All; [reflexivity|].
  inversion All as [|x l WB All']; subst. destruct WB as [W B].
  destruct (create_wellFormed store o W) as (d & C & Sl & _).
  cbn [createAll]. rewrite C.
  destruct (createAll (store ++ [d])%list rest) as [rs final] eqn:R.
  cbn [fst map List.length seq assignedSlug].
  unfold baseOf in B.
  rewrite (resolveSlug_numbered store _ k B Held) in Sl.
  rewrite Sl. f_equal.
  specialize (IH (store ++ [d])%list (S k)). rewrite R in IH. apply IH; [|exact All'].
  intros i. rewrite slugExists_app, Held, Sl.
  destruct (String.eqb_spec (numbered base k) (numbered base i)) as [E|N].
  - apply numbered_inj in E. subst i.
    rewrite Nat.ltb_irrefl. symmetry. apply Nat.ltb_lt. lia.
  - rewrite orb_false_r.
    destruct (Nat.ltb_spec i k), (Nat.ltb_spec i (S k)); try reflexivity; try lia.
    exfalso. apply N. f_equal. lia.
Qed.

End Numbering.

(** A numbered slug can be another title's own slug.  Of the two
    creations with base [devconf] below, the second finds [devconf-1]
    taken by the title "DevConf 1" and is assigned [devconf-2]. *)
Lemma C1_counterexample :
  map Spec.baseOf Scenario.squatted = ["devconf"; "devconf-1"; "devconf"]
  /\ map Spec.assignedSlug (fst (Spec.createAll [] Scenario.squatted))
     = [Some "devconf"; Some "devconf-1"; Some "devconf-2"].
Proof. split; vm_compute; reflexivity. Qed.

(** C1, amended. In a collection that holds none of the slugs [base],
    [base-1], [base-2], ... of a non-empty base, the creations of a
    sequence of accepted objects whose titles all slugify to that base
    are assigned, in order, the bare [base], then [base-1], [base-2],
    ...; and in any collection, for any title, the slug resolved is the
    first candidate, in the order tried by the loop, that no document
    has, every candidate before it being taken. *)
Theorem C1_colliding_creations_are_numbered :
  forall (base : string) (store : EventModel.Store) (objs : list Js.Obj),
    base <> "" ->
    (forall k, EventModel.slugExists store (Spec.numbered base k) = false) ->
    Forall (fun o => Spec.wellFormed o = true
                     /\ Spec.baseOf o = base) objs ->
    map Spec.assignedSlug (fst (Spec.createAll store objs))
    = map (fun n => Some (Spec.numbered base n))
          (seq 0 (List.length objs))
    /\ forall (st : EventModel.Store) (docTitle : string),
         exists n,
           EventModel.resolveSlug st docTitle
           = Spec.candidateAt (EventModel.slugify docTitle) n
           /\ EventModel.slugExists st
                (Spec.candidateAt (EventModel.slugify docTitle) n) = false
           /\ forall i, i < n ->
                EventModel.slugExists st
                  (Spec.candidateAt (EventModel.slugify docTitle) i) = true.
Proof.
  intros base store objs NE Free All. split.
  - apply createAll_numbered; [exact NE| |exact All].
    intros i. now rewrite Free.
  - intros st docTitle. apply resolveSlug_first_free.
Qed.

(** Three creations of base [devconf] in the empty collection. *)
Lemma C1_witness :
  map Spec.assignedSlug
      (fst (Spec.createAll [] Scenario.devconfs))
  = [Some "devconf"; Some "devconf-1"; Some "devconf-2"].
Proof.
  refine (proj1 (C1_colliding_creations_are_numbered
                   "devconf" [] Scenario.devconfs _ _ _)).
  - discriminate.
  - reflexivity.
  - repeat constructor.
Defined.

(** ** Titles without a base slug *)

Section EmptyBase.
Import Js EventModel Spec.

(** A free first candidate is the slug. *)
Lemma resolveSlug_free store docTitle :
  slugExists store (candidateAt (slugify docTitle) 0) = false ->
  resolveSlug store docTitle = candidateAt (slugify docTitle) 0.
Proof.
  intros F.
  destruct (resolveSlug_first_free store docTitle) as (n & -> & _ & Taken).
  destruct n as [|n]; [reflexivity|].
  rewrite (Taken 0) in F by lia. discriminate.
Qed.

(** A taken first candidate is not. *)
Lemma resolveSlug_taken store docTitle :
  slugExists store (candidateAt (slugify docTitle) 0) = true ->
  exists n, 1 <= n
    /\ resolveSlug store docTitle = candidateAt (slugify docTitle) n
    /\ slugExists store (candidateAt (slugify docTitle) n) = false
    /\ forall i, i < n ->
         slugExists store (candidateAt (slugify docTitle) i) = true.
Proof.
  intros T.
  destruct (resolveSlug_first_free store docTitle) as (n & E & F & Taken).
  exists n. repeat split; try assumption.
  destruct n; [congruence|lia].
Qed.

End EmptyBase.

(** C2. For a title that slugifies to the empty string the slug is
    [event] when no document has it; when one has, the slug is [-n] for
    the first [n >= 1] such that no document has [-n], the hyphen and the
    counter without the word [event] before them. *)
Theorem C2_empty_base_collision_drops_the_fallback :
  forall (store : EventModel.Store) (docTitle : string),
    EventModel.slugify docTitle = "" ->
    (EventModel.slugExists store "event" = false ->
       EventModel.resolveSlug store docTitle = "event")
    /\ (EventModel.slugExists store "event" = true ->
        exists n, 1 <= n
          /\ EventModel.resolveSlug store docTitle = ("-" ++ Js.decimal n)%string
          /\ EventModel.slugExists store ("-" ++ Js.decimal n) = false
          /\ (forall i, 1 <= i < n ->
                EventModel.slugExists store ("-" ++ Js.decimal i) = true)
          /\ forall m, EventModel.resolveSlug store docTitle
                       <> ("event-" ++ Js.decimal m)%string).
Proof.
  intros store docTitle B. split.
  - intros F. rewrite (resolveSlug_free store docTitle); rewrite B; [reflexivity|exact F].
  - intros T. destruct (resolveSlug_taken store docTitle) as (n & Hn & E & F & Taken).
    { rewrite B. exact T. }
    rewrite B in *. destruct n as [|n]; [lia|]. cbn [Spec.candidateAt] in E, F.
    exists (S n). repeat split; try assumption.
    + intros i Hi. specialize (Taken i (proj2 Hi)).
      destruct i as [|i]; [lia|]. exact Taken.
    + intros m. rewrite E. discriminate.
Qed.

(** A second title of punctuation after a first. *)
Lemma C2_witness :
  EventModel.slugify "???" = ""
  /\ map EventModel.slug Scenario.punctuated = [Some "event"]
  /\ EventModel.resolveSlug Scenario.punctuated "???" = "-1"
  /\ EventModel.resolveSlug Scenario.punctuated "???" <> "event-1".
Proof.
  destruct (proj2 (C2_empty_base_collision_drops_the_fallback
                     Scenario.punctuated "???" eq_refl) eq_refl)
    as (n & Hn & E & F & Taken & Never).
  split; [reflexivity|]. split; [reflexivity|]. split; [|exact (Never 1)].
  destruct (Nat.eq_dec n 1) as [->|D]; [exact E|].
  exfalso. assert (T1 : 1 <= 1 < n) by lia.
  apply Taken in T1. vm_compute in T1. discriminate T1.
Defined.

Example punctuation_twice :
  map Spec.assignedSlug
      (fst (Spec.createAll []
              [Scenario.form "!!!" "2026-05-01" "10:00";
               Scenario.form "???" "2026-05-02" "10:00"]))
  = [Some "event"; Some "-1"].
Proof. vm_compute. reflexivity. Qed.

(** ** The scenario of section 8 *)

Section CloudNext.
Import Js EventModel Spec.

Lemma castString_get f o k s :
  get o k = Some (VString s) -> fst (castString f o k) = Some (f s).
Proof. unfold castString. now intros ->. Qed.

Lemma isModifiedNew_get o k s :
  get o k = Some (VString s) -> isModifiedNew o k = true.
Proof. unfold isModifiedNew. now intros ->. Qed.

(** A time the pattern refuses makes [create] throw, whatever else the
    object holds, once the date has passed. *)
Lemma create_rejects_time store o dt tm d :
  get o "date" = Some (VString dt) -> normalizeDate (Some dt) = inr d ->
  get o "time" = Some (VString tm) -> test timeRegex tm = false ->
  create store o = inl invalidTime.
Proof.
  intros Gd Nd Gt Nt. unfold create.
  pose proof (construct_date o) as Cd. pose proof (construct_time o) as Cm.
  rewrite (castString_get asIs o "date" dt Gd) in Cd.
  rewrite (castString_get asIs o "time" tm Gt) in Cm.
  destruct (construct o) as [doc errs]. cbn [fst] in Cd, Cm.
  unfold preValidate.
  rewrite (isModifiedNew_get o "date" dt Gd), (isModifiedNew_get o "time" tm Gt).
  match goal with
  | |- context [if ?c then setSlug ?s doc else doc] =>
      set (doc1 := if c then setSlug s doc else doc)
  end.
  assert (D1 : date doc1 = Some dt) by (subst doc1; destruct (_ || _); exact Cd).
  assert (T1 : time doc1 = Some tm) by (subst doc1; destruct (_ || _); exact Cm).
  rewrite D1. unfold asIs in Nd. rewrite Nd. cbn [bind ret].
  change (time (setDate d doc1)) with (time doc1). rewrite T1.
  unfold normalizeTime. cbn [timeString]. unfold asIs. rewrite Nt. reflexivity.
Qed.

End CloudNext.

(** The scenario as the specification states it, with the time ["9:5"],
    is rejected: the time pattern wants two minute digits. *)
Lemma C3_counterexample :
  EventModel.create [] Scenario.cloudNext_9_5
  = inl (Js.JsError "Error" "Time must be in HH:MM format").
Proof. reflexivity. Qed.

(** C3, amended. In a collection where no document has the slug
    [cloud-next-2026], creating an accepted object with title
    "Cloud Next 2026!", date "2026-03-10" and time "9:05" succeeds, and
    the persisted document has slug "cloud-next-2026", date "2026-03-10"
    and time "09:05"; with the time "9:5" the creation is rejected with
    "Time must be in HH:MM format". *)
Theorem C3_cloud_next_scenario :
  forall (store : EventModel.Store) (o : Js.Obj),
    Js.get o "title" = Some (Js.VString "Cloud Next 2026!") ->
    Js.get o "date" = Some (Js.VString "2026-03-10") ->
    EventModel.slugExists store "cloud-next-2026" = false ->
    (Js.get o "time" = Some (Js.VString "9:05") ->
     Spec.wellFormed o = true ->
     exists d,
       EventModel.create store o = inr (d, (store ++ [d])%list)
       /\ EventModel.slug d = Some "cloud-next-2026"
       /\ EventModel.date d = Some "2026-03-10"
       /\ EventModel.time d = Some "09:05")
    /\ (Js.get o "time" = Some (Js.VString "9:5") ->
        EventModel.create store o
        = inl (Js.JsError "Error" "Time must be in HH:MM format")).
Proof.
  intros store o Gt Gd Free. split.
  - intros Gm W.
    destruct (create_wellFormed store o W) as (d & C & S & D & T).
    exists d. split; [exact C|].
    unfold EventModel.titleOrEmpty in S.
    rewrite construct_title, (castString_get Js.trim o "title" _ Gt) in S.
    rewrite construct_date, (castString_get EventModel.asIs o "date" _ Gd) in D.
    rewrite construct_time, (castString_get EventModel.asIs o "time" _ Gm) in T.
    rewrite resolveSlug_free in S by exact Free.
    split; [exact S|]. split; [exact D|].
    destruct (EventModel.time d) as [t|]; [|discriminate T].
    now injection T as <-.
  - intros Gm.
    apply (create_rejects_time store o "2026-03-10" "9:5" "2026-03-10");
      [exact Gd|reflexivity|exact Gm|reflexivity].
Qed.

(** The scenario with the time ["9:05"], in the empty collection. *)
Lemma C3_witness :
  exists d,
    EventModel.create [] Scenario.cloudNext_9_05 = inr (d, [d])
    /\ EventModel.slug d = Some "cloud-next-2026"
    /\ EventModel.date d = Some "2026-03-10"
    /\ EventModel.time d = Some "09:05".
Proof.
  exact (proj1 (C3_cloud_next_scenario [] Scenario.cloudNext_9_05
                  eq_refl eq_refl eq_refl) eq_refl eq_refl).
Defined.

(** ** Patterns: [test] decides the language *)

Section Patterns.
Import Js Spec.

Lemma nullable_Lang r : nullable r = true <-> Lang r "".
Proof.
  induction r as [| |c|lo hi|a IHa b IHb|a IHa b IHb]; cbn.
  - split; [discriminate|tauto].
  - tauto.
  - split; discriminate.
  - split; [discriminate|]. intros (c & E & _). discriminate.
  - rewrite andb_true_iff, IHa, IHb. split.
    + intros [A B]. exists "", "". auto.
    + intros (s1 & s2 & E & A & B).
      destruct s1; [|discriminate]. destruct s2; [|discriminate]. auto.
  - rewrite orb_true_iff, IHa, IHb. tauto.
Qed.

Lemma deriv_Lang c r : forall s, Lang (deriv c r) s <-> Lang r (String c s).
Proof.
  induction r as [| |d|lo hi|a IHa b IHb|a IHa b IHb]; intros s; cbn.
  - tauto.
  - split; [tauto|discriminate].
  - destruct (Ascii.eqb_spec c d) as [->|N]; cbn.
    + split; [now intros ->|now intros [= ->]].
    + split; [tauto|]. intros [= E _]. contradiction.
  - destruct (inRange lo hi c) eqn:R; cbn.
    + split; [intros ->; now exists c|]. now intros (c' & [= -> ->] & _).
    + split; [tauto|]. intros (c' & [= -> ->] & R'). congruence.
  - assert (Step : (exists s1 s2, s = (s1 ++ s2)%string
                                  /\ Lang (deriv c a) s1 /\ Lang b s2)
                   <-> exists t1 t2, String c s = (String c t1 ++ t2)%string
                                     /\ Lang a (String c t1) /\ Lang b t2).
    { split; intros (s1 & s2 & E & A & B); exists s1, s2.
      - rewrite <- IHa. cbn. now rewrite E.
      - rewrite IHa. cbn in E. injection E as E. auto. }
    destruct (nullable a) eqn:N; cbn.
    + rewrite Step, IHb. split.
      * intros [(t1 & t2 & E & A & B) | B].
        -- exists (String c t1), t2. auto.
        -- exists "", (String c s). split; [reflexivity|].
           split; [now apply nullable_Lang|exact B].
      * intros (s1 & s2 & E & A & B). destruct s1 as [|c1 t1].
        -- right. cbn in E. now rewrite E.
        -- left. cbn in E. injection E as -> E. exists t1, s2.
           cbn. rewrite E. auto.
    + rewrite Step. split.
      * intros (t1 & t2 & E & A & B). exists (String c t1), t2. auto.
      * intros (s1 & s2 & E & A & B). destruct s1 as [|c1 t1].
        -- apply nullable_Lang in A. congruence.
        -- cbn in E. injection E as -> E. exists t1, s2.
           cbn. rewrite E. auto.
  - now rewrite IHa, IHb.
Qed.

(** An anchored pattern matches the strings of its language. *)
Lemma test_Lang s : forall r, test r s = true <-> Lang r s.
Proof.
  induction s as [|c s IH]; intros r; cbn.
  - apply nullable_Lang.
  - rewrite IH. apply deriv_Lang.
Qed.

End Patterns.

(** ** Digits *)

Section Digits.
Import Js EventModel Spec.

Lemma inRange_bounds lo hi c :
  inRange lo hi c = true -> code lo <= code c <= code hi.
Proof.
  unfold inRange. rewrite andb_true_iff, !Nat.leb_le. tauto.
Qed.

Lemma inRange_widen lo hi lo' hi' c :
  code lo' <= code lo -> code hi <= code hi' ->
  inRange lo hi c = true -> inRange lo' hi' c = true.
Proof.
  unfold inRange. rewrite !andb_true_iff, !Nat.leb_le. lia.
Qed.

Lemma forallb_seq (f : nat -> bool) a n :
  forallb f (seq a n) = true -> forall i, a <= i < a + n -> f i = true.
Proof.
  intros A i Hi. rewrite forallb_forall in A. apply A, in_seq. exact Hi.
Qed.

(** The value of a character of a range of digits. *)
Lemma digitValue_between lo hi c (a b : Z) :
  inRange lo hi c = true ->
  (48 <=? code lo) = true ->
  Z.of_nat (code lo - 48) = a -> Z.of_nat (code hi - 48) = b ->
  (a <= digitValue c <= b)%Z.
Proof.
  intros R L <- <-. apply inRange_bounds in R. apply Nat.leb_le in L.
  unfold digitValue. lia.
Qed.

Lemma digitChar_digit k :
  k < 10 ->
  isDigit (digitChar k) = true /\ digitValue (digitChar k) = Z.of_nat k.
Proof.
  intros H. do 10 (destruct k as [|k]; [split; reflexivity|]). lia.
Qed.

(** A digit is the character of its value. *)
Lemma digit_is_digitChar c :
  inRange "0" "9" c = true -> exists k, k < 10 /\ c = digitChar k.
Proof.
  intros R. apply inRange_bounds in R. change (code "0") with 48 in R.
  change (code "9") with 57 in R. exists (code c - 48). split; [lia|].
  unfold digitChar. replace (48 + (code c - 48)) with (code c) by lia.
  symmetry. apply ascii_nat_embedding.
Qed.

Lemma all_two_digits_round_trip :
  forallb (fun a => forallb (twoDigitsRoundTrip a) (seq 0 10)) (seq 0 10) = true.
Proof. vm_compute. reflexivity. Qed.

Lemma twoDigits_chars a b :
  a < 10 -> b < 10 ->
  twoDigits (10 * a + b) = String (digitChar a) (String (digitChar b) "").
Proof.
  intros Ha Hb.
  pose proof (forallb_seq (fun a => forallb (twoDigitsRoundTrip a) (seq 0 10))
                0 10 all_two_digits_round_trip a (conj (Nat.le_0_l a) Ha)) as A.
  pose proof (forallb_seq (twoDigitsRoundTrip a) 0 10 A b
                (conj (Nat.le_0_l b) Hb)) as B.
  now apply String.eqb_eq in B.
Qed.

(** A character of a range of digits is the character of a value of the
    range. *)
Lemma range_is_digitChar lo hi c (a b : nat) :
  inRange lo hi c = true -> code lo = 48 + a -> code hi = 48 + b -> b < 10 ->
  exists k, a <= k <= b /\ c = digitChar k.
Proof.
  intros R La Hb B. apply inRange_bounds in R. rewrite La, Hb in R.
  exists (code c - 48). split; [lia|].
  unfold digitChar. replace (48 + (code c - 48)) with (code c) by lia.
  symmetry. apply ascii_nat_embedding.
Qed.

Lemma decimal_char k : k < 10 -> decimal k = String (digitChar k) "".
Proof. intros H. do 10 (destruct k as [|k]; [reflexivity|]). lia. Qed.

End Digits.

(** ** Time normalisation *)

Section Times.
Import Js EventModel Spec.

(** The 24 x 60 times of the day, checked one by one. *)
Lemma all_times_normalize :
  forallb (fun h => forallb (timeNormalizes h) (seq 0 60)) (seq 0 24) = true.
Proof. vm_compute. reflexivity. Qed.

Lemma normalizesTo_eq s t :
  normalizesTo s t = true -> normalizeTime (Some s) = inr t.
Proof.
  unfold normalizesTo. destruct (normalizeTime (Some s)); [discriminate|].
  intros E. apply String.eqb_eq in E. now subst.
Qed.

(** Every time of the day, in either spelling, is normalised to the
    padded one. *)
Lemma valid_time_normalized h m :
  h < 24 -> m < 60 ->
  normalizeTime (Some (shortTime h m)) = inr (paddedTime h m)
  /\ normalizeTime (Some (paddedTime h m)) = inr (paddedTime h m).
Proof.
  intros Hh Hm.
  pose proof (forallb_seq (fun h => forallb (timeNormalizes h) (seq 0 60))
                0 24 all_times_normalize h (conj (Nat.le_0_l h) Hh)) as A.
  pose proof (forallb_seq (timeNormalizes h) 0 60 A m (conj (Nat.le_0_l m) Hm)) as B.
  unfold timeNormalizes in B.
  apply andb_true_iff in B. destruct B as [B1 B2].
  split; now apply normalizesTo_eq.
Qed.

(** The hour the pattern accepts is one or two digits worth at most 23. *)
Lemma hour_Lang s :
  Lang (Alt (Cat (Opt (Range "0" "1")) (Range "0" "9"))
            (Cat (Chr "2") (Range "0" "3"))) s ->
  allChars isDigit s = true /\ (parseInt10 s < 24)%Z.
Proof.
  assert (W1 : forall c, inRange "0" "1" c = true -> isDigit c = true).
  { intros c. apply inRange_widen; cbn; lia. }
  assert (W3 : forall c, inRange "0" "3" c = true -> isDigit c = true).
  { intros c. apply inRange_widen; cbn; lia. }
  cbn. intros [(a & b & -> & [(c1 & -> & R1) | ->] & (c2 & -> & R2))
              | (a & b & -> & -> & (c2 & -> & R2))];
    cbn [append allChars]; unfold parseInt10; cbn [parseDigits].
  - rewrite (W1 c1 R1). change (isDigit c2) with (inRange "0" "9" c2).
    rewrite R2.
    pose proof (digitValue_between "0" "1" c1 0 1 R1 eq_refl eq_refl eq_refl).
    pose proof (digitValue_between "0" "9" c2 0 9 R2 eq_refl eq_refl eq_refl).
    split; [reflexivity|lia].
  - change (isDigit c2) with (inRange "0" "9" c2). rewrite R2.
    pose proof (digitValue_between "0" "9" c2 0 9 R2 eq_refl eq_refl eq_refl).
    split; [reflexivity|lia].
  - rewrite (W3 c2 R2).
    pose proof (digitValue_between "0" "3" c2 0 3 R2 eq_refl eq_refl eq_refl).
    change (digitValue "2") with 2%Z.
    split; [reflexivity|lia].
Qed.

(** A string of digits before a colon is determined by the whole. *)
Lemma digits_before_colon a : forall a' b b',
  allChars isDigit a = true -> allChars isDigit a' = true ->
  (a ++ ":" ++ b)%string = (a' ++ ":" ++ b')%string -> a = a'.
Proof.
  induction a as [|c a IH]; intros [|c' a'] b b' D D' E; cbn in *.
  - reflexivity.
  - injection E as <- _. discriminate.
  - injection E as -> _. discriminate.
  - injection E as <- E. apply andb_true_iff in D, D'.
    f_equal. apply (IH a' b b'); tauto.
Qed.

(** What the pattern accepts has an hour of at most 23 before its
    colon. *)
Lemma timeRegex_hour hs rest :
  allChars isDigit hs = true ->
  test timeRegex (hs ++ ":" ++ rest) = true -> (parseInt10 hs < 24)%Z.
Proof.
  intros D T. apply test_Lang in T.
  destruct T as (s1 & s2 & E & H & (s3 & s4 & -> & -> & _)).
  apply hour_Lang in H. destruct H as [D1 V].
  now rewrite (digits_before_colon hs s1 rest s4 D D1 E).
Qed.

(** Conversely, every string the pattern accepts is a time of the day in
    one of the two spellings. *)
Lemma timeRegex_times s :
  test timeRegex s = true ->
  exists h m, h < 24 /\ m < 60 /\ (s = shortTime h m \/ s = paddedTime h m).
Proof.
  intros T. apply test_Lang in T. cbn [timeRegex Lang Opt] in T.
  destruct T as (sh & r1 & -> & H & (? & r2 & -> & -> & (? & ? & ->
                   & (c3 & -> & R3) & (c4 & -> & R4)))).
  destruct (range_is_digitChar "0" "5" c3 0 5 R3 eq_refl eq_refl)
    as (a & Ha & ->); [lia|].
  destruct (range_is_digitChar "0" "9" c4 0 9 R4 eq_refl eq_refl)
    as (b & Hb & ->); [lia|].
  assert (Hour : exists h, h < 24
            /\ (sh = decimal h \/ sh = twoDigits h)).
  { destruct H as [(? & ? & -> & [(c1 & -> & R1) | ->] & (c2 & -> & R2))
                  | (? & ? & -> & -> & (c2 & -> & R2))].
    - destruct (range_is_digitChar "0" "1" c1 0 1 R1 eq_refl eq_refl)
        as (k1 & K1 & ->); [lia|].
      destruct (range_is_digitChar "0" "9" c2 0 9 R2 eq_refl eq_refl)
        as (k2 & K2 & ->); [lia|].
      exists (10 * k1 + k2). split; [lia|]. right.
      now rewrite twoDigits_chars by lia.
    - destruct (range_is_digitChar "0" "9" c2 0 9 R2 eq_refl eq_refl)
        as (k2 & K2 & ->); [lia|].
      exists k2. split; [lia|]. left. now rewrite decimal_char by lia.
    - destruct (range_is_digitChar "0" "3" c2 0 3 R2 eq_refl eq_refl)
        as (k2 & K2 & ->); [lia|].
      exists (10 * 2 + k2). split; [lia|]. right.
      now rewrite twoDigits_chars by lia. }
  destruct Hour as (h & Hh & E).
  exists h, (10 * a + b). split; [exact Hh|]. split; [lia|].
  unfold shortTime, paddedTime. rewrite (twoDigits_chars a b) by lia.
  destruct E as [-> | ->]; [left|right]; reflexivity.
Qed.

(** On a document of which only the time was modified, either hook is
    the time step, which stores what [normalizeTime] gives. *)
Lemma hooks_time_step store isModified doc :
  isModified "title" = false -> isModified "date" = false ->
  isModified "time" = true -> absent (slug doc) = false ->
  preValidate store isModified doc
  = (t <- normalizeTime (time doc) ;; ret (setTime t doc))
  /\ preSave_prev isModified doc
     = (t <- normalizeTime (time doc) ;; ret (setTime t doc)).
Proof.
  intros Mt Md Mm S. unfold preValidate, preSave_prev.
  rewrite Mt, Md, Mm, S. split; reflexivity.
Qed.

(** With the time modified and the date step passed, both hooks store
    what the time step returns, or throw what it throws. *)
Lemma hooks_store_time store isModified doc :
  isModified "time" = true ->
  (isModified "date" = true -> isRet (normalizeDate (date doc)) = true) ->
  match normalizeTime (time doc) with
  | inr t =>
      (exists doc', preValidate store isModified doc = inr doc'
                    /\ time doc' = Some t)
      /\ ((isModified "title" = true -> title doc <> None) ->
          exists doc', preSave_prev isModified doc = inr doc'
                       /\ time doc' = Some t)
  | inl e =>
      preValidate store isModified doc = inl e
      /\ ((isModified "title" = true -> title doc <> None) ->
          preSave_prev isModified doc = inl e)
  end.
Proof.
  intros Mm Hd.
  assert (D : forall d0 : EventDoc, date d0 = date doc ->
              (if isModified "date"
               then d <- normalizeDate (date d0) ;; ret (setDate d d0)
               else ret d0)
              = inr (if isModified "date"
                     then setDate (match date doc with Some d => d | None => "" end) d0
                     else d0)).
  { intros d0 E. destruct (isModified "date"); [|reflexivity].
    rewrite E. specialize (Hd eq_refl).
    destruct (normalizeDate (date doc)) as [e | d] eqn:ND; [discriminate|].
    apply normalizeDate_ret in ND. rewrite ND. reflexivity. }
  assert (T : forall d1 : EventDoc, time d1 = time doc ->
              match normalizeTime (time doc) with
              | inr t =>
                  exists doc',
                    (t <- normalizeTime (time d1) ;; ret (setTime t d1)) = inr doc'
                    /\ time doc' = Some t
              | inl e => (t <- normalizeTime (time d1) ;; ret (setTime t d1)) = inl e
              end).
  { intros d1 E. rewrite E.
    destruct (normalizeTime (time doc)) as [e | t]; [reflexivity|].
    eexists. split; reflexivity. }
  assert (T' : forall d0 : EventDoc, date d0 = date doc -> time d0 = time doc ->
               match normalizeTime (time doc) with
               | inr t =>
                   exists doc',
                     (doc1 <- (if isModified "date"
                               then d <- normalizeDate (date d0) ;; ret (setDate d d0)
                               else ret d0) ;;
                      t <- normalizeTime (time doc1) ;; ret (setTime t doc1))
                     = inr doc'
                     /\ time doc' = Some t
               | inl e =>
                   (doc1 <- (if isModified "date"
                             then d <- normalizeDate (date d0) ;; ret (setDate d d0)
                             else ret d0) ;;
                    t <- normalizeTime (time doc1) ;; ret (setTime t doc1))
                   = inl e
               end).
  { intros d0 Ed Et. rewrite (D d0 Ed). cbn [bind].
    apply T. destruct (isModified "date"); exact Et. }
  unfold preValidate, preSave_prev. rewrite Mm.
  assert (P : match normalizeTime (time doc) with
              | inr t =>
                  exists doc',
                    (doc0 <- (if isModified "title"
                              then match title doc with
                                   | Some t0 => ret (setSlug (slugSetter (slugify t0)) doc)
                                   | None => throw undefinedTitle
                                   end
                              else ret doc) ;;
                     doc1 <- (if isModified "date"
                              then match date doc0 with
                                   | Some _ => d <- normalizeDate (date doc0) ;;
                                               ret (setDate d doc0)
                                   | None => throw undefinedDate
                                   end
                              else ret doc0) ;;
                     t <- normalizeTime (time doc1) ;; ret (setTime t doc1))
                    = inr doc' /\ time doc' = Some t
              | inl e =>
                  (doc0 <- (if isModified "title"
                            then match title doc with
                                 | Some t0 => ret (setSlug (slugSetter (slugify t0)) doc)
                                 | None => throw undefinedTitle
                                 end
                            else ret doc) ;;
                   doc1 <- (if isModified "date"
                            then match date doc0 with
                                 | Some _ => d <- normalizeDate (date doc0) ;;
                                             ret (setDate d doc0)
                                 | None => throw undefinedDate
                                 end
                            else ret doc0) ;;
                   t <- normalizeTime (time doc1) ;; ret (setTime t doc1))
                  = inl e
              end
              \/ (isModified "title" = true /\ title doc = None)).
  { assert (Q : forall d0 : EventDoc, date d0 = date doc ->
                (if isModified "date"
                 then match date d0 with
                      | Some _ => d <- normalizeDate (date d0) ;; ret (setDate d d0)
                      | None => throw undefinedDate
                      end
                 else ret d0)
                = (if isModified "date"
                   then d <- normalizeDate (date d0) ;; ret (setDate d d0)
                   else ret d0)).
    { intros d0 E. destruct (isModified "date") eqn:Md; [|reflexivity].
      rewrite E. specialize (Hd eq_refl).
      destruct (date doc); [reflexivity|discriminate Hd]. }
    destruct (isModified "title").
    - destruct (title doc) as [t0|]; [|right; auto]. left. cbn [bind ret].
      rewrite Q by reflexivity. now apply T'.
    - left. cbn [bind ret]. rewrite Q by reflexivity. now apply T'. }
  pose proof (T' (if isModified "title" || absent (slug doc)
                  then setSlug (slugSetter (resolveSlug store (titleOrEmpty doc))) doc
                  else doc)) as V.
  assert (Ed : date (if isModified "title" || absent (slug doc)
                     then setSlug (slugSetter (resolveSlug store (titleOrEmpty doc))) doc
                     else doc) = date doc) by (destruct (_ || _); reflexivity).
  assert (Et : time (if isModified "title" || absent (slug doc)
                     then setSlug (slugSetter (resolveSlug store (titleOrEmpty doc))) doc
                     else doc) = time doc) by (destruct (_ || _); reflexivity).
  specialize (V Ed Et). cbv beta iota zeta.
  destruct (normalizeTime (time doc)) as [e | t].
  - split; [exact V|]. intros Ht. destruct P as [P | [M N]]; [exact P|].
    now destruct (Ht M).
  - split; [exact V|]. intros Ht. destruct P as [P | [M N]]; [exact P|].
    now destruct (Ht M).
Qed.

End Times.

(** C4. Every time of the day, hour 0 to 23 and minute 0 to 59 written
    [H:MM] or [HH:MM] with two minute digits, is accepted by the time
    step, which returns it with the hour padded to two digits; every
    input whose hour, the digits before its colon, is worth 24 or more is
    rejected with "Time must be in HH:MM format".  And the hooks of both
    revisions do so to the document: on a document whose time is modified
    and whose date step has passed, the hook returns the document with
    that padded time stored in it, or throws that error.  (The times of
    the day in these spellings are all the pattern accepts,
    [timeRegex_times].) *)
Theorem C4_time_is_padded_or_rejected :
  forall (h m : nat) (hs rest : string),
    (h < 24 -> m < 60 ->
       EventModel.normalizeTime (Some (Spec.shortTime h m))
       = inr (Spec.paddedTime h m)
       /\ EventModel.normalizeTime (Some (Spec.paddedTime h m))
          = inr (Spec.paddedTime h m))
    /\ (Spec.allChars Js.isDigit hs = true -> (24 <= Js.parseInt10 hs)%Z ->
          EventModel.normalizeTime (Some (hs ++ ":" ++ rest))
          = inl (Js.JsError "Error" "Time must be in HH:MM format"))
    /\ forall (store : EventModel.Store) (isModified : string -> bool)
              (doc : EventModel.EventDoc),
         isModified "time" = true ->
         (isModified "date" = true ->
          Spec.isRet (EventModel.normalizeDate (EventModel.date doc)) = true) ->
         (h < 24 -> m < 60 ->
          EventModel.time doc = Some (Spec.shortTime h m)
          \/ EventModel.time doc = Some (Spec.paddedTime h m) ->
          (exists doc',
             EventModel.preValidate store isModified doc = inr doc'
             /\ EventModel.time doc' = Some (Spec.paddedTime h m))
          /\ ((isModified "title" = true -> EventModel.title doc <> None) ->
              exists doc',
                EventModel.preSave_prev isModified doc = inr doc'
                /\ EventModel.time doc' = Some (Spec.paddedTime h m)))
         /\ (Spec.allChars Js.isDigit hs = true ->
             (24 <= Js.parseInt10 hs)%Z ->
             EventModel.time doc = Some (hs ++ ":" ++ rest) ->
             EventModel.preValidate store isModified doc
             = inl (Js.JsError "Error" "Time must be in HH:MM format")
             /\ ((isModified "title" = true -> EventModel.title doc <> None) ->
                 EventModel.preSave_prev isModified doc
                 = inl (Js.JsError "Error" "Time must be in HH:MM format"))).
Proof.
  intros h m hs rest.
  assert (R : Spec.allChars Js.isDigit hs = true -> (24 <= Js.parseInt10 hs)%Z ->
              EventModel.normalizeTime (Some (hs ++ ":" ++ rest))
              = inl (Js.JsError "Error" "Time must be in HH:MM format")).
  { intros D V. unfold EventModel.normalizeTime. cbn [EventModel.timeString].
    destruct (Js.test EventModel.timeRegex (hs ++ ":" ++ rest)) eqn:T;
      [|reflexivity].
    apply timeRegex_hour in T; [lia|exact D]. }
  split; [apply valid_time_normalized|]. split; [exact R|].
  intros store isModified doc Mm Hd.
  pose proof (hooks_store_time store isModified doc Mm Hd) as H.
  split.
  - intros Hh Hm Tm.
    destruct (valid_time_normalized h m Hh Hm) as [N1 N2].
    assert (N : EventModel.normalizeTime (EventModel.time doc)
                = inr (Spec.paddedTime h m))
      by (destruct Tm as [-> | ->]; assumption).
    rewrite N in H. exact H.
  - intros D V Tm. rewrite Tm, (R D V) in H. exact H.
Qed.

(** The examples of the specification, ["9:05"] and ["24:00"], by
    themselves and in the scenario's document. *)
Lemma C4_witness :
  EventModel.normalizeTime (Some "9:05") = inr "09:05"
  /\ EventModel.normalizeTime (Some "24:00")
     = inl (Js.JsError "Error" "Time must be in HH:MM format")
  /\ (exists doc',
        EventModel.preValidate []
          (EventModel.isModifiedNew Scenario.cloudNext_9_05)
          (fst (EventModel.construct Scenario.cloudNext_9_05)) = inr doc'
        /\ EventModel.time doc' = Some "09:05")
  /\ EventModel.preValidate []
       (EventModel.isModifiedNew Scenario.cloudNext_24_00)
       (fst (EventModel.construct Scenario.cloudNext_24_00))
     = inl (Js.JsError "Error" "Time must be in HH:MM format").
Proof.
  split; [|split; [|split]].
  - refine (proj1 (proj1 (C4_time_is_padded_or_rejected 9 5 "24" "00") _ _)); lia.
  - refine (proj1 (proj2 (C4_time_is_padded_or_rejected 9 5 "24" "00"))
              eq_refl _).
    discriminate.
  - refine (proj1 (proj1 (proj2 (proj2
              (C4_time_is_padded_or_rejected 9 5 "24" "00")) []
              (EventModel.isModifiedNew Scenario.cloudNext_9_05)
              (fst (EventModel.construct Scenario.cloudNext_9_05)) _ _)
              _ _ _)).
    + reflexivity.
    + intros _. vm_compute. reflexivity.
    + lia.
    + lia.
    + left. reflexivity.
  - refine (proj1 (proj2 (proj2 (proj2
              (C4_time_is_padded_or_rejected 9 5 "24" "00")) []
              (EventModel.isModifiedNew Scenario.cloudNext_24_00)
              (fst (EventModel.construct Scenario.cloudNext_24_00)) _ _)
              _ _ _)).
    + reflexivity.
    + intros _. vm_compute. reflexivity.
    + reflexivity.
    + discriminate.
    + reflexivity.
Defined.

(** ** The coercion of comma-delimited lists *)

Section Coercion.
Import Js Route Spec.

Variable sep : ascii.
Hypothesis sep_no_space : isSpace sep = false.

Lemma split_cons c s :
  split sep (String c s)
  = if (c =? sep)%char then "" :: split sep s
    else match split sep s with
         | h :: t => String c h :: t
         | [] => [String c ""]
         end.
Proof. reflexivity. Qed.

Lemma split_not_nil s : split sep s <> [].
Proof.
  induction s as [|c s IH]; cbn; [discriminate|].
  destruct (c =? sep)%char; [discriminate|].
  destruct (split sep s); [contradiction|discriminate].
Qed.

Lemma space_not_sep c : isSpace c = true -> (c =? sep)%char = false.
Proof.
  intros S. apply Ascii.eqb_neq. intros ->. congruence.
Qed.

Lemma trimEnd_cons c s : trimEnd (String c s) = endStep c (trimEnd s).
Proof. cbn. now destruct (trimEnd s). Qed.

Lemma trimEnd_cons_nonspace c s :
  isSpace c = false -> trimEnd (String c s) = String c (trimEnd s).
Proof. intros N. cbn. rewrite N. now destruct (trimEnd s). Qed.

Lemma trim_commute s : trimEnd (trimStart s) = trimStart (trimEnd s).
Proof.
  induction s as [|c s IH]; [reflexivity|].
  cbn [trimStart]. destruct (isSpace c) eqn:S.
  - rewrite IH, trimEnd_cons. unfold endStep.
    destruct (trimEnd s) as [|c' r]; rewrite ?S; [reflexivity|].
    cbn [trimStart]. now rewrite S.
  - rewrite trimEnd_cons_nonspace by exact S. cbn [trimStart]. now rewrite S.
Qed.

Lemma trim_space_cons c s : isSpace c = true -> trim (String c s) = trim s.
Proof. intros S. unfold trim. cbn [trimStart]. now rewrite S. Qed.

(** Trimming the start of the whole only shows in the first segment, and
    not after its trimming. *)
Lemma split_trimStart s :
  map trim (split sep (trimStart s)) = map trim (split sep s).
Proof.
  induction s as [|c s IH]; [reflexivity|].
  cbn [trimStart]. destruct (isSpace c) eqn:S; [|reflexivity].
  rewrite IH, split_cons, (space_not_sep c S).
  destruct (split sep s) as [|h t] eqn:E; [now apply split_not_nil in E|].
  cbn [map]. now rewrite (trim_space_cons c h S).
Qed.

Lemma allSpace_trimEnd s : trimEnd s = "" -> allChars isSpace s = true.
Proof.
  induction s as [|c s IH]; [reflexivity|].
  rewrite trimEnd_cons. unfold endStep. cbn [allChars].
  destruct (trimEnd s); [|discriminate].
  destruct (isSpace c); [|discriminate]. intros _. now rewrite IH.
Qed.

Lemma allSpace_split s : allChars isSpace s = true -> split sep s = [s].
Proof.
  induction s as [|c s IH]; [reflexivity|].
  cbn [allChars]. rewrite andb_true_iff. intros [S A].
  rewrite split_cons, (space_not_sep c S), (IH A). reflexivity.
Qed.

(** Likewise for the end and the last segment. *)
Lemma split_trimEnd s :
  map trimEnd (split sep (trimEnd s)) = map trimEnd (split sep s).
Proof.
  induction s as [|c s IH]; [reflexivity|].
  destruct (Ascii.eqb_spec c sep) as [->|N].
  - rewrite trimEnd_cons_nonspace by exact sep_no_space.
    rewrite !split_cons, Ascii.eqb_refl. cbn [map]. now rewrite IH.
  - apply Ascii.eqb_neq in N.
    destruct (trimEnd s) as [|c' r] eqn:T.
    + rewrite trimEnd_cons, T. unfold endStep.
      rewrite split_cons, N, (allSpace_split s (allSpace_trimEnd s T)).
      cbn [map]. rewrite trimEnd_cons, T. unfold endStep.
      destruct (isSpace c) eqn:S; [reflexivity|].
      cbn [split]. rewrite N. cbn [map trimEnd]. now rewrite S.
    + assert (E : trimEnd (String c s) = String c (String c' r)).
      { rewrite trimEnd_cons, T. reflexivity. }
      rewrite E, (split_cons c s), (split_cons c (String c' r)), N.
      destruct (split sep (String c' r)) as [|h' t'] eqn:E1;
        [now apply split_not_nil in E1|].
      destruct (split sep s) as [|h t] eqn:E2;
        [now apply split_not_nil in E2|].
      cbn [map] in *. injection IH as Hh Ht.
      now rewrite !trimEnd_cons, Hh, Ht.
Qed.

Lemma map_trim l : map trim l = map trimStart (map trimEnd l).
Proof.
  rewrite map_map. apply map_ext. intros s. unfold trim. apply trim_commute.
Qed.

(** Trimming the whole first changes no trimmed segment. *)
Lemma split_trim s : map trim (split sep (trim s)) = map trim (split sep s).
Proof.
  unfold trim at 2. rewrite map_trim, split_trimEnd, <- map_trim.
  apply split_trimStart.
Qed.

End Coercion.

Section CoercionOfFields.
Import Js Route Spec.

(** The code's coercion is the specification's. *)
Lemma coerceList_splitTrimDrop value : coerceList value = splitTrimDrop value.
Proof.
  unfold coerceList, splitTrimDrop.
  rewrite <- (split_trim "," eq_refl value).
  destruct (trim value); reflexivity.
Qed.

Lemma get_set_same o k v : get (set o k v) k = Some v.
Proof.
  induction o as [|[k' v'] o IH]; cbn.
  - now rewrite String.eqb_refl.
  - destruct (String.eqb_spec k' k) as [->|N]; cbn.
    + now rewrite String.eqb_refl.
    + apply String.eqb_neq in N. now rewrite N.
Qed.

Lemma get_set_other o k v k' : k <> k' -> get (set o k v) k' = get o k'.
Proof.
  intros N. induction o as [|[k0 v0] o IH]; cbn.
  - apply String.eqb_neq in N. now rewrite N.
  - destruct (String.eqb_spec k0 k) as [->|N0]; cbn.
    + apply String.eqb_neq in N. now rewrite N.
    + now rewrite IH.
Qed.

Lemma coerceKey_other event k k' :
  k <> k' -> get (coerceKey event k) k' = get event k'.
Proof.
  intros N. unfold coerceKey.
  destruct (get event k) as [[s|l|f]|]; try reflexivity.
  now apply get_set_other.
Qed.

Lemma coerceKey_same event k value :
  get event k = Some (VString value) ->
  get (coerceKey event k) k = Some (VList (coerceList value)).
Proof. intros G. unfold coerceKey. rewrite G. apply get_set_same. Qed.

End CoercionOfFields.

(** C6. An [agenda] or [tags] field that reaches the endpoint as one
    string is, in the object handed to [Event.create], the list of its
    comma-separated segments, each trimmed, the empty ones dropped; and
    ["a, b ,,c"] becomes [["a"; "b"; "c"]]. *)
Theorem C6_delimited_lists_are_coerced :
  forall (event : Js.Obj) (key value : string),
    key = "agenda" \/ key = "tags" ->
    Js.get event key = Some (Js.VString value) ->
    Js.get (Route.coerceArrays event) key
    = Some (Js.VList (Spec.splitTrimDrop value))
    /\ Route.coerceList value = Spec.splitTrimDrop value
    /\ Route.coerceList "a, b ,,c" = ["a"; "b"; "c"].
Proof.
  intros event key value K G.
  split; [|split; [apply coerceList_splitTrimDrop|reflexivity]].
  rewrite <- coerceList_splitTrimDrop. unfold Route.coerceArrays. cbn [fold_left].
  destruct K as [-> | ->].
  - rewrite coerceKey_other by discriminate. now apply coerceKey_same.
  - apply coerceKey_same. rewrite coerceKey_other by discriminate. exact G.
Qed.

(** A form whose lists arrive as strings. *)
Lemma C6_witness :
  Js.get (Route.coerceArrays Scenario.rawForm) "agenda"
  = Some (Js.VList ["a"; "b"; "c"])
  /\ Js.get (Route.coerceArrays Scenario.rawForm) "tags"
     = Some (Js.VList ["cloud"; "web"]).
Proof.
  split.
  - exact (proj1 (C6_delimited_lists_are_coerced Scenario.rawForm
                    "agenda" "a, b ,,c" (or_introl eq_refl) eq_refl)).
  - exact (proj1 (C6_delimited_lists_are_coerced Scenario.rawForm
                    "tags" " cloud ,web, " (or_intror eq_refl) eq_refl)).
Defined.

(** ** Day arithmetic *)

Section DayArithmetic.
Import Js EventModel Spec.
Local Open Scope Z_scope.

Lemma DaysInYear_cases y :
  (InLeapYear y = true /\ DaysInYear y = 366)
  \/ (InLeapYear y = false /\ DaysInYear y = 365).
Proof. unfold DaysInYear. destruct (InLeapYear y); auto. Qed.

Lemma DayFromYear_succ y : DayFromYear (y + 1) = DayFromYear y + DaysInYear y.
Proof.
  unfold DayFromYear, DaysInYear, InLeapYear.
  destruct (Z.eqb_spec (y mod 4) 0), (Z.eqb_spec (y mod 100) 0),
    (Z.eqb_spec (y mod 400) 0); cbn [andb orb negb];
    Z.div_mod_to_equations; lia.
Qed.

(** [YearFromDay] is the year whose days hold [D]. *)
Lemma YearFromDay_spec y D :
  DayFromYear y <= D < DayFromYear (y + 1) -> YearFromDay D = y.
Proof.
  intros H. unfold YearFromDay.
  assert (E : y - 1 <= 1970 + D * 400 / 146097 <= y + 1).
  { unfold DayFromYear in H. Z.div_mod_to_equations. lia. }
  set (y0 := 1970 + D * 400 / 146097) in *.
  pose proof (DayFromYear_succ y) as S0.
  pose proof (DayFromYear_succ (y - 1)) as S1.
  pose proof (DayFromYear_succ (y + 1)) as S2.
  replace (y - 1 + 1) with y in * by lia.
  assert (P0 : 365 <= DaysInYear y <= 366)
    by (destruct (DaysInYear_cases y) as [[_ ->]|[_ ->]]; lia).
  assert (P1 : 365 <= DaysInYear (y - 1) <= 366)
    by (destruct (DaysInYear_cases (y - 1)) as [[_ ->]|[_ ->]]; lia).
  assert (P2 : 365 <= DaysInYear (y + 1) <= 366)
    by (destruct (DaysInYear_cases (y + 1)) as [[_ ->]|[_ ->]]; lia).
  assert (C : y0 = y - 1 \/ y0 = y \/ y0 = y + 1) by lia.
  destruct C as [-> | [-> | ->]];
    replace (y - 1 + 1) with y in * by lia;
    repeat match goal with
           | |- context [?a <? ?b] => destruct (Z.ltb_spec a b)
           | |- context [?a <=? ?b] => destruct (Z.leb_spec a b)
           end; lia.
Qed.

Lemma Day_midnight X : Day (X * msPerDay) = X.
Proof. unfold Day, msPerDay. now apply Z.div_mul. Qed.

Lemma month_cases m :
  1 <= m <= 12 ->
  m = 1 \/ m = 2 \/ m = 3 \/ m = 4 \/ m = 5 \/ m = 6 \/ m = 7 \/ m = 8
  \/ m = 9 \/ m = 10 \/ m = 11 \/ m = 12.
Proof. lia. Qed.

Ltac each_month m H :=
  destruct (month_cases m H) as
    [-> | [-> | [-> | [-> | [-> | [-> | [-> | [-> | [-> | [-> | [-> | ->]]]]]]]]]]].

Lemma MakeDay_month yr m dt :
  1 <= m <= 12 ->
  MakeDay yr (m - 1) dt
  = DayFromYear yr + monthOffset (InLeapYear yr) m + dt - 1.
Proof.
  intros H. unfold MakeDay.
  rewrite (Z.div_small (m - 1) 12), (Z.mod_small (m - 1) 12) by lia.
  rewrite Z.add_0_r. unfold firstDayOfMonth, monthOffset.
  each_month m H; reflexivity.
Qed.

Lemma monthOffset_within yr m dt :
  1 <= m <= 12 -> 1 <= dt <= 31 ->
  0 <= monthOffset (InLeapYear yr) m + dt - 1 < DaysInYear yr.
Proof.
  intros H Hd. unfold monthOffset, DaysInYear.
  each_month m H; destruct (InLeapYear yr); lia.
Qed.

(** The reconstructed date is in the year given, whatever the day. *)
Lemma YearFromTime_MakeDay yr m dt :
  1 <= m <= 12 -> 1 <= dt <= 31 ->
  YearFromTime (MakeDay yr (m - 1) dt * msPerDay) = yr.
Proof.
  intros H Hd. unfold YearFromTime. rewrite Day_midnight, MakeDay_month by exact H.
  apply YearFromDay_spec. rewrite DayFromYear_succ.
  pose proof (monthOffset_within yr m dt H Hd). lia.
Qed.

Lemma DayWithinYear_MakeDay yr m dt :
  1 <= m <= 12 -> 1 <= dt <= 31 ->
  DayWithinYear (MakeDay yr (m - 1) dt * msPerDay)
  = monthOffset (InLeapYear yr) m + dt - 1.
Proof.
  intros H Hd. unfold DayWithinYear.
  rewrite YearFromTime_MakeDay by assumption.
  rewrite Day_midnight, MakeDay_month by exact H. lia.
Qed.

Ltac decide_comparisons :=
  repeat match goal with
         | |- context [?a <? ?b] => destruct (Z.ltb_spec a b); try lia
         | |- context [?a <=? ?b] => destruct (Z.leb_spec a b); try lia
         end.

(** Its month is the month given when the day is one of that month, and
    the next month when it is not. *)
Lemma MonthFromTime_MakeDay yr m dt :
  1 <= m <= 12 -> 1 <= dt <= 31 ->
  MonthFromTime (MakeDay yr (m - 1) dt * msPerDay)
  = if dt <=? daysInMonth yr m then m - 1 else m.
Proof.
  intros H Hd. unfold MonthFromTime, leapDay.
  rewrite DayWithinYear_MakeDay, YearFromTime_MakeDay by assumption.
  cbv zeta. unfold monthOffset, daysInMonth.
  each_month m H; destruct (InLeapYear yr); decide_comparisons; reflexivity.
Qed.

Lemma DateFromTime_MakeDay yr m dt :
  1 <= m <= 12 -> 1 <= dt <= daysInMonth yr m ->
  DateFromTime (MakeDay yr (m - 1) dt * msPerDay) = dt.
Proof.
  intros H Hd.
  assert (Hd' : 1 <= dt <= 31).
  { revert Hd. unfold daysInMonth.
    each_month m H; destruct (InLeapYear yr); lia. }
  unfold DateFromTime, leapDay.
  rewrite MonthFromTime_MakeDay, DayWithinYear_MakeDay, YearFromTime_MakeDay
    by assumption.
  destruct (Z.leb_spec dt (daysInMonth yr m)); [|lia].
  cbv zeta. unfold monthOffset.
  each_month m H; destruct (InLeapYear yr);
    match goal with
    | |- context [match ?k - 1 with _ => _ end] =>
        let v := eval vm_compute in (k - 1) in change (k - 1) with v
    end; cbv beta iota; lia.
Qed.

(** A date of the years 0 to 9999 is within the range of time values. *)
Lemma TimeClip_MakeDay yr m dt :
  0 <= yr <= 12000 -> 1 <= m <= 12 -> 1 <= dt <= 31 ->
  TimeClip (MakeDay yr (m - 1) dt * msPerDay)
  = Some (MakeDay yr (m - 1) dt * msPerDay).
Proof.
  intros Hy H Hd. unfold TimeClip.
  rewrite MakeDay_month by exact H.
  pose proof (monthOffset_within yr m dt H Hd) as W.
  assert (P : 365 <= DaysInYear yr <= 366)
    by (destruct (DaysInYear_cases yr) as [[_ ->]|[_ ->]]; lia).
  assert (B : -800000 <= DayFromYear yr <= 4000000).
  { unfold DayFromYear. Z.div_mod_to_equations. lia. }
  unfold msPerDay.
  destruct (Z.leb_spec
              (Z.abs ((DayFromYear yr + monthOffset (InLeapYear yr) m + dt - 1)
                      * 86400000)) 8640000000000000); [reflexivity|lia].
Qed.

End DayArithmetic.

(** ** Dates as strings *)

Section DateStrings.
Import Js EventModel Spec.

Lemma thousands y : y < 100 * 100 -> y / 1000 < 10.
Proof. intros H. apply Nat.Div0.div_lt_upper_bound. lia. Qed.

Lemma mod10 n : n mod 10 < 10.
Proof. apply Nat.mod_upper_bound. discriminate. Qed.

Lemma fourDigits_Lang y :
  y < 100 * 100 -> Lang (Cat Digit (Cat Digit (Cat Digit Digit))) (fourDigits y).
Proof.
  intros H. unfold fourDigits.
  pose proof (proj1 (digitChar_digit _ (thousands y H))) as D1.
  pose proof (proj1 (digitChar_digit _ (mod10 (y / 100)))) as D2.
  pose proof (proj1 (digitChar_digit _ (mod10 (y / 10)))) as D3.
  pose proof (proj1 (digitChar_digit _ (mod10 y))) as D4.
  cbn [Lang Digit].
  eexists (String _ ""), _. split; [reflexivity|]. split; [eexists; eauto|].
  eexists (String _ ""), _. split; [reflexivity|]. split; [eexists; eauto|].
  eexists (String _ ""), _. split; [reflexivity|]. split; eexists; eauto.
Qed.

Lemma digits_of_year y :
  1000 * (y / 1000) + 100 * (y / 100 mod 10) + 10 * (y / 10 mod 10) + y mod 10
  = y.
Proof.
  pose proof (Nat.div_mod_eq y 10) as E1.
  pose proof (Nat.div_mod_eq (y / 10) 10) as E2.
  pose proof (Nat.div_mod_eq (y / 100) 10) as E3.
  rewrite (Nat.Div0.div_div y 10 10) in E2.
  rewrite (Nat.Div0.div_div y 100 10) in E3.
  change (10 * 10) with 100 in E2. change (100 * 10) with 1000 in E3.
  lia.
Qed.

Lemma parseInt10_fourDigits y :
  y < 100 * 100 -> parseInt10 (fourDigits y) = Z.of_nat y.
Proof.
  intros H. unfold parseInt10, fourDigits. cbn [parseDigits].
  rewrite (proj2 (digitChar_digit _ (thousands y H))).
  rewrite (proj2 (digitChar_digit _ (mod10 (y / 100)))).
  rewrite (proj2 (digitChar_digit _ (mod10 (y / 10)))).
  rewrite (proj2 (digitChar_digit _ (mod10 y))).
  pose proof (digits_of_year y). lia.
Qed.

(** The 12 x 31 months and days, checked one by one. *)
Lemma all_months_and_days_read :
  forallb (fun m => forallb (monthAndDayReads m) (seq 1 31)) (seq 1 12) = true.
Proof. vm_compute. reflexivity. Qed.

Lemma month_and_day_read m d :
  1 <= m <= 12 -> 1 <= d <= 31 -> monthAndDayReads m d = true.
Proof.
  intros Hm Hd.
  pose proof (forallb_seq (fun m => forallb (monthAndDayReads m) (seq 1 31))
                1 12 all_months_and_days_read m) as A.
  cbn beta in A. apply (forallb_seq (monthAndDayReads m) 1 31 (A ltac:(lia))).
  lia.
Qed.

Lemma monthAndDay_cons m d : exists rest, monthAndDay m d = String "-" rest.
Proof. eexists. reflexivity. Qed.

(** What the date step reads in [YYYY-MM-DD]. *)
Lemma dateMatch_isoDate y m d :
  y < 100 * 100 -> 1 <= m <= 12 -> 1 <= d <= 31 ->
  exists m1 m2 m3,
    dateMatch (isoDate y m d) = Some (isoDate y m d, m1, m2, m3)
    /\ parseInt10 m1 = Z.of_nat y
    /\ parseInt10 m2 = Z.of_nat m
    /\ parseInt10 m3 = Z.of_nat d.
Proof.
  intros Hy Hm Hd.
  pose proof (month_and_day_read m d Hm Hd) as R.
  unfold monthAndDayReads in R. rewrite !andb_true_iff in R.
  destruct R as [[[[T S1] S2] P1] P2].
  apply String.eqb_eq in S1, S2. apply Z.eqb_eq in P1, P2.
  assert (M : test dateRegex (isoDate y m d) = true).
  { apply test_Lang.
    change dateRegex
      with (Cat (Cat Digit (Cat Digit (Cat Digit Digit))) monthAndDayRegex).
    exists (fourDigits y), (monthAndDay m d).
    split; [reflexivity|]. split; [now apply fourDigits_Lang|].
    now apply test_Lang. }
  unfold dateMatch. rewrite M.
  exists (fourDigits y), (twoDigits m), (twoDigits d).
  split; [|split; [now apply parseInt10_fourDigits|split; assumption]].
  destruct (monthAndDay_cons m d) as (rest & E).
  unfold isoDate, fourDigits in *. rewrite <- S1, <- S2.
  cbn [append substring]. rewrite E. reflexivity.
Qed.

Lemma MakeFullYear_nat y :
  MakeFullYear (Z.of_nat y)
  = if 100 <=? y then Z.of_nat y else (1900 + Z.of_nat y)%Z.
Proof.
  unfold MakeFullYear.
  destruct (Nat.leb_spec 100 y);
    destruct (Z.leb_spec 0 (Z.of_nat y)), (Z.leb_spec (Z.of_nat y) 99);
    cbn [andb]; try reflexivity; lia.
Qed.

(** The date step on [YYYY-MM-DD]: it keeps the string exactly when the
    date is one of the calendar and the year is 100 or later. *)
Lemma normalizeDate_isoDate y m d :
  y < 100 * 100 -> 1 <= m <= 12 -> 1 <= d <= 31 ->
  normalizeDate (Some (isoDate y m d))
  = if (100 <=? y) && realDate y m d
    then inr (isoDate y m d) else inl invalidDate.
Proof.
  intros Hy Hm Hd.
  destruct (dateMatch_isoDate y m d Hy Hm Hd) as (m1 & m2 & m3 & M & P1 & P2 & P3).
  unfold normalizeDate. rewrite M, P1, P2, P3.
  unfold Date_UTC.
  assert (Bm : (1 <= Z.of_nat m <= 12)%Z) by lia.
  assert (Bd : (1 <= Z.of_nat d <= 31)%Z) by lia.
  assert (By : (0 <= MakeFullYear (Z.of_nat y) <= 12000)%Z).
  { rewrite MakeFullYear_nat. destruct (100 <=? y); lia. }
  rewrite (TimeClip_MakeDay _ _ _ By Bm Bd).
  cbn [getTime isNaN getUTCFullYear getUTCMonth getUTCDate option_map differs orb].
  rewrite (YearFromTime_MakeDay _ _ _ Bm Bd), (MonthFromTime_MakeDay _ _ _ Bm Bd).
  rewrite MakeFullYear_nat.
  unfold realDate.
  replace (1 <=? m) with true by (symmetry; apply Nat.leb_le; lia).
  replace (m <=? 12) with true by (symmetry; apply Nat.leb_le; lia).
  replace (1 <=? d) with true by (symmetry; apply Nat.leb_le; lia).
  cbn [andb].
  destruct (Nat.leb_spec 100 y) as [Y|Y]; cbn [andb].
  - rewrite Z.eqb_refl. cbn [negb orb].
    destruct (Z.leb_spec (Z.of_nat d) (daysInMonth (Z.of_nat y) (Z.of_nat m)))
      as [D|D].
    + rewrite Z.eqb_refl. cbn [negb orb].
      rewrite (DateFromTime_MakeDay _ _ _ Bm (conj (proj1 Bd) D)).
      now rewrite Z.eqb_refl.
    + replace (Z.of_nat m =? Z.of_nat m - 1)%Z with false
        by (symmetry; apply Z.eqb_neq; lia).
      reflexivity.
  - replace (1900 + Z.of_nat y =? Z.of_nat y)%Z with false
      by (symmetry; apply Z.eqb_neq; lia).
    reflexivity.
Qed.

Lemma fourDigits_chars a b c d :
  a < 10 -> b < 10 -> c < 10 -> d < 10 ->
  fourDigits (1000 * a + 100 * b + 10 * c + d)
  = String (digitChar a) (String (digitChar b)
      (String (digitChar c) (String (digitChar d) ""))).
Proof.
  intros Ha Hb Hc Hd. unfold fourDigits.
  set (y := 1000 * a + 100 * b + 10 * c + d).
  assert (E1 : y / 1000 = a)
    by (symmetry; apply (Nat.div_unique y 1000 a (100 * b + 10 * c + d)); lia).
  assert (E2 : y / 100 = 10 * a + b)
    by (symmetry; apply (Nat.div_unique y 100 (10 * a + b) (10 * c + d)); lia).
  assert (E3 : y / 10 = 100 * a + 10 * b + c)
    by (symmetry; apply (Nat.div_unique y 10 (100 * a + 10 * b + c) d); lia).
  assert (M2 : (10 * a + b) mod 10 = b)
    by (symmetry; apply (Nat.mod_unique (10 * a + b) 10 a b); lia).
  assert (M3 : (100 * a + 10 * b + c) mod 10 = c)
    by (symmetry; apply (Nat.mod_unique _ 10 (10 * a + b) c); lia).
  assert (M4 : y mod 10 = d)
    by (symmetry; apply (Nat.mod_unique y 10 (100 * a + 10 * b + c) d); lia).
  now rewrite E1, E2, E3, M2, M3, M4.
Qed.

(** Conversely, every string the pattern accepts is [YYYY-MM-DD] for a
    year, a month 1 to 12 and a day 1 to 31. *)
Lemma dateRegex_isoDate s :
  test dateRegex s = true ->
  exists y m d, y < 100 * 100 /\ 1 <= m <= 12 /\ 1 <= d <= 31
                /\ s = isoDate y m d.
Proof.
  intros T. apply test_Lang in T. cbn [dateRegex Lang Digit] in T.
  destruct T as (sy & r1 & -> & Y & (h1 & r2 & -> & -> & (sm & r3 & -> & M
                   & (h2 & sd & -> & -> & D)))).
  destruct Y as (? & ? & -> & (c1 & -> & R1) & (? & ? & -> & (c2 & -> & R2)
                   & (? & ? & -> & (c3 & -> & R3) & (c4 & -> & R4)))).
  destruct (digit_is_digitChar c1 R1) as (k1 & K1 & ->).
  destruct (digit_is_digitChar c2 R2) as (k2 & K2 & ->).
  destruct (digit_is_digitChar c3 R3) as (k3 & K3 & ->).
  destruct (digit_is_digitChar c4 R4) as (k4 & K4 & ->).
  assert (Month : exists m, 1 <= m <= 12 /\ sm = twoDigits m).
  { destruct M as [(? & ? & -> & -> & (c & -> & R))
                  | (? & ? & -> & -> & (c & -> & R))].
    - pose proof (inRange_bounds _ _ _ R) as B.
      change (code "1") with 49 in B. change (code "9") with 57 in B.
      destruct (digit_is_digitChar c) as (k & K & ->).
      { revert R. apply inRange_widen; cbn; lia. }
      exists (10 * 0 + k). rewrite (twoDigits_chars 0 k) by lia.
      split; [|reflexivity].
      unfold digitChar, code in B. rewrite nat_ascii_embedding in B by lia. lia.
    - pose proof (inRange_bounds _ _ _ R) as B.
      change (code "0") with 48 in B. change (code "2") with 50 in B.
      destruct (digit_is_digitChar c) as (k & K & ->).
      { revert R. apply inRange_widen; cbn; lia. }
      exists (10 * 1 + k). rewrite (twoDigits_chars 1 k) by lia.
      split; [|reflexivity].
      unfold digitChar, code in B. rewrite nat_ascii_embedding in B by lia. lia. }
  assert (Day : exists d, 1 <= d <= 31 /\ sd = twoDigits d).
  { destruct D as [(? & ? & -> & -> & (c & -> & R))
                  | [(? & ? & -> & (c0 & -> & R0) & (c & -> & R))
                    | (? & ? & -> & -> & (c & -> & R))]].
    - pose proof (inRange_bounds _ _ _ R) as B.
      change (code "1") with 49 in B. change (code "9") with 57 in B.
      destruct (digit_is_digitChar c) as (k & K & ->).
      { revert R. apply inRange_widen; cbn; lia. }
      exists (10 * 0 + k). rewrite (twoDigits_chars 0 k) by lia.
      split; [|reflexivity].
      unfold digitChar, code in B. rewrite nat_ascii_embedding in B by lia. lia.
    - pose proof (inRange_bounds _ _ _ R0) as B.
      change (code "1") with 49 in B. change (code "2") with 50 in B.
      destruct (digit_is_digitChar c0) as (k0 & K0 & ->).
      { revert R0. apply inRange_widen; cbn; lia. }
      destruct (digit_is_digitChar c R) as (k & K & ->).
      exists (10 * k0 + k). rewrite (twoDigits_chars k0 k) by lia.
      split; [|reflexivity].
      unfold digitChar, code in B. rewrite nat_ascii_embedding in B by lia. lia.
    - pose proof (inRange_bounds _ _ _ R) as B.
      change (code "0") with 48 in B. change (code "1") with 49 in B.
      destruct (digit_is_digitChar c) as (k & K & ->).
      { revert R. apply inRange_widen; cbn; lia. }
      exists (10 * 3 + k). rewrite (twoDigits_chars 3 k) by lia.
      split; [|reflexivity].
      unfold digitChar, code in B. rewrite nat_ascii_embedding in B by lia. lia. }
  destruct Month as (m & Hm & ->). destruct Day as (d & Hd & ->).
  exists (1000 * k1 + 100 * k2 + 10 * k3 + k4), m, d.
  split; [lia|]. split; [exact Hm|]. split; [exact Hd|].
  unfold isoDate, monthAndDay.
  rewrite (fourDigits_chars k1 k2 k3 k4 K1 K2 K3 K4). reflexivity.
Qed.

End DateStrings.

(** C5. For a year below 10000, a month 01 to 12 and a day 01 to 31
    written [YYYY-MM-DD] (these are the strings the pattern accepts,
    [dateRegex_isoDate]): a date that is none of the calendar is rejected
    with "Invalid date format - expected YYYY-MM-DD"; a date of the
    calendar is stored unchanged when its year is 100 or later; and a date
    of the calendar in the years 0000 to 0099 is rejected all the same,
    [Date.UTC] reading such a year as 1900 + year. *)
Theorem C5_dates_against_the_calendar :
  forall y m d : nat,
    y < 100 * 100 -> 1 <= m <= 12 -> 1 <= d <= 31 ->
    (Spec.realDate y m d = false ->
       EventModel.normalizeDate (Some (Spec.isoDate y m d))
       = inl (Js.JsError "Error" "Invalid date format - expected YYYY-MM-DD"))
    /\ (Spec.realDate y m d = true -> 100 <= y ->
          EventModel.normalizeDate (Some (Spec.isoDate y m d))
          = inr (Spec.isoDate y m d))
    /\ (Spec.realDate y m d = true -> y < 100 ->
          EventModel.normalizeDate (Some (Spec.isoDate y m d))
          = inl (Js.JsError "Error" "Invalid date format - expected YYYY-MM-DD")).
Proof.
  intros y m d Hy Hm Hd.
  rewrite (normalizeDate_isoDate y m d Hy Hm Hd).
  repeat split.
  - intros ->. now rewrite andb_false_r.
  - intros -> Y. apply Nat.leb_le in Y. now rewrite Y.
  - intros _ Y. apply Nat.leb_gt in Y. now rewrite Y.
Qed.

(** The first day of the year 50, an impossible day, a leap day. *)
Lemma C5_witness :
  Spec.realDate 50 1 1 = true
  /\ EventModel.normalizeDate (Some "0050-01-01")
     = inl (Js.JsError "Error" "Invalid date format - expected YYYY-MM-DD")
  /\ EventModel.normalizeDate (Some "2023-02-30")
     = inl (Js.JsError "Error" "Invalid date format - expected YYYY-MM-DD")
  /\ EventModel.normalizeDate (Some "2024-02-29") = inr "2024-02-29".
Proof.
  split; [reflexivity|]. split; [|split].
  - refine (proj2 (proj2 (C5_dates_against_the_calendar 50 1 1 _ _ _)) eq_refl _); lia.
  - refine (proj1 (C5_dates_against_the_calendar 2023 2 30 _ _ _) eq_refl); lia.
  - refine (proj1 (proj2 (C5_dates_against_the_calendar 2024 2 29 _ _ _)) eq_refl _); lia.
Defined.


(** The scenario through the endpoint: under cleanup the second creation
    of the same title takes the bare slug again, without it the numbered
    one. *)
Example cloud_next_twice :
  map EventModel.slug
      (Route.events
         (snd (Route.POST Scenario.testEnv Scenario.reachable
                 Scenario.cloudNextRequest Scenario.cloudNextWorld)))
  = [Some "cloud-next-2026"]
  /\ map EventModel.slug
       (Route.events
          (snd (Route.POST Scenario.productionEnv Scenario.reachable
                  Scenario.cloudNextRequest Scenario.cloudNextWorld)))
     = [Some "cloud-next-2026"; Some "cloud-next-2026-1"].
Proof. split; vm_compute; reflexivity. Qed.

(* ================================================================== *)
(** * Further properties *)
(* ================================================================== *)

(** ** The connection cache over several calls *)

Section CacheRuns.
Import Js Mongodb Spec SpecMore.

Variable uri : option string.
Hypothesis uri_set : unset uri = false.

Lemma dbConnect_cached net st h :
  conn st = Some h -> dbConnect uri net st = (inr h, st).
Proof. intros C. unfold dbConnect. now rewrite uri_set, C. Qed.

Lemma dbConnect_idle_ok net st h :
  conn st = None -> promise st = None ->
  net (uriString uri) currentOptions = inr h ->
  dbConnect uri net st
  = (inr h, mkState (Some h) (Some (inr h))
              (dials st ++ [(uriString uri, currentOptions)])%list).
Proof.
  intros C P N. unfold dbConnect, ensurePromise. now rewrite uri_set, C, P, N.
Qed.

Lemma dbConnect_idle_fail net st e :
  conn st = None -> promise st = None ->
  net (uriString uri) currentOptions = inl e ->
  exists e',
    dbConnect uri net st
    = (inl e', mkState None None
                 (dials st ++ [(uriString uri, currentOptions)])%list).
Proof.
  intros C P N. unfold dbConnect, ensurePromise. rewrite uri_set, C, P, N.
  cbn. destruct (_ && _); eexists; reflexivity.
Qed.

(** One call on a settled cache: it stays settled, and it has dialed
    exactly when it failed or made the connection. *)
Lemma dbConnect_settled net st :
  settled st ->
  let r := fst (dbConnect uri net st) in
  let st' := snd (dbConnect uri net st) in
  settled st'
  /\ List.length (dials st') + connected st
     = List.length (dials st) + (if isRet r then 0 else 1) + connected st'
  /\ (forall x, In x (dials st') ->
        In x (dials st) \/ x = (uriString uri, currentOptions)).
Proof.
  intros [[C P] | (h & C & P)]; cbn zeta.
  - destruct (net (uriString uri) currentOptions) as [e | h] eqn:N.
    + destruct (dbConnect_idle_fail net st e C P N) as (e' & ->).
      unfold connected, settled. rewrite C. cbn [fst snd conn promise dials isRet].
      split; [left; split; reflexivity|]. split.
      * rewrite length_app. cbn. lia.
      * intros x Hx. apply in_app_or in Hx. destruct Hx as [Hx | [<- | []]]; auto.
    + rewrite (dbConnect_idle_ok net st h C P N).
      unfold connected, settled. rewrite C. cbn [fst snd conn promise dials isRet].
      split; [right; exists h; split; reflexivity|]. split.
      * rewrite length_app. cbn. lia.
      * intros x Hx. apply in_app_or in Hx. destruct Hx as [Hx | [<- | []]]; auto.
  - rewrite (dbConnect_cached net st h C). cbn [fst snd isRet].
    split; [right; exists h; split; assumption|]. split; [lia|auto].
Qed.

End CacheRuns.

(** X1. Once a call of [dbConnect] has returned a connection, every
    later call returns the same connection, whatever the network does
    then, and leaves the cache and the log of dials as they are. *)
Theorem X1_connection_is_kept :
  forall (uri : option string) (net net' : Mongodb.Network)
         (st st1 : Mongodb.State) (h : Mongodb.Handle),
    Mongodb.dbConnect uri net st = (inr h, st1) ->
    Mongodb.dbConnect uri net' st1 = (inr h, st1).
Proof.
  intros uri net net' st st1 h. unfold Mongodb.dbConnect at 1.
  destruct (Mongodb.unset uri) eqn:U; [discriminate|].
  destruct (Mongodb.conn st) as [h0|] eqn:C.
  - intros [= -> <-]. unfold Mongodb.dbConnect. now rewrite U, C.
  - destruct (Mongodb.ensurePromise _ _ _ _) as [[e | h1] st2].
    + destruct (_ && _); discriminate.
    + intros [= -> <-]. unfold Mongodb.dbConnect. now rewrite U.
Qed.

(** On the idle cache and a reachable server. *)
Lemma X1_witness :
  Mongodb.dbConnect Scenario.srvUri Scenario.refusing
    (snd (Mongodb.dbConnect Scenario.srvUri Scenario.reachable Scenario.idleState))
  = (inr Scenario.liveHandle,
     snd (Mongodb.dbConnect Scenario.srvUri Scenario.reachable Scenario.idleState)).
Proof.
  exact (X1_connection_is_kept Scenario.srvUri Scenario.reachable
           Scenario.refusing Scenario.idleState _ Scenario.liveHandle eq_refl).
Defined.

(** X2. In a run of calls of [dbConnect] that starts on a settled cache,
    with the URI set, the cache is settled again at the end (empty, or a
    connection with its resolved promise: a rejected promise is never left
    behind); the calls have dialed once for each call that failed and once
    more if the run made the connection; and every dial was to the
    configured URI with [bufferCommands: false] and a server selection
    timeout of 5000 ms. *)
Theorem X2_runs_of_calls :
  forall (uri : option string) (nets : list Mongodb.Network)
         (st : Mongodb.State),
    Mongodb.unset uri = false ->
    SpecMore.settled st ->
    let rs := fst (SpecMore.calls uri nets st) in
    let st' := snd (SpecMore.calls uri nets st) in
    SpecMore.settled st'
    /\ List.length (Mongodb.dials st') + SpecMore.connected st
       = List.length (Mongodb.dials st) + SpecMore.failures rs
         + SpecMore.connected st'
    /\ (forall x, In x (Mongodb.dials st') ->
          In x (Mongodb.dials st)
          \/ x = (Mongodb.uriString uri, Mongodb.mkOptions false (Some 5000))).
Proof.
  intros uri nets st U. revert st.
  induction nets as [|net rest IH]; intros st S; cbn zeta.
  - cbn. split; [exact S|]. split; [lia|auto].
  - cbn [SpecMore.calls].
    destruct (dbConnect_settled uri U net st S) as (S1 & L1 & D1).
    destruct (Mongodb.dbConnect uri net st) as [r st1]. cbn [fst snd] in *.
    destruct (IH st1 S1) as (S2 & L2 & D2).
    destruct (SpecMore.calls uri rest st1) as [rs st2]. cbn [fst snd] in *.
    split; [exact S2|]. split.
    + unfold SpecMore.failures in *. cbn [filter].
      destruct (Spec.isRet r); cbn [negb List.length] in *; lia.
    + intros x Hx. destruct (D2 x Hx) as [H | H]; [apply D1, H|now right].
Qed.

(** A refused attempt, a second one, then a reachable server, and two
    more calls: three dials. *)
Lemma X2_witness :
  List.length
    (Mongodb.dials
       (snd (SpecMore.calls Scenario.srvUri
               [Scenario.refusing; Scenario.refusing; Scenario.reachable;
                Scenario.refusing; Scenario.reachable]
               Scenario.idleState)))
  + SpecMore.connected Scenario.idleState
  = List.length (Mongodb.dials Scenario.idleState) + 2 + 1.
Proof.
  exact (proj1 (proj2 (X2_runs_of_calls Scenario.srvUri
           [Scenario.refusing; Scenario.refusing; Scenario.reachable;
            Scenario.refusing; Scenario.reachable]
           Scenario.idleState eq_refl (or_introl (conj eq_refl eq_refl))))).
Defined.

(** ** The shape of slugs *)

Section SlugShape.
Import Js EventModel Spec SpecMore.

Lemma kept_lower_slugChar c :
  lowered c = true -> slugKeeps c = true -> isSpace c = false ->
  slugChar c = true.
Proof. each_char c; vm_compute; intros; congruence. Qed.

Lemma slugChar_facts c :
  slugChar c = true ->
  lowerChar c = c /\ isSpace c = false /\ slugKeeps c = true.
Proof. each_char c; vm_compute; intros; repeat split; congruence. Qed.

Lemma slugChar_hyphen : slugChar "-" = true.
Proof. reflexivity. Qed.

(** The hyphens of a collapsed string stand alone, and none leads when
    the run was under way. *)
Lemma collapse_hyphens_shape s : forall inRun,
  noDoubleHyphen (collapseRuns isHyphen "-" inRun s) = true
  /\ (inRun = true ->
      startsWithHyphen (collapseRuns isHyphen "-" inRun s) = false).
Proof.
  induction s as [|c s IH]; intros inRun; cbn [collapseRuns].
  - split; reflexivity.
  - destruct (isHyphen c) eqn:H.
    + destruct inRun.
      * apply IH.
      * destruct (IH true) as [N L]. split; [|discriminate].
        cbn [noDoubleHyphen]. rewrite (L eq_refl), N. reflexivity.
    + destruct (IH false) as [N _]. split.
      * cbn [noDoubleHyphen]. rewrite H, N. reflexivity.
      * intros _. cbn. exact H.
Qed.

Lemma dropLeadingHyphen_shape s :
  noDoubleHyphen s = true ->
  noDoubleHyphen (dropLeadingHyphen s) = true
  /\ startsWithHyphen (dropLeadingHyphen s) = false.
Proof.
  destruct s as [|c s]; cbn [dropLeadingHyphen noDoubleHyphen]; [auto|].
  intros N. apply andb_true_iff in N. destruct N as [D N].
  destruct (isHyphen c) eqn:H.
  - split; [exact N|]. cbn in D. now apply negb_true_iff in D.
  - split; [|exact H]. cbn [noDoubleHyphen]. now rewrite H, N.
Qed.

Lemma dropTrailingHyphen_cons c c' r :
  dropTrailingHyphen (String c (String c' r))
  = String c (dropTrailingHyphen (String c' r)).
Proof. reflexivity. Qed.

Lemma dropTrailingHyphen_starts s :
  startsWithHyphen s = false ->
  startsWithHyphen (dropTrailingHyphen s) = false.
Proof.
  destruct s as [|c [|c' r]]; [auto| |].
  - intros H. cbn in *. rewrite H. cbn. exact H.
  - rewrite dropTrailingHyphen_cons. auto.
Qed.

Lemma dropTrailingHyphen_shape s :
  noDoubleHyphen s = true ->
  noDoubleHyphen (dropTrailingHyphen s) = true
  /\ endsWithHyphen (dropTrailingHyphen s) = false.
Proof.
  induction s as [|c s IH]; [auto|].
  destruct s as [|c' r].
  - intros _. cbn. destruct (isHyphen c) eqn:H; cbn; rewrite ?H; auto.
  - intros N. cbn [noDoubleHyphen] in N. apply andb_true_iff in N.
    destruct N as [D N]. destruct (IH N) as [N' E'].
    apply negb_true_iff in D.
    rewrite dropTrailingHyphen_cons. split.
    + cbn [noDoubleHyphen]. rewrite N', andb_true_r. apply negb_true_iff.
      destruct (isHyphen c) eqn:H; [|reflexivity]. cbn [andb] in *.
      now apply dropTrailingHyphen_starts.
    + destruct (dropTrailingHyphen (String c' r)) as [|d t] eqn:T; [|exact E'].
      destruct r as [|c'' r'];
        [|rewrite dropTrailingHyphen_cons in T; discriminate].
      cbn in T, D |- *. destruct (isHyphen c'); [|discriminate].
      now rewrite andb_true_r in D.
Qed.

Lemma slugify_chars str : allChars slugChar (slugify str) = true.
Proof.
  unfold slugify.
  apply dropTrailingHyphen_allChars, dropLeadingHyphen_allChars.
  apply (collapseRuns_allChars slugChar slugChar); [reflexivity|auto|].
  apply (collapseRuns_allChars (fun c => lowered c && slugKeeps c) slugChar);
    [reflexivity| |].
  - intros c H S. apply andb_true_iff in H. destruct H as [L K].
    now apply kept_lower_slugChar.
  - apply keepOnly_allChars, trim_allChars, toLowerCase_lowered.
Qed.

Lemma slugify_shaped str : slugShaped (slugify str) = true.
Proof.
  unfold slugShaped. rewrite slugify_chars. unfold slugify.
  set (t := collapseRuns isHyphen "-" false _).
  destruct (collapse_hyphens_shape
              (collapseRuns isSpace "-" false
                 (keepOnly slugKeeps (trim (toLowerCase str)))) false) as [N _].
  fold t in N.
  destruct (dropLeadingHyphen_shape t N) as [N1 S1].
  destruct (dropTrailingHyphen_shape _ N1) as [N2 E2].
  rewrite N2, E2, (dropTrailingHyphen_starts _ S1). reflexivity.
Qed.

(** A string of that shape is left as it is by every step. *)
Lemma keepOnly_fixed K s : allChars K s = true -> keepOnly K s = s.
Proof.
  induction s as [|c s IH]; cbn; [reflexivity|].
  intros H. apply andb_true_iff in H. destruct H as [Hc Hs].
  now rewrite Hc, IH.
Qed.

Lemma collapseRuns_fixed cls rep s :
  allChars (fun c => negb (cls c)) s = true ->
  forall inRun, collapseRuns cls rep inRun s = s.
Proof.
  induction s as [|c s IH]; cbn; [reflexivity|].
  intros H inRun. apply andb_true_iff in H. destruct H as [Hc Hs].
  apply negb_true_iff in Hc. now rewrite Hc, IH.
Qed.

Lemma collapse_hyphens_fixed s :
  noDoubleHyphen s = true ->
  collapseRuns isHyphen "-" false s = s
  /\ (startsWithHyphen s = false -> collapseRuns isHyphen "-" true s = s).
Proof.
  induction s as [|c s IH]; cbn [collapseRuns noDoubleHyphen]; [auto|].
  intros N. apply andb_true_iff in N. destruct N as [D N].
  destruct (IH N) as [F T]. apply negb_true_iff in D.
  destruct (isHyphen c) eqn:H.
  - cbn in D. split; [|cbn; congruence].
    rewrite (T D). f_equal. apply Ascii.eqb_eq in H. now subst.
  - rewrite F. auto.
Qed.

Lemma dropLeadingHyphen_fixed s :
  startsWithHyphen s = false -> dropLeadingHyphen s = s.
Proof. destruct s as [|c s]; cbn; [auto|]. now intros ->. Qed.

Lemma dropTrailingHyphen_fixed s :
  endsWithHyphen s = false -> dropTrailingHyphen s = s.
Proof.
  induction s as [|c s IH]; [auto|]. destruct s as [|c' r].
  - cbn. now intros ->.
  - intros E. rewrite dropTrailingHyphen_cons, IH; [reflexivity|exact E].
Qed.

Lemma slugShaped_fixed s : slugShaped s = true -> slugify s = s.
Proof.
  unfold slugShaped. rewrite !andb_true_iff, !negb_true_iff.
  intros [[[C N] S] E].
  assert (St : allChars stable s = true).
  { apply (allChars_weaken slugChar); [|exact C].
    intros c H. destruct (slugChar_facts c H) as (L & Sp & _).
    unfold stable. now rewrite L, Ascii.eqb_refl, Sp. }
  unfold slugify, trim.
  rewrite (toLowerCase_fixed s St), (trimStart_fixed s St), (trimEnd_fixed s St).
  rewrite (keepOnly_fixed slugKeeps s)
    by (apply (allChars_weaken slugChar); [apply slugChar_facts|exact C]).
  rewrite (collapseRuns_fixed isSpace "-" s).
  2:{ apply (allChars_weaken slugChar); [|exact C].
      intros c H. destruct (slugChar_facts c H) as (_ & Sp & _). now rewrite Sp. }
  rewrite (proj1 (collapse_hyphens_fixed s N)).
  now rewrite (dropLeadingHyphen_fixed s S), (dropTrailingHyphen_fixed s E).
Qed.

End SlugShape.

(** X4. Whatever the title, its slug consists of the characters a-z,
    0-9, underscore and hyphen only, does not begin or end with a hyphen
    and has no two hyphens in a row; and the slugs are exactly the
    strings [slugify] leaves as they are, so that slugifying twice is
    slugifying once. *)
Theorem X4_slugify_shape :
  forall str : string,
    SpecMore.slugShaped (EventModel.slugify str) = true
    /\ EventModel.slugify (EventModel.slugify str) = EventModel.slugify str
    /\ (SpecMore.slugShaped str = true <-> EventModel.slugify str = str).
Proof.
  intros str. split; [apply slugify_shaped|]. split.
  - apply slugShaped_fixed, slugify_shaped.
  - split; [apply slugShaped_fixed|].
    intros E. rewrite <- E. apply slugify_shaped.
Qed.

(** ** The setters of the schemas *)

Section Setters.
Import Js EventModel Spec SpecMore.

Lemma lowerChar_space c : isSpace (lowerChar c) = isSpace c.
Proof. each_char c; reflexivity. Qed.

Lemma toLowerCase_trimStart s :
  toLowerCase (trimStart s) = trimStart (toLowerCase s).
Proof.
  induction s as [|c s IH]; [reflexivity|].
  cbn [trimStart toLowerCase]. rewrite lowerChar_space.
  destruct (isSpace c); [exact IH|reflexivity].
Qed.

Lemma toLowerCase_endStep c x :
  toLowerCase (endStep c x) = endStep (lowerChar c) (toLowerCase x).
Proof.
  destruct x as [|d x]; cbn; [|reflexivity].
  rewrite lowerChar_space. now destruct (isSpace c).
Qed.

Lemma toLowerCase_trimEnd s :
  toLowerCase (trimEnd s) = trimEnd (toLowerCase s).
Proof.
  induction s as [|c s IH]; [reflexivity|].
  cbn [toLowerCase]. rewrite !trimEnd_cons, toLowerCase_endStep. now rewrite IH.
Qed.

Lemma toLowerCase_trim s : toLowerCase (trim s) = trim (toLowerCase s).
Proof. unfold trim. now rewrite toLowerCase_trimEnd, toLowerCase_trimStart. Qed.

Lemma toLowerCase_idem s : toLowerCase (toLowerCase s) = toLowerCase s.
Proof.
  induction s as [|c s IH]; cbn; [reflexivity|].
  now rewrite lowerChar_idem, IH.
Qed.

Lemma trimStart_idem s : trimStart (trimStart s) = trimStart s.
Proof.
  induction s as [|c s IH]; [reflexivity|].
  cbn [trimStart]. destruct (isSpace c) eqn:S; [exact IH|].
  cbn [trimStart]. now rewrite S.
Qed.

Lemma trimEnd_idem s : trimEnd (trimEnd s) = trimEnd s.
Proof.
  induction s as [|c s IH]; [reflexivity|].
  rewrite trimEnd_cons.
  destruct (trimEnd s) as [|d x] eqn:T; unfold endStep.
  - destruct (isSpace c) eqn:S; [reflexivity|]. cbn. now rewrite S.
  - rewrite trimEnd_cons, IH. reflexivity.
Qed.

Lemma trim_idem s : trim (trim s) = trim s.
Proof.
  unfold trim. rewrite <- (trim_commute (trimStart s)).
  now rewrite trimStart_idem, trimEnd_idem.
Qed.

End Setters.

(** X3. The setters of the [slug] path and of the [email] path, lower
    casing and trimming, give the same value in either order, and storing
    a stored value again changes nothing. *)
Theorem X3_setters_commute_and_settle :
  forall v : string,
    EventModel.slugSetter v = BookingSchema.emailSetter v
    /\ EventModel.slugSetter (EventModel.slugSetter v) = EventModel.slugSetter v
    /\ BookingSchema.emailSetter (BookingSchema.emailSetter v)
       = BookingSchema.emailSetter v.
Proof.
  intros v. unfold EventModel.slugSetter, BookingSchema.emailSetter.
  split; [symmetry; apply toLowerCase_trim|]. split.
  - rewrite <- (toLowerCase_trim v), toLowerCase_idem.
    now rewrite <- (toLowerCase_trim (Js.trim v)), trim_idem.
  - rewrite (toLowerCase_trim v), trim_idem.
    now rewrite (toLowerCase_trim (Js.toLowerCase v)), toLowerCase_idem.
Qed.

(** ** The outcomes of [Event.create] *)

Section CreateOutcomes.
Import Js EventModel Spec SpecMore.

Lemma castString_unmodified f o k :
  isModifiedNew o k = false ->
  (k =? "agenda")%string = false -> (k =? "tags")%string = false ->
  fst (castString f o k) = None.
Proof.
  unfold isModifiedNew, castString. intros M A T.
  destruct (get o k) as [[s | l | n]|]; cbn in *; try reflexivity.
  discriminate.
Qed.




(** The hook changes the slug and the time and nothing else: the date it
    accepts is stored back as it was. *)
Lemma preValidate_frame store isModified doc doc' :
  preValidate store isModified doc = inr doc' ->
  title doc' = title doc /\ description doc' = description doc
  /\ overview doc' = overview doc /\ image doc' = image doc
  /\ venue doc' = venue doc /\ location doc' = location doc
  /\ date doc' = date doc /\ mode doc' = mode doc
  /\ audience doc' = audience doc /\ agenda doc' = agenda doc
  /\ organizer doc' = organizer doc /\ tags doc' = tags doc.
Proof.
  unfold preValidate.
  match goal with
  | |- context [if ?c then setSlug ?s doc else doc] =>
      assert (F : forall d0, d0 = (if c then setSlug s doc else doc) ->
                  title d0 = title doc /\ description d0 = description doc
                  /\ overview d0 = overview doc /\ image d0 = image doc
                  /\ venue d0 = venue doc /\ location d0 = location doc
                  /\ date d0 = date doc /\ mode d0 = mode doc
                  /\ audience d0 = audience doc /\ agenda d0 = agenda doc
                  /\ organizer d0 = organizer doc /\ tags d0 = tags doc)
        by (intros d0 ->; destruct c; repeat split);
      specialize (F _ eq_refl);
      revert F; generalize (if c then setSlug s doc else doc)
  end.
  intros d0 F.
  assert (G : forall d1 tm, (d1 = d0 \/ exists dt, date d0 = Some dt
                                                   /\ d1 = setDate dt d0) ->
              (if isModified "time"
               then t <- normalizeTime (time d1) ;; ret (setTime t d1)
               else ret d1) = inr tm ->
              title tm = title doc /\ description tm = description doc
              /\ overview tm = overview doc /\ image tm = image doc
              /\ venue tm = venue doc /\ location tm = location doc
              /\ date tm = date doc /\ mode tm = mode doc
              /\ audience tm = audience doc /\ agenda tm = agenda doc
              /\ organizer tm = organizer doc /\ tags tm = tags doc).
  { intros d1 tm D1 H.
    assert (F1 : title d1 = title doc /\ description d1 = description doc
                 /\ overview d1 = overview doc /\ image d1 = image doc
                 /\ venue d1 = venue doc /\ location d1 = location doc
                 /\ date d1 = date doc /\ mode d1 = mode doc
                 /\ audience d1 = audience doc /\ agenda d1 = agenda doc
                 /\ organizer d1 = organizer doc /\ tags d1 = tags doc).
    { destruct D1 as [-> | (dt & E & ->)]; [exact F|].
      cbn. rewrite <- E. exact F. }
    destruct (isModified "time").
    - destruct (normalizeTime (time d1)); [discriminate|].
      cbn in H. injection H as <-. exact F1.
    - injection H as <-. exact F1. }
  destruct (isModified "date").
  - destruct (normalizeDate (date d0)) as [e0 | dt] eqn:ND; [discriminate|].
    cbn [bind ret]. apply G. right. exists dt. split; [|reflexivity].
    now apply normalizeDate_ret in ND.
  - cbn [bind ret]. apply G. now left.
Qed.

Lemma failingPaths_agree d d' :
  title d = title d' -> description d = description d' ->
  overview d = overview d' -> image d = image d' -> venue d = venue d' ->
  location d = location d' -> absent (date d) = absent (date d') ->
  absent (time d) = absent (time d') -> mode d = mode d' ->
  audience d = audience d' -> agenda d = agenda d' ->
  organizer d = organizer d' -> tags d = tags d' ->
  failingPaths d = failingPaths d'.
Proof.
  intros H1 H2 H3 H4 H5 H6 H7 H8 H9 H10 H11 H12 H13.
  unfold failingPaths, requiredString.
  now rewrite H1, H2, H3, H4, H5, H6, H7, H8, H9, H10, H11, H12, H13.
Qed.

Lemma normalizeTime_present v t :
  normalizeTime v = inr t -> absent v = false.
Proof.
  unfold normalizeTime. destruct v as [[|c s]|]; cbn; try discriminate.
  reflexivity.
Qed.

(** A creation that succeeds was of an object the schema accepts. *)
Lemma create_ok_wellFormed store o d store' :
  create store o = inr (d, store') -> wellFormed o = true.
Proof.
  unfold create, wellFormed.
  pose proof (construct_date o) as Cd. pose proof (construct_time o) as Cm.
  destruct (construct o) as [doc errs]. cbn [fst] in Cd, Cm.
  destruct (preValidate store (isModifiedNew o) doc) as [e | d1] eqn:PV;
    [discriminate|].
  cbn [bind ret]. unfold validate.
  destruct (errs ++ failingPaths d1)%list eqn:V; [|discriminate].
  apply app_eq_nil in V. destruct V as [-> FP1]. intros _.
  destruct (failingPaths_nil d1 FP1) as (_ & Ad & Am).
  pose proof (preValidate_frame _ _ _ _ PV)
    as (F1 & F2 & F3 & F4 & F5 & F6 & F7 & F8 & F9 & F10 & F11 & F12).
  revert PV. unfold preValidate.
  match goal with
  | |- context [if ?c then setSlug ?s doc else doc] =>
      assert (Dd : date (if c then setSlug s doc else doc) = date doc)
        by (destruct c; reflexivity);
      assert (Dt : time (if c then setSlug s doc else doc) = time doc)
        by (destruct c; reflexivity);
      revert Dd Dt; generalize (if c then setSlug s doc else doc)
  end.
  intros d0 Dd Dt.
  destruct (isModifiedNew o "date") eqn:Md.
  2:{ intros _. exfalso. rewrite F7, Cd in Ad.
      rewrite (castString_unmodified asIs o "date" Md eq_refl eq_refl) in Ad.
      discriminate. }
  rewrite Dd. destruct (normalizeDate (date doc)) as [e0 | dt] eqn:ND;
    [discriminate|].
  cbn [bind ret]. change (time (setDate dt d0)) with (time d0). rewrite Dt.
  destruct (isModifiedNew o "time") eqn:Mm.
  - destruct (normalizeTime (time doc)) as [e0 | tm] eqn:NT; [discriminate|].
    cbn [bind ret]. intros [= <-]. cbn [isNil isRet andb].
    rewrite (failingPaths_agree doc (setTime tm (setDate dt d0))), FP1;
      auto.
    + cbn. rewrite F7 in Ad. cbn in Ad. rewrite (normalizeDate_ret _ _ ND) in *.
      reflexivity.
    + cbn. rewrite (normalizeTime_present _ _ NT).
      symmetry. apply negb_false_iff. now apply (normalizeTime_truthy _ _ NT).
  - intros [= <-]. exfalso. cbn in Am. rewrite Dt, Cm in Am.
    rewrite (castString_unmodified asIs o "time" Mm eq_refl eq_refl) in Am.
    discriminate.
Qed.


End CreateOutcomes.



(** ** The unique index as an invariant *)

Section UniqueIndex.
Import Js EventModel Route Spec SpecMore.

Lemma NoDup_snoc {A : Type} (l : list A) (x : A) :
  NoDup l -> ~ In x l -> NoDup (l ++ [x]).
Proof.
  induction l as [|a l IH]; intros N I; cbn.
  - constructor; [intros []|constructor].
  - inversion N as [|a' l' Na Nl]; subst. constructor.
    + rewrite in_app_iff. intros [H | [-> | []]]; [contradiction|].
      apply I. now left.
    + apply IH; [exact Nl|]. intros H. apply I. now right.
Qed.

Lemma insertOne_unique store d store' :
  uniqueSlugs store -> insertOne store d = inr store' -> uniqueSlugs store'.
Proof.
  unfold uniqueSlugs, insertOne. intros U.
  destruct (slug d) as [s|] eqn:S.
  - destruct (slugExists store s) eqn:X; [discriminate|]. intros [= <-].
    rewrite map_app. cbn. rewrite S. apply NoDup_snoc; [exact U|].
    intros I. apply slugExists_In in I. congruence.
  - destruct (existsb _ store) eqn:X; [discriminate|]. intros [= <-].
    rewrite map_app. cbn. rewrite S. apply NoDup_snoc; [exact U|].
    intros I. apply in_map_iff in I. destruct I as (e & Se & Ie).
    assert (T : existsb (fun e => match slug e with None => true | _ => false end)
                        store = true).
    { apply existsb_exists. exists e. split; [exact Ie|]. now rewrite Se. }
    congruence.
Qed.

Lemma insertOne_present store d store' :
  slugsPresent store -> absent (slug d) = false ->
  insertOne store d = inr store' -> slugsPresent store'.
Proof.
  unfold slugsPresent. intros P A I. apply insertOne_appends in I. subst.
  apply Forall_app. split; [exact P|]. now constructor.
Qed.

Lemma deleteOne_incl s store e : In e (deleteOne s store) -> In e store.
Proof.
  induction store as [|a rest IH]; cbn; [auto|].
  destruct (match slug a with Some s' => (s' =? s)%string | None => false end).
  - auto.
  - intros [-> | H]; auto.
Qed.

Lemma deleteOne_unique s store :
  uniqueSlugs store -> uniqueSlugs (deleteOne s store).
Proof.
  unfold uniqueSlugs. induction store as [|a rest IH]; cbn; [auto|].
  intros U. inversion U as [|x l N U']; subst.
  destruct (match slug a with Some s' => (s' =? s)%string | None => false end).
  - exact U'.
  - cbn. constructor; [|now apply IH].
    intros I. apply N. apply in_map_iff in I. destruct I as (e & Se & Ie).
    apply in_map_iff. exists e. split; [exact Se|].
    now apply deleteOne_incl in Ie.
Qed.

Lemma deleteOne_present s store :
  slugsPresent store -> slugsPresent (deleteOne s store).
Proof.
  unfold slugsPresent. rewrite !Forall_forall. intros P e I.
  apply P. now apply deleteOne_incl in I.
Qed.

(** [create] keeps both, for any object. *)
Lemma create_invariant store o d store' :
  uniqueSlugs store /\ slugsPresent store ->
  create store o = inr (d, store') ->
  uniqueSlugs store' /\ slugsPresent store'.
Proof.
  intros [U P] C.
  pose proof (create_ok_wellFormed _ _ _ _ C) as W.
  destruct (create_wellFormed store o W) as (d' & C' & S & _).
  rewrite C in C'. injection C' as <- ->.
  assert (A : absent (slug d) = false).
  { destruct (resolveSlug_first_free store
                (titleOrEmpty (fst (construct o)))) as (n & E & _).
    rewrite S, E. destruct n as [|n]; cbn.
    - unfold orElse. destruct (slugify _) eqn:B; reflexivity.
    - destruct (slugify _); reflexivity. }
  assert (I : insertOne store d = inr (store ++ [d])%list).
  { unfold insertOne. rewrite S.
    destruct (resolveSlug_first_free store
                (titleOrEmpty (fst (construct o)))) as (n & E & Free & _).
    now rewrite E, Free. }
  split; [now apply (insertOne_unique store d)|now apply (insertOne_present store d)].
Qed.

Lemma POST_invariant env net req w :
  uniqueSlugs (events w) /\ slugsPresent (events w) ->
  uniqueSlugs (events (snd (POST env net req w)))
  /\ slugsPresent (events (snd (POST env net req w))).
Proof.
  intros [U P].
  assert (B : uniqueSlugs (beforeCreate env (events w))
              /\ slugsPresent (beforeCreate env (events w))).
  { unfold beforeCreate. destruct (cleanupEnabled env); [|auto].
    split; [now apply deleteOne_unique|now apply deleteOne_present]. }
  destruct (POST_events env net req w)
    as [-> | (h & db' & entries & _ & _ & [-> | (d & C & _)])]; auto.
  now apply (create_invariant _ _ _ _ B C).
Qed.

End UniqueIndex.

(** X6. The endpoint keeps the unique index: over any run of requests,
    each with its own state of the network, on a collection in which no
    two documents share a slug and none is without one, the collection at
    the end is such a collection again, with or without the cleanup. *)
Theorem X6_requests_keep_slugs_unique :
  forall (env : Route.Env)
         (reqs : list (Mongodb.Network * Route.Request)) (w : Route.World),
    Spec.uniqueSlugs (Route.events w) ->
    SpecMore.slugsPresent (Route.events w) ->
    Spec.uniqueSlugs (Route.events (snd (SpecMore.serve env reqs w)))
    /\ SpecMore.slugsPresent (Route.events (snd (SpecMore.serve env reqs w))).
Proof.
  intros env reqs. induction reqs as [|[net req] rest IH]; intros w U P.
  - cbn. auto.
  - cbn [SpecMore.serve].
    destruct (POST_invariant env net req w (conj U P)) as [U1 P1].
    destruct (Route.POST env net req w) as [resp w1]. cbn [snd] in U1, P1.
    destruct (IH w1 U1 P1) as [U2 P2].
    destruct (SpecMore.serve env rest w1) as [resps w2]. cbn [snd] in *. auto.
Qed.

(** The scenario's request three times on the empty collection. *)
Lemma X6_witness :
  Spec.uniqueSlugs
    (Route.events
       (snd (SpecMore.serve Scenario.productionEnv
               [(Scenario.reachable, Scenario.cloudNextRequest);
                (Scenario.refusing, Scenario.cloudNextRequest);
                (Scenario.reachable, Scenario.cloudNextRequest)]
               (Route.mkWorld Scenario.idleState [])))).
Proof.
  refine (proj1 (X6_requests_keep_slugs_unique Scenario.productionEnv
                   [(Scenario.reachable, Scenario.cloudNextRequest);
                    (Scenario.refusing, Scenario.cloudNextRequest);
                    (Scenario.reachable, Scenario.cloudNextRequest)]
                   (Route.mkWorld Scenario.idleState []) _ _)).
  - constructor.
  - constructor.
Defined.

(** ** What the hooks leave alone *)

Section HookFrame.
Import Js EventModel Spec SpecMore.

Lemma preSave_prev_frame isModified doc doc' :
  preSave_prev isModified doc = inr doc' ->
  keepsOtherFields doc doc'
  /\ (isModified "title" = false -> slug doc' = slug doc)
  /\ (isModified "time" = false -> time doc' = time doc).
Proof.
  unfold preSave_prev, keepsOtherFields.
  destruct (isModified "title"); [destruct (title doc) as [t|] eqn:T|];
    cbn [bind ret throw]; try discriminate;
    (destruct (isModified "date");
     [destruct (date doc) as [dt|] eqn:D; cbn [date setSlug];
      rewrite ?D; cbn [bind ret throw]; try discriminate;
      destruct (normalizeDate (Some dt)) as [e | dt'] eqn:ND;
      cbn [bind ret throw]; try discriminate;
      apply normalizeDate_ret in ND; injection ND as <-|];
     cbn [bind ret throw];
     (destruct (isModified "time");
      [cbn [time setSlug setDate];
       destruct (normalizeTime (time doc)) as [e | tm];
       cbn [bind ret throw]; try discriminate|]);
     intros [= <-]; cbn; rewrite ?T, ?D;
     repeat split; try reflexivity; try discriminate).
Qed.

Lemma preValidate_slug_time store isModified doc doc' :
  preValidate store isModified doc = inr doc' ->
  (isModified "title" = false -> absent (slug doc) = false ->
   slug doc' = slug doc)
  /\ (isModified "time" = false -> time doc' = time doc).
Proof.
  unfold preValidate.
  destruct (isModified "title"), (absent (slug doc)); cbn [orb];
    (destruct (isModified "date");
     [cbn [date setSlug];
      destruct (normalizeDate (date doc)) as [e | dt'];
      cbn [bind ret throw]; try discriminate|];
     cbn [bind ret throw];
     (destruct (isModified "time");
      [cbn [time setSlug setDate];
       destruct (normalizeTime (time doc)) as [e | tm];
       cbn [bind ret throw]; try discriminate|]);
     intros [= <-]; cbn;
     repeat split; try reflexivity; try discriminate).
Qed.

End HookFrame.

(** X7. Of a document's fields, the hooks of both revisions of the event
    model write the slug and the time only: every other field, the date
    among them, leaves the hook as it came.  The time is written only when
    it was modified; the slug only when the title was modified or, in the
    current revision, when the document has no slug. *)
Theorem X7_hooks_write_slug_and_time_only :
  forall (store : EventModel.Store) (isModified : string -> bool)
         (doc doc' : EventModel.EventDoc),
    (EventModel.preValidate store isModified doc = inr doc' ->
       SpecMore.keepsOtherFields doc doc'
       /\ (isModified "title" = false ->
           EventModel.absent (EventModel.slug doc) = false ->
           EventModel.slug doc' = EventModel.slug doc)
       /\ (isModified "time" = false ->
           EventModel.time doc' = EventModel.time doc))
    /\ (EventModel.preSave_prev isModified doc = inr doc' ->
          SpecMore.keepsOtherFields doc doc'
          /\ (isModified "title" = false ->
              EventModel.slug doc' = EventModel.slug doc)
          /\ (isModified "time" = false ->
              EventModel.time doc' = EventModel.time doc)).
Proof.
  intros store isModified doc doc'. split.
  - intros H. split.
    + exact (preValidate_frame store isModified doc doc' H).
    + exact (preValidate_slug_time store isModified doc doc' H).
  - exact (preSave_prev_frame isModified doc doc').
Qed.

(** The scenario's document with a quarter past nine, all of it new. *)
Lemma X7_witness :
  SpecMore.keepsOtherFields
    (fst (EventModel.construct Scenario.cloudNext_9_05))
    (EventModel.setTime "09:05"
       (EventModel.setSlug "cloud-next-2026"
          (fst (EventModel.construct Scenario.cloudNext_9_05)))).
Proof.
  refine (proj1 (proj1 (X7_hooks_write_slug_and_time_only []
                          (fun _ => true)
                          (fst (EventModel.construct Scenario.cloudNext_9_05))
                          _) _)).
  vm_compute. reflexivity.
Defined.

(** ** The forms the hooks accept *)

Section AcceptedForms.
Import Js EventModel Spec SpecMore.

Lemma twoDigits_length n : n < 100 -> String.length (twoDigits n) = 2.
Proof.
  intros H.
  assert (E : n = 10 * (n / 10) + n mod 10) by apply Nat.div_mod_eq.
  rewrite E. rewrite twoDigits_chars; [reflexivity| |].
  - apply Nat.Div0.div_lt_upper_bound. lia.
  - apply Nat.mod_upper_bound. lia.
Qed.

Lemma paddedTime_length h m :
  h < 24 -> m < 60 -> String.length (paddedTime h m) = 5.
Proof.
  intros H M. unfold paddedTime.
  rewrite append_length, twoDigits_length by lia.
  cbn [String.append String.length].
  rewrite twoDigits_length by lia. reflexivity.
Qed.

Lemma normalizeTime_timeString v :
  normalizeTime v = normalizeTime (Some (timeString v)).
Proof. reflexivity. Qed.

Lemma normalizeTime_tested v t :
  normalizeTime v = inr t -> test timeRegex (timeString v) = true.
Proof.
  unfold normalizeTime. destruct (test timeRegex (timeString v)); [reflexivity|].
  discriminate.
Qed.

Lemma daysInMonth_le y m : (daysInMonth y m <= 31)%Z.
Proof.
  unfold daysInMonth.
  destruct m as [|p|p]; try lia.
  repeat (destruct p as [p|p|]; try lia); destruct (InLeapYear y); lia.
Qed.

Lemma realDate_ranges y m d :
  realDate y m d = true -> 1 <= m <= 12 /\ 1 <= d <= 31.
Proof.
  unfold realDate. rewrite !andb_true_iff, !Nat.leb_le, Z.leb_le.
  pose proof (daysInMonth_le (Z.of_nat y) (Z.of_nat m)). lia.
Qed.

End AcceptedForms.

(** X8. What the time step returns is in canonical form whatever it was
    given: five characters, two digits of an hour below 24, a colon and
    two digits of a minute below 60; and the step returns its own results
    unchanged, so that saving a document again leaves its time alone. *)
Theorem X8_normalized_time_is_canonical :
  forall (v : option string) (t : string),
    EventModel.normalizeTime v = inr t ->
    (exists h m, h < 24 /\ m < 60 /\ t = Spec.paddedTime h m)
    /\ String.length t = 5
    /\ EventModel.normalizeTime (Some t) = inr t.
Proof.
  intros v t H.
  pose proof (normalizeTime_tested v t H) as T.
  destruct (timeRegex_times _ T) as (h & m & Hh & Hm & S).
  destruct (valid_time_normalized h m Hh Hm) as [N1 N2].
  assert (E : t = Spec.paddedTime h m).
  { rewrite normalizeTime_timeString in H.
    destruct S as [S | S]; rewrite S in H; congruence. }
  subst t. split; [|split].
  - exists h, m. auto.
  - now apply paddedTime_length.
  - exact N2.
Qed.

(** Seven minutes past nine, given with one digit for the hour. *)
Lemma X8_witness :
  (exists h m, h < 24 /\ m < 60 /\ "09:07" = Spec.paddedTime h m)
  /\ String.length "09:07" = 5
  /\ EventModel.normalizeTime (Some "09:07") = inr "09:07".
Proof.
  apply (X8_normalized_time_is_canonical (Some "9:07") "09:07").
  vm_compute. reflexivity.
Defined.

(** X9. The date step accepts exactly the strings [YYYY-MM-DD] that name
    a day of the calendar in a year from 0100 to 9999, and returns them as
    they are: a missing date, any other spelling, a day the month does not
    have and the years before 0100 are all refused. *)
Theorem X9_accepted_dates :
  forall (v : option string) (s : string),
    EventModel.normalizeDate v = inr s
    <-> v = Some s
        /\ exists y m d,
             100 <= y < 100 * 100 /\ Spec.realDate y m d = true
             /\ s = Spec.isoDate y m d.
Proof.
  intros v s. split.
  - intros H. pose proof (normalizeDate_ret v s H) as ->.
    split; [reflexivity|].
    assert (T : Js.test EventModel.dateRegex s = true).
    { unfold EventModel.normalizeDate, EventModel.dateMatch in H.
      destruct (Js.test EventModel.dateRegex s); [reflexivity|discriminate]. }
    destruct (dateRegex_isoDate s T) as (y & m & d & Hy & Hm & Hd & ->).
    rewrite (normalizeDate_isoDate y m d Hy Hm Hd) in H.
    destruct (100 <=? y) eqn:Y; cbn [andb] in H; [|discriminate].
    destruct (Spec.realDate y m d) eqn:R; [|discriminate].
    apply Nat.leb_le in Y. exists y, m, d. auto.
  - intros (-> & y & m & d & [Y1 Y2] & R & ->).
    destruct (realDate_ranges y m d R) as [Hm Hd].
    rewrite (normalizeDate_isoDate y m d Y2 Hm Hd), R.
    apply Nat.leb_le in Y1. now rewrite Y1.
Qed.

(** ** Coerced lists *)

Section CoercedLists.
Import Js Route Spec SpecMore.

Variable sep : ascii.
Hypothesis sep_no_space : isSpace sep = false.

Lemma split_segments s : Forall (fun x => allChars (notChar sep) x = true) (split sep s).
Proof.
  induction s as [|c s IH]; [repeat constructor|].
  rewrite split_cons. destruct (c =? sep)%char eqn:E.
  - constructor; [reflexivity|exact IH].
  - destruct (split sep s) as [|h t].
    + repeat constructor. cbn. unfold notChar. now rewrite E.
    + inversion IH as [|x l Hh Ht]; subst. constructor; [|exact Ht].
      cbn. unfold notChar at 1. now rewrite E.
Qed.

Lemma allSpace_trimStart s : allChars isSpace s = true -> trimStart s = "".
Proof.
  induction s as [|c s IH]; [reflexivity|].
  cbn. destruct (isSpace c); [exact IH|discriminate].
Qed.

Lemma trimStart_allSpace s :
  allChars isSpace (trimStart s) = true -> allChars isSpace s = true.
Proof.
  induction s as [|c s IH]; [reflexivity|].
  cbn [trimStart]. destruct (isSpace c) eqn:S.
  - intros H. cbn. now rewrite S, IH.
  - auto.
Qed.

Lemma trim_empty_iff s : trim s = "" <-> allChars isSpace s = true.
Proof.
  unfold trim. split.
  - intros H. now apply trimStart_allSpace, allSpace_trimEnd.
  - intros H. now rewrite allSpace_trimStart.
Qed.

Lemma blank_segments s :
  Forall (fun x => trim x = "") (split sep s)
  <-> allChars (fun c => isSpace c || (c =? sep)%char) s = true.
Proof.
  induction s as [|c s IH].
  - cbn. split; [reflexivity|]. intros _. now repeat constructor.
  - rewrite split_cons. cbn [allChars]. destruct (c =? sep)%char eqn:E.
    + rewrite orb_true_r. cbn [andb]. rewrite <- IH. split.
      * intros H. now inversion H.
      * intros H. now constructor.
    + rewrite orb_false_r.
      destruct (split sep s) as [|h t] eqn:Sp; [now apply split_not_nil in Sp|].
      rewrite andb_true_iff, <- IH. split.
      * intros H. inversion H as [|x l Hh Ht]; subst.
        apply trim_empty_iff in Hh. cbn in Hh. apply andb_true_iff in Hh.
        destruct Hh as [Sc Sh]. split; [exact Sc|].
        constructor; [now apply trim_empty_iff|exact Ht].
      * intros [Sc H]. inversion H as [|x l Hh Ht]; subst.
        constructor; [|exact Ht].
        apply trim_empty_iff. cbn. rewrite Sc. now apply trim_empty_iff.
Qed.

Lemma split_one x : allChars (notChar sep) x = true -> split sep x = [x].
Proof.
  induction x as [|c x IH]; [reflexivity|].
  cbn [allChars]. rewrite andb_true_iff. intros [N A].
  rewrite split_cons, (IH A). unfold notChar in N.
  now destruct (c =? sep)%char.
Qed.

Lemma split_app x r :
  allChars (notChar sep) x = true ->
  split sep (x ++ String sep r) = x :: split sep r.
Proof.
  induction x as [|c x IH].
  - intros _. cbn [String.append]. rewrite split_cons.
    now rewrite Ascii.eqb_refl.
  - cbn [allChars]. rewrite andb_true_iff. intros [N A].
    cbn [String.append]. rewrite split_cons, (IH A). unfold notChar in N.
    now destruct (c =? sep)%char.
Qed.

(** Joining with the separator, or with the separator and a space, and
    splitting again gives the items back, up to trimming. *)
Lemma split_concat l :
  l <> [] -> Forall (fun x => allChars (notChar sep) x = true) l ->
  split sep (String.concat (String sep "") l) = l.
Proof.
  induction l as [|x l IH]; [congruence|]. intros _ F.
  inversion F as [|x' l' Hx Hl]; subst.
  destruct l as [|y l]; [now apply split_one|].
  change (String.concat (String sep "") (x :: y :: l))
    with (x ++ String sep (String.concat (String sep "") (y :: l)))%string.
  rewrite (split_app x _ Hx), IH; [reflexivity|discriminate|exact Hl].
Qed.

Lemma split_concat_space l :
  l <> [] -> Forall (fun x => allChars (notChar sep) x = true) l ->
  map trim (split sep (String.concat (String sep " ") l)) = map trim l.
Proof.
  induction l as [|x l IH]; [congruence|]. intros _ F.
  inversion F as [|x' l' Hx Hl]; subst.
  destruct l as [|y l]; [cbn [String.concat]; now rewrite split_one|].
  change (String.concat (String sep " ") (x :: y :: l))
    with (x ++ String sep
               (String " " (String.concat (String sep " ") (y :: l))))%string.
  rewrite (split_app x _ Hx). cbn [map]. f_equal.
  rewrite split_cons.
  assert (E : (" " =? sep)%char = false) by now apply space_not_sep.
  rewrite E.
  assert (IH' := IH ltac:(discriminate) Hl).
  destruct (split sep (String.concat (String sep " ") (y :: l))) as [|h t] eqn:Sp;
    [now apply split_not_nil in Sp|].
  cbn [map] in *. rewrite <- IH'. reflexivity.
Qed.

End CoercedLists.

Section CoercedItems.
Import Js Route Spec SpecMore.

Lemma truthy_false s : truthy s = false <-> s = "".
Proof. destruct s; cbn; split; congruence. Qed.

Lemma filter_truthy_nil l :
  filter truthy (map trim l) = [] <-> Forall (fun x => trim x = "") l.
Proof.
  induction l as [|x l IH]; cbn [map filter].
  - split; [constructor|reflexivity].
  - destruct (truthy (trim x)) eqn:T.
    + split; [discriminate|]. intros H. inversion H as [|y l' Hx Hl]; subst.
      rewrite Hx in T. discriminate.
    + apply truthy_false in T. rewrite IH. split.
      * intros H. now constructor.
      * intros H. now inversion H.
Qed.

Lemma coerceList_clean value :
  Forall (fun x => cleanItem x = true) (coerceList value).
Proof.
  rewrite coerceList_splitTrimDrop. unfold splitTrimDrop.
  apply Forall_forall. intros x I.
  apply filter_In in I. destruct I as [I T].
  apply in_map_iff in I. destruct I as (s & <- & I).
  pose proof (split_segments "," value) as F.
  rewrite Forall_forall in F. specialize (F s I).
  unfold cleanItem. rewrite T, trim_idem, String.eqb_refl. cbn [andb].
  now apply trim_allChars.
Qed.

Lemma clean_filter l :
  Forall (fun x => cleanItem x = true) l -> filter truthy (map trim l) = l.
Proof.
  induction l as [|x l IH]; [reflexivity|].
  intros F. inversion F as [|y l' Hx Hl]; subst.
  unfold cleanItem in Hx. rewrite !andb_true_iff in Hx.
  destruct Hx as [[T E] _]. apply String.eqb_eq in E.
  cbn [map filter]. rewrite E, T, (IH Hl). reflexivity.
Qed.

Lemma clean_notComma l :
  Forall (fun x => cleanItem x = true) l ->
  Forall (fun x => allChars notComma x = true) l.
Proof.
  apply Forall_impl. intros x. unfold cleanItem. rewrite !andb_true_iff. tauto.
Qed.

Lemma coerceList_join l :
  Forall (fun x => allChars notComma x = true) l ->
  coerceList (String.concat "," l) = filter truthy (map trim l)
  /\ coerceList (String.concat ", " l) = filter truthy (map trim l).
Proof.
  intros F. rewrite !coerceList_splitTrimDrop. unfold splitTrimDrop.
  destruct l as [|x l]; [split; reflexivity|]. split.
  - rewrite (split_concat "," (x :: l)); [reflexivity|discriminate|exact F].
  - rewrite (split_concat_space "," eq_refl (x :: l));
      [reflexivity|discriminate|exact F].
Qed.

End CoercedItems.

(** X10. Every item of a coerced list is non-empty, trimmed and without
    comma, whatever the string was; and the list is empty exactly when
    the string consists of white space and commas only. *)
Theorem X10_coerced_items_are_clean :
  forall value : string,
    Forall (fun x => SpecMore.cleanItem x = true) (Route.coerceList value)
    /\ (Route.coerceList value = []
        <-> Spec.allChars SpecMore.blankOrComma value = true).
Proof.
  intros value. split; [apply coerceList_clean|].
  rewrite coerceList_splitTrimDrop. unfold Spec.splitTrimDrop.
  rewrite filter_truthy_nil. apply (blank_segments "," value).
Qed.

(** X11. The coercion undoes a join: of items without comma, joined by a
    comma or by a comma and a space, it gives back the trimmed non-empty
    ones, in order; so it gives back its own results as they are, and
    coercing a joined coerced list changes nothing. *)
Theorem X11_coercion_undoes_join :
  forall l : list string,
    Forall (fun x => Spec.allChars SpecMore.notComma x = true) l ->
    Route.coerceList (String.concat "," l) = filter Js.truthy (map Js.trim l)
    /\ Route.coerceList (String.concat ", " l)
       = filter Js.truthy (map Js.trim l)
    /\ (forall value, l = Route.coerceList value ->
          Route.coerceList (String.concat "," l) = l
          /\ Route.coerceList (String.concat ", " l) = l).
Proof.
  intros l F. destruct (coerceList_join l F) as [J1 J2].
  split; [exact J1|]. split; [exact J2|].
  intros value ->. rewrite J1, J2.
  now rewrite (clean_filter _ (coerceList_clean value)).
Qed.

(** Three items, one of them blank and one padded. *)
Lemma X11_witness :
  Route.coerceList (String.concat "," ["Keynote"; "  "; " Workshops "])
  = ["Keynote"; "Workshops"]
  /\ Route.coerceList (String.concat ", " ["Keynote"; "  "; " Workshops "])
     = ["Keynote"; "Workshops"].
Proof.
  destruct (X11_coercion_undoes_join ["Keynote"; "  "; " Workshops "])
    as (J1 & J2 & _).
  - repeat constructor.
  - split; [exact J1|exact J2].
Defined.

(** ** The status of a response *)

Section Statuses.
Import Js EventModel Route Spec SpecMore.





End Statuses.



(** ** Patterns with repetition *)

Section Repetition.
Import Js Rx.

Lemma append_empty (s1 s2 : string) :
  (s1 ++ s2)%string = "" -> s1 = "" /\ s2 = "".
Proof. destruct s1; cbn; [auto|discriminate]. Qed.

Lemma rx_nullable_Lang r : nullable r = true <-> Lang r "".
Proof.
  split.
  - induction r as [| |p|a IHa b IHb|a IHa b IHb|a IHa]; cbn; try discriminate.
    + intros _. constructor.
    + rewrite andb_true_iff. intros [Ha Hb].
      change ""%string with ("" ++ "")%string. constructor; auto.
    + rewrite orb_true_iff. intros [H | H];
        [apply LOrL | apply LOrR]; auto.
    + intros _. constructor.
  - intros H. remember ""%string as s eqn:E.
    induction H as [|p c P|a b s1 s2 Ha IHa Hb IHb|a b s Ha IHa|a b s Hb IHb
                   |a|a s1 s2 Ha IHa Hs IHs]; cbn; try reflexivity.
    + discriminate.
    + apply append_empty in E. destruct E as [-> ->].
      now rewrite IHa, IHb.
    + now rewrite IHa.
    + rewrite IHb by exact E. apply orb_true_r.
Qed.

Lemma rx_deriv_sound c r : forall s, Lang (deriv c r) s -> Lang r (String c s).
Proof.
  induction r as [| |p|a IHa b IHb|a IHa b IHb|a IHa]; cbn; intros s H.
  - inversion H.
  - inversion H.
  - destruct (p c) eqn:P; inversion H; subst. now constructor.
  - assert (S : forall t, Lang (Seq (deriv c a) b) t -> Lang (Seq a b) (String c t)).
    { intros t Ht. inversion Ht as [| |a' b' s1 s2 H1 H2| | | |]; subst.
      change (String c (s1 ++ s2)) with (String c s1 ++ s2)%string.
      constructor; auto. }
    destruct (nullable a) eqn:N; [|now apply S].
    inversion H as [| | |a' b' s' H1|a' b' s' H1| |]; subst; [now apply S|].
    change (String c s) with ("" ++ String c s)%string.
    constructor; [now apply rx_nullable_Lang|auto].
  - inversion H; subst; [apply LOrL | apply LOrR]; auto.
  - inversion H as [| |a' b' s1 s2 H1 H2| | | |]; subst.
    change (String c (s1 ++ s2)) with (String c s1 ++ s2)%string.
    constructor; auto.
Qed.

Lemma rx_deriv_complete r t :
  Lang r t -> forall c s, t = String c s -> Lang (deriv c r) s.
Proof.
  intros H.
  induction H as [|p c0 P|a b s1 s2 Ha IHa Hb IHb|a b s0 Ha IHa|a b s0 Hb IHb
                 |a|a s1 s2 Ha IHa Hs IHs]; intros c s E.
  - discriminate.
  - injection E as <- <-. cbn. rewrite P. constructor.
  - cbn [deriv]. destruct s1 as [|c1 s1].
    + cbn in E. apply rx_nullable_Lang in Ha. rewrite Ha.
      apply LOrR. now apply IHb.
    + cbn in E. injection E as -> <-.
      assert (L : Lang (Seq (deriv c a) b) (s1 ++ s2)).
      { constructor; [now apply IHa|exact Hb]. }
      destruct (nullable a); [now apply LOrL|exact L].
  - cbn. apply LOrL. now apply IHa.
  - cbn. apply LOrR. now apply IHb.
  - discriminate.
  - destruct s1 as [|c1 s1].
    + cbn in E. now apply IHs.
    + cbn in E. injection E as -> <-. cbn [deriv].
      constructor; [now apply IHa|exact Hs].
Qed.

Lemma rx_test_Lang s : forall r, test r s = true <-> Lang r s.
Proof.
  induction s as [|c s IH]; intros r; cbn [test].
  - apply rx_nullable_Lang.
  - rewrite IH. split.
    + apply rx_deriv_sound.
    + intros H. now apply (rx_deriv_complete r (String c s)).
Qed.

(** [[p]*] and [[p]+] *)
Lemma Lang_Star_Class p s :
  Lang (Star (Class p)) s <-> Spec.allChars p s = true.
Proof.
  split.
  - intros H. remember (Star (Class p)) as r eqn:R.
    induction H as [|p0 c P|a b s1 s2 Ha IHa Hb IHb|a b s0 Ha IHa|a b s0 Hb IHb
                   |a|a s1 s2 Ha IHa Hs IHs]; try discriminate.
    + reflexivity.
    + injection R as ->. inversion Ha as [|p0 c P| | | | |]; subst.
      cbn. rewrite P. now apply IHs.
  - induction s as [|c s IH]; cbn.
    + intros _. constructor.
    + rewrite andb_true_iff. intros [P A].
      change (String c s) with (String c "" ++ s)%string.
      constructor; [now constructor|auto].
Qed.

Lemma Lang_Plus_Class p s :
  Lang (Plus (Class p)) s <-> truthy s = true /\ Spec.allChars p s = true.
Proof.
  unfold Plus. split.
  - intros H. inversion H as [| |a b s1 s2 H1 H2| | | |]; subst.
    inversion H1 as [|p0 c P| | | | |]; subst.
    apply Lang_Star_Class in H2. cbn. now rewrite P, H2.
  - destruct s as [|c s]; cbn; [intros [? _]; discriminate|].
    rewrite andb_true_iff. intros [_ [P A]].
    change (String c s) with (String c "" ++ s)%string.
    constructor; [now constructor|now apply Lang_Star_Class].
Qed.

Lemma Lang_Seq a b s :
  Lang (Seq a b) s <-> exists s1 s2, s = (s1 ++ s2)%string /\ Lang a s1 /\ Lang b s2.
Proof.
  split.
  - intros H. inversion H as [| |a' b' s1 s2 H1 H2| | | |]; subst.
    exists s1, s2. auto.
  - intros (s1 & s2 & -> & H1 & H2). now constructor.
Qed.

Lemma Lang_Class p s :
  Lang (Class p) s <-> exists c, s = String c "" /\ p c = true.
Proof.
  split.
  - intros H. inversion H; subst. eauto.
  - intros (c & -> & P). now constructor.
Qed.

Lemma deriv_blindTo f c r :
  blindTo f r -> deriv (f c) r = deriv c r /\ blindTo f (deriv c r).
Proof.
  induction r as [| |p|a IHa b IHb|a IHa b IHb|a IHa]; cbn; intros B.
  - auto.
  - auto.
  - rewrite B. destruct (p c); cbn; auto.
  - destruct B as [Ba Bb].
    destruct (IHa Ba) as [Ea Da], (IHb Bb) as [Eb Db].
    rewrite Ea, Eb. destruct (nullable a); cbn; auto.
  - destruct B as [Ba Bb].
    destruct (IHa Ba) as [Ea Da], (IHb Bb) as [Eb Db].
    rewrite Ea, Eb. cbn. auto.
  - destruct (IHa B) as [Ea Da]. rewrite Ea. cbn. auto.
Qed.

(** Such a pattern cannot tell a string from its lower-cased form. *)
Lemma test_toLowerCase s : forall r,
  blindTo lowerChar r -> test r (toLowerCase s) = test r s.
Proof.
  induction s as [|c s IH]; intros r B; [reflexivity|].
  cbn [test toLowerCase]. destruct (deriv_blindTo lowerChar c r B) as [E D].
  rewrite E. now apply IH.
Qed.

End Repetition.

Section Addresses.
Import Js BookingSchema SpecMore.

Lemma lowerChar_notSpaceOrAt c : notSpaceOrAt (lowerChar c) = notSpaceOrAt c.
Proof. each_char c; vm_compute; reflexivity. Qed.

Lemma lowerChar_isAt c : isAt (lowerChar c) = isAt c.
Proof. each_char c; vm_compute; reflexivity. Qed.

Lemma lowerChar_isDot c : isDot (lowerChar c) = isDot c.
Proof. each_char c; vm_compute; reflexivity. Qed.

Lemma emailRegex_blind : Rx.blindTo lowerChar emailRegex.
Proof.
  unfold emailRegex, Rx.Plus. cbn.
  pose proof lowerChar_notSpaceOrAt. pose proof lowerChar_isAt.
  pose proof lowerChar_isDot. tauto.
Qed.

End Addresses.

(** X13. The validator of the [email] path accepts exactly the strings
    [a@b.c] whose three parts are not empty and hold neither white space
    nor [@]: one [@] in all, and after it a dot with something on either
    side. *)
Theorem X13_accepted_addresses :
  forall email : string,
    BookingSchema.emailValidator email = true
    <-> exists a b c,
          email = (a ++ "@" ++ b ++ "." ++ c)%string
          /\ SpecMore.emailPart a = true
          /\ SpecMore.emailPart b = true
          /\ SpecMore.emailPart c = true.
Proof.
  intros email. unfold BookingSchema.emailValidator, SpecMore.emailPart.
  rewrite rx_test_Lang. unfold BookingSchema.emailRegex.
  rewrite Lang_Seq. split.
  - intros (a & r1 & -> & Ha & H1).
    apply Lang_Seq in H1. destruct H1 as (x & r2 & -> & Hx & H2).
    apply Lang_Seq in H2. destruct H2 as (b & r3 & -> & Hb & H3).
    apply Lang_Seq in H3. destruct H3 as (y & c & -> & Hy & Hc).
    apply Lang_Class in Hx. destruct Hx as (cx & -> & Px).
    apply Lang_Class in Hy. destruct Hy as (cy & -> & Py).
    apply Ascii.eqb_eq in Px, Py. subst cx cy.
    apply Lang_Plus_Class in Ha, Hb, Hc.
    exists a, b, c. rewrite !andb_true_iff. tauto.
  - intros (a & b & c & -> & Ha & Hb & Hc).
    rewrite andb_true_iff in Ha, Hb, Hc.
    exists a, ("@" ++ b ++ "." ++ c)%string. split; [reflexivity|].
    split; [now apply Lang_Plus_Class|].
    apply Lang_Seq. exists "@"%string, (b ++ "." ++ c)%string.
    split; [reflexivity|]. split; [now constructor|].
    apply Lang_Seq. exists b, ("." ++ c)%string.
    split; [reflexivity|]. split; [now apply Lang_Plus_Class|].
    apply Lang_Seq. exists "."%string, c.
    split; [reflexivity|]. split; [now constructor|].
    now apply Lang_Plus_Class.
Qed.

(** X14. Lower casing never changes the validator's verdict: the value
    the setters store is accepted exactly when the trimmed value is. *)
Theorem X14_lower_casing_keeps_the_verdict :
  forall v : string,
    BookingSchema.emailValidator (Js.toLowerCase v)
    = BookingSchema.emailValidator v
    /\ BookingSchema.emailValidator (BookingSchema.emailSetter v)
       = BookingSchema.emailValidator (Js.trim v).
Proof.
  intros v. unfold BookingSchema.emailValidator, BookingSchema.emailSetter.
  split.
  - apply test_toLowerCase, emailRegex_blind.
  - apply test_toLowerCase, emailRegex_blind.
Qed.

(** ** The two revisions of the event model *)

Section Revisions.
Import Js EventModel Spec SpecMore.

Lemma truthy_orElse t d : truthy t = true -> orElse t d = t.
Proof. unfold orElse. now intros ->. Qed.

Lemma slugify_truthy t : truthy (slugify t) = true -> truthy t = true.
Proof. destruct t; [vm_compute; discriminate|reflexivity]. Qed.

Lemma slugSetter_slugify t : slugSetter (slugify t) = slugify t.
Proof. apply slugSetter_fixed, slugify_stable. Qed.

(** The slug step of the current hook on a title whose slug is not empty
    and not taken. *)
Lemma resolveSlug_plain store t :
  truthy (slugify t) = true -> slugExists store (slugify t) = false ->
  resolveSlug store t = slugify t.
Proof.
  intros T F. rewrite resolveSlug_free; cbn [candidateAt];
    rewrite (truthy_orElse _ _ T); [reflexivity|exact F].
Qed.


(** What an accepted object is made of. *)
Lemma wellFormed_parts o :
  wellFormed o = true ->
  exists t d0 t0,
    snd (construct o) = []
    /\ failingPaths (fst (construct o)) = []
    /\ title (fst (construct o)) = Some t /\ truthy t = true
    /\ date (fst (construct o)) = Some d0
    /\ normalizeDate (Some d0) = inr d0 /\ truthy d0 = true
    /\ normalizeTime (time (fst (construct o))) = inr t0
    /\ isModifiedNew o "title" = true
    /\ isModifiedNew o "date" = true
    /\ isModifiedNew o "time" = true.
Proof.
  unfold wellFormed.
  pose proof (construct_title o) as Ct.
  pose proof (construct_date o) as Cd.
  pose proof (construct_time o) as Cm.
  destruct (construct o) as [doc errs]. cbn [fst snd] in *.
  rewrite !andb_true_iff. intros [[[E F] D] T].
  destruct errs; [|discriminate].
  destruct (failingPaths doc) eqn:FP; [|discriminate].
  destruct (failingPaths_nil doc FP) as (At & Ad & Am).
  destruct (normalizeDate (date doc)) as [|d0] eqn:ND; [discriminate|].
  destruct (normalizeTime (time doc)) as [|t0] eqn:NT; [discriminate|].
  pose proof (normalizeDate_ret _ _ ND) as Dd.
  destruct (title doc) as [t|] eqn:Tt; [|discriminate].
  exists t, d0, t0. rewrite Dd in *. cbn in At, Ad.
  apply negb_false_iff in At, Ad.
  repeat split; try assumption; try reflexivity.
  - apply (castString_modified trim). rewrite <- Ct. cbn. now rewrite At.
  - apply (castString_modified asIs). rewrite <- Cd. cbn. now rewrite Ad.
  - apply (castString_modified asIs). now rewrite <- Cm.
Qed.

(** The document both revisions store for an accepted object, given the
    slug. *)
Lemma create_explicit store o t d0 t0 :
  wellFormed o = true ->
  title (fst (construct o)) = Some t ->
  date (fst (construct o)) = Some d0 ->
  normalizeTime (time (fst (construct o))) = inr t0 ->
  let d := setTime t0 (setDate d0 (setSlug (resolveSlug store t)
                                     (fst (construct o)))) in
  create store o = inr (d, (store ++ [d])%list).
Proof.
  intros W Tt Dd NT.
  destruct (wellFormed_parts o W)
    as (t' & d0' & t0' & E & FP & Tt' & Tr & Dd' & ND & Trd & NT' & Mt & Md & Mm).
  rewrite Tt in Tt'. injection Tt' as <-.
  rewrite Dd in Dd'. injection Dd' as <-.
  rewrite NT in NT'. injection NT' as <-.
  revert E FP Tt Dd NT. cbv zeta. unfold create.
  destruct (construct o) as [doc errs]. cbn [fst snd]. intros -> FP Tt Dd NT.
  unfold preValidate. rewrite Mt, Md, Mm. cbn [orb].
  unfold titleOrEmpty. rewrite Tt, (truthy_orElse t "" Tr).
  pose proof (slugSetter_resolveSlug store t) as SS.
  rewrite SS.
  change (date (setSlug _ doc)) with (date doc). rewrite Dd, ND. cbn [bind ret].
  change (time (setDate d0 (setSlug _ doc))) with (time doc).
  rewrite NT. cbn [bind ret].
  set (s := resolveSlug store t).
  unfold validate. cbn [app].
  rewrite (failingPaths_hook doc s d0 t0 FP Trd (normalizeTime_truthy _ _ NT)).
  cbn [bind ret]. unfold insertOne.
  change (slug (setTime t0 (setDate d0 (setSlug s doc)))) with (Some s).
  destruct (resolveSlug_first_free store t) as (n & E1 & Free & _).
  fold s in E1. rewrite <- E1 in Free. rewrite Free. reflexivity.
Qed.

Lemma create_prev_explicit store o t d0 t0 :
  wellFormed o = true ->
  title (fst (construct o)) = Some t ->
  date (fst (construct o)) = Some d0 ->
  normalizeTime (time (fst (construct o))) = inr t0 ->
  let d := setTime t0 (setDate d0 (setSlug (slugify t) (fst (construct o)))) in
  EventModelPrev.create store o
  = if slugExists store (slugify t)
    then inl (DuplicateKey "slug" (slugify t))
    else inr (d, (store ++ [d])%list).
Proof.
  intros W Tt Dd NT.
  destruct (wellFormed_parts o W)
    as (t' & d0' & t0' & E & FP & Tt' & Tr & Dd' & ND & Trd & NT' & Mt & Md & Mm).
  rewrite Tt in Tt'. injection Tt' as <-.
  rewrite Dd in Dd'. injection Dd' as <-.
  rewrite NT in NT'. injection NT' as <-.
  revert E FP Tt Dd NT. cbv zeta. unfold EventModelPrev.create.
  destruct (construct o) as [doc errs]. cbn [fst snd]. intros -> FP Tt Dd NT.
  unfold validate. cbn [app]. rewrite FP. cbn [bind ret].
  unfold preSave_prev. rewrite Mt, Md, Mm, Tt. cbn [bind ret].
  rewrite slugSetter_slugify.
  change (date (setSlug _ doc)) with (date doc). rewrite Dd, ND. cbn [bind ret].
  change (time (setDate d0 (setSlug _ doc))) with (time doc).
  rewrite NT. cbn [bind ret]. unfold insertOne.
  change (slug (setTime t0 (setDate d0 (setSlug (slugify t) doc))))
    with (Some (slugify t)).
  cbv beta iota. destruct (slugExists store (slugify t)); reflexivity.
Qed.

End Revisions.

(** X15. The hooks of the two revisions give the same result, document
    or error, on every document on which the differences of the current
    one do not show: a modified title has a slug that is not empty and
    not taken, an unmodified title comes with a slug, and a modified date
    is there. *)
Theorem X15_hooks_of_both_revisions_agree :
  forall (store : EventModel.Store) (isModified : string -> bool)
         (doc : EventModel.EventDoc),
    (isModified "title" = true ->
     exists t, EventModel.title doc = Some t
               /\ Js.truthy (EventModel.slugify t) = true
               /\ EventModel.slugExists store (EventModel.slugify t) = false) ->
    (isModified "title" = false ->
     EventModel.absent (EventModel.slug doc) = false) ->
    (isModified "date" = true -> EventModel.date doc <> None) ->
    EventModel.preValidate store isModified doc
    = EventModel.preSave_prev isModified doc.
Proof.
  intros store isModified doc Ht Hs Hd.
  unfold EventModel.preValidate, EventModel.preSave_prev.
  destruct (isModified "title").
  - destruct (Ht eq_refl) as (t & T & Tr & F).
    cbn [orb]. unfold EventModel.titleOrEmpty. rewrite T.
    rewrite (truthy_orElse t "" (slugify_truthy t Tr)).
    rewrite (resolveSlug_plain store t Tr F). cbn [Js.bind Js.ret].
    destruct (isModified "date"); [|reflexivity].
    cbn [EventModel.date EventModel.setSlug].
    destruct (EventModel.date doc); [reflexivity|].
    now destruct (Hd eq_refl).
  - rewrite (Hs eq_refl). cbn [orb Js.bind Js.ret].
    destruct (isModified "date"); [|reflexivity].
    destruct (EventModel.date doc); [reflexivity|].
    now destruct (Hd eq_refl).
Qed.

(** The scenario's document, all of it new, on the empty collection. *)
Lemma X15_witness :
  EventModel.preValidate [] (fun _ => true)
    (fst (EventModel.construct Scenario.cloudNext_9_05))
  = EventModel.preSave_prev (fun _ => true)
      (fst (EventModel.construct Scenario.cloudNext_9_05)).
Proof.
  apply (X15_hooks_of_both_revisions_agree [] (fun _ => true)
           (fst (EventModel.construct Scenario.cloudNext_9_05))).
  - intros _. exists "Cloud Next 2026!".
    split; [vm_compute; reflexivity|]. split; vm_compute; reflexivity.
  - intros H. discriminate H.
  - intros _. vm_compute. discriminate.
Defined.

(** X16. On an object the schema accepts, the earlier revision of the
    model stores the document under the bare slug of the title, the same
    document as the current revision when that slug is not empty; and
    where the slug is taken it throws the duplicate-key error, which the
    endpoint answers with 409, while the current revision stores the
    document under another slug. *)
Theorem X16_earlier_revision_collides :
  forall (store : EventModel.Store) (o : Js.Obj),
    Spec.wellFormed o = true ->
    let base := Spec.baseOf o in
    (EventModel.slugExists store base = false ->
       exists d,
         EventModelPrev.create store o = inr (d, (store ++ [d])%list)
         /\ EventModel.slug d = Some base
         /\ (Js.truthy base = true ->
             EventModel.create store o = EventModelPrev.create store o))
    /\ (EventModel.slugExists store base = true ->
          EventModelPrev.create store o = inl (Js.DuplicateKey "slug" base)
          /\ Route.status (Route.createError (Js.DuplicateKey "slug" base))
             = 409
          /\ exists d,
               EventModel.create store o = inr (d, (store ++ [d])%list)
               /\ EventModel.slug d <> Some base).
Proof.
  intros store o W. cbv zeta.
  destruct (wellFormed_parts o W)
    as (t & d0 & t0 & E & FP & Tt & Tr & Dd & ND & Trd & NT & Mt & Md & Mm).
  pose proof (create_prev_explicit store o t d0 t0 W Tt Dd NT) as P.
  pose proof (create_explicit store o t d0 t0 W Tt Dd NT) as C.
  cbv zeta in P, C.
  assert (B : Spec.baseOf o = EventModel.slugify t).
  { unfold Spec.baseOf, EventModel.titleOrEmpty. rewrite Tt.
    now rewrite (truthy_orElse t "" Tr). }
  rewrite B. split; intros X; rewrite X in P.
  - eexists. split; [exact P|]. split; [reflexivity|].
    intros Tb. rewrite C, P. now rewrite (resolveSlug_plain store t Tb X).
  - split; [exact P|]. split; [reflexivity|].
    eexists. split; [exact C|]. cbn [EventModel.slug EventModel.setTime].
    intros [= R].
    destruct (resolveSlug_first_free store t) as (n & E1 & Free & _).
    rewrite <- E1, R in Free. congruence.
Qed.

(** The scenario's object, on the empty collection and on the one that
    holds its event. *)
Lemma X16_witness :
  (exists d,
     EventModelPrev.create [] Scenario.cloudNext_9_05 = inr (d, [d])
     /\ EventModel.slug d = Some "cloud-next-2026")
  /\ EventModelPrev.create (Route.events Scenario.cloudNextWorld)
       Scenario.cloudNext_9_05
     = inl (Js.DuplicateKey "slug" "cloud-next-2026").
Proof.
  split.
  - destruct (proj1 (X16_earlier_revision_collides [] Scenario.cloudNext_9_05
                       eq_refl) eq_refl) as (d & P & S & _).
    exists d. split; [exact P|exact S].
  - exact (proj1 (proj2 (X16_earlier_revision_collides
                           (Route.events Scenario.cloudNextWorld)
                           Scenario.cloudNext_9_05 eq_refl) eq_refl)).
Defined.

(** ** The slugs the loop resolves *)

Section ResolvedSlugs.
Import Js EventModel Spec SpecMore.

Lemma decimal_truthy n : truthy (decimal n) = true.
Proof.
  destruct (decimal n) eqn:E; [|reflexivity].
  assert (Z0 : decimal n = decimal 0 -> n = 0) by apply decimal_inj.
  unfold decimal in E.
  assert (U : Some (Nat.to_uint n) = Some Decimal.Nil).
  { rewrite <- NilEmpty.usu, E. reflexivity. }
  injection U as U.
  assert (N : Nat.of_uint (Nat.to_uint n) = 0) by now rewrite U.
  rewrite DecimalNat.Unsigned.of_to in N. subst n. discriminate E.
Qed.

Lemma digit_slugChar c : isDigit c = true -> slugChar c = true.
Proof. unfold slugChar. intros ->. now rewrite orb_true_r. Qed.

Lemma digit_not_hyphen c : isDigit c = true -> isHyphen c = false.
Proof. each_char c; vm_compute; congruence. Qed.

(** Digits have the shape of a slug. *)
Lemma digits_shape s :
  allChars isDigit s = true ->
  noDoubleHyphen s = true /\ startsWithHyphen s = false
  /\ endsWithHyphen s = false.
Proof.
  induction s as [|c s IH]; [auto|].
  cbn [allChars]. rewrite andb_true_iff. intros [D A].
  destruct (IH A) as (N & S & E). pose proof (digit_not_hyphen c D) as H.
  cbn [noDoubleHyphen startsWithHyphen]. rewrite H, N. cbn. split; [reflexivity|].
  split; [reflexivity|]. destruct s; [exact H|exact E].
Qed.

Lemma startsWithHyphen_app a b :
  truthy a = true -> startsWithHyphen (a ++ b) = startsWithHyphen a.
Proof. destruct a; [discriminate|reflexivity]. Qed.

Lemma endsWithHyphen_app a b :
  truthy b = true -> endsWithHyphen (a ++ b) = endsWithHyphen b.
Proof.
  intros T. induction a as [|c a IH]; [reflexivity|].
  cbn [String.append]. change (endsWithHyphen (String c (a ++ b)))
    with (match (a ++ b)%string with
          | EmptyString => isHyphen c
          | _ => endsWithHyphen (a ++ b)
          end).
  destruct (a ++ b)%string eqn:E; [|exact IH].
  destruct a; [|discriminate]. cbn in E. subst b. discriminate.
Qed.

(** A hyphen and digits after a string that does not end in a hyphen. *)
Lemma noDoubleHyphen_app a b :
  noDoubleHyphen a = true -> endsWithHyphen a = false ->
  noDoubleHyphen b = true ->
  noDoubleHyphen (a ++ b) = true.
Proof.
  intros Na Ea Nb. induction a as [|c a IH]; [exact Nb|].
  cbn [String.append noDoubleHyphen] in *.
  apply andb_true_iff in Na. destruct Na as [D Na].
  destruct a as [|c' a].
  - cbn in Ea. cbn [String.append]. rewrite Ea. cbn. exact Nb.
  - rewrite IH; [|exact Na|exact Ea]. cbn [String.append startsWithHyphen] in *.
    now rewrite D.
Qed.

Lemma numbered_shaped base k :
  slugShaped base = true -> truthy base = true ->
  slugShaped (base ++ "-" ++ decimal (S k)) = true.
Proof.
  unfold slugShaped. rewrite !andb_true_iff, !negb_true_iff.
  intros [[[C N] St] E] T.
  pose proof (string_of_uint_digits (Nat.to_uint (S k))) as Dg.
  fold (decimal (S k)) in Dg.
  destruct (digits_shape _ Dg) as (Nd & Sd & Ed).
  pose proof (decimal_truthy (S k)) as Td.
  repeat split.
  - rewrite !allChars_app, C. cbn.
    apply (allChars_weaken isDigit); [apply digit_slugChar|exact Dg].
  - apply noDoubleHyphen_app; [exact N|exact E|].
    cbn [String.append noDoubleHyphen]. now rewrite Sd, Nd.
  - rewrite startsWithHyphen_app by exact T. exact St.
  - rewrite endsWithHyphen_app by reflexivity.
    rewrite endsWithHyphen_app by exact Td. exact Ed.
Qed.

Lemma candidateAt_chars str k :
  allChars slugChar (candidateAt (slugify str) k) = true.
Proof.
  destruct k as [|k]; cbn [candidateAt].
  - unfold orElse. destruct (truthy (slugify str)); [|reflexivity].
    apply slugify_chars.
  - rewrite !allChars_app, slugify_chars. cbn.
    apply (allChars_weaken isDigit); [apply digit_slugChar|].
    apply string_of_uint_digits.
Qed.

Lemma candidateAt_truthy base k : truthy (candidateAt base k) = true.
Proof.
  destruct k as [|k]; cbn [candidateAt].
  - unfold orElse. destruct (truthy base) eqn:B; [exact B|reflexivity].
  - destruct base; reflexivity.
Qed.

End ResolvedSlugs.

(** X17. Whatever the title and the collection, the slug the loop
    resolves is not empty, consists of the characters a-z, 0-9,
    underscore and hyphen, and is stored by the setters of the path as it
    is; and when the title has a slug of its own, the resolved one keeps
    the shape of a slug, numbered or not. *)
Theorem X17_resolved_slugs_are_url_safe :
  forall (store : EventModel.Store) (docTitle : string),
    let s := EventModel.resolveSlug store docTitle in
    Js.truthy s = true
    /\ Spec.allChars SpecMore.slugChar s = true
    /\ EventModel.slugSetter s = s
    /\ (Js.truthy (EventModel.slugify docTitle) = true ->
        SpecMore.slugShaped s = true).
Proof.
  intros store docTitle. cbv zeta.
  destruct (resolveSlug_first_free store docTitle) as (n & E & _).
  split; [rewrite E; apply candidateAt_truthy|].
  split; [rewrite E; apply candidateAt_chars|].
  split; [apply slugSetter_resolveSlug|].
  intros T. rewrite E. destruct n as [|n]; cbn [Spec.candidateAt].
  - unfold Js.orElse. rewrite T. apply slugify_shaped.
  - apply numbered_shaped; [apply slugify_shaped|exact T].
Qed.

(** The scenario's title on the collection that holds its event. *)
Lemma X17_witness :
  SpecMore.slugShaped
    (EventModel.resolveSlug (Route.events Scenario.cloudNextWorld)
       "Cloud Next 2026!") = true.
Proof.
  apply (X17_resolved_slugs_are_url_safe
           (Route.events Scenario.cloudNextWorld) "Cloud Next 2026!").
  vm_compute. reflexivity.
Defined.

(** ** The two revisions of [dbConnect] *)

Section ConnectRevisions.
Import Js Mongodb SpecMore.

Lemma rewrapped_uriMissing uri : rewrapped uri uriMissing = uriMissing.
Proof.
  unfold rewrapped.
  assert (P : instanceofError uriMissing
              && networkPattern (messageOf uriMissing) = false)
    by (vm_compute; reflexivity).
  now rewrite P.
Qed.

End ConnectRevisions.

(** X18. On a network that answers by the URI alone, the two revisions
    of [dbConnect] differ in what they throw only: they leave the same
    connection and the same promise in the cache, dial the same URIs, and
    return the same connection; where the earlier one throws an [Error]
    whose message matches the network pattern, the current one throws it
    rewrapped, and every other error as it is. *)
Theorem X18_revisions_of_dbConnect :
  forall (uri : option string) (net : Mongodb.Network) (st : Mongodb.State),
    SpecMore.ignoresOptions net ->
    let prev := Mongodb.dbConnect_prev uri net st in
    let cur := Mongodb.dbConnect uri net st in
    Mongodb.conn (snd cur) = Mongodb.conn (snd prev)
    /\ Mongodb.promise (snd cur) = Mongodb.promise (snd prev)
    /\ map fst (Mongodb.dials (snd cur)) = map fst (Mongodb.dials (snd prev))
    /\ fst cur = match fst prev with
                 | inr h => inr h
                 | inl e => inl (SpecMore.rewrapped uri e)
                 end.
Proof.
  intros uri net st I. cbv zeta.
  unfold Mongodb.dbConnect, Mongodb.dbConnect_prev.
  destruct (Mongodb.unset uri).
  - cbn [fst snd Js.throw]. rewrite rewrapped_uriMissing. repeat split.
  - destruct (Mongodb.conn st) as [h|] eqn:C; [repeat split|].
    unfold Mongodb.ensurePromise, Mongodb.currentOptions.
    destruct (Mongodb.promise st) as [p|] eqn:P.
    + destruct p as [e | h]; cbn [fst snd Mongodb.conn Mongodb.promise
                                   Mongodb.dials Js.ret Js.throw].
      * unfold SpecMore.rewrapped.
        destruct (Js.instanceofError e && Mongodb.networkPattern _);
          repeat split.
      * repeat split.
    + rewrite (I (Mongodb.uriString uri)
                 (Mongodb.mkOptions false (Some 5000))
                 (Mongodb.mkOptions false None)).
      destruct (net (Mongodb.uriString uri) (Mongodb.mkOptions false None))
        as [e | h]; cbn [fst snd Mongodb.conn Mongodb.promise
                         Mongodb.dials Js.ret Js.throw].
      * unfold SpecMore.rewrapped.
        destruct (Js.instanceofError e && Mongodb.networkPattern _);
          cbn [fst snd Mongodb.conn Mongodb.promise Mongodb.dials];
          rewrite !map_app; repeat split.
      * rewrite !map_app. repeat split.
Qed.

(** A refused SRV lookup, on the empty cache. *)
Lemma X18_witness :
  fst (Mongodb.dbConnect Scenario.srvUri Scenario.refusing Scenario.idleState)
  = match fst (Mongodb.dbConnect_prev Scenario.srvUri Scenario.refusing
                 Scenario.idleState) with
    | inr h => inr h
    | inl e => inl (SpecMore.rewrapped Scenario.srvUri e)
    end.
Proof.
  refine (proj2 (proj2 (proj2 (X18_revisions_of_dbConnect Scenario.srvUri
                                 Scenario.refusing Scenario.idleState _)))).
  intros u o1 o2. reflexivity.
Defined.
